(** * Rig parameter synthesis core of the Live2D generator

    A shallow embedding of [src/modules/layer_separator.py] (layer
    selection and z-ordering), [src/modules/parameters_gen.py]
    (animation curve synthesis) and the stage sequence of [src/main.py],
    with the properties of the design document stated over it.

    Calls out of the modules (model loading, background removal, file
    writes, the PSD library, the pipeline stages) are parameters that
    return or raise; what the code does to the outside is recorded as a
    list of effects.

    Numbers.  Python floats are read as exact numbers: rationals [Q]
    where the code only adds, multiplies and compares (blink, lip-sync),
    reals [R] where it calls [math.sin] (head rotation, breathing).
    Rounding is not modelled; overflow is, where it turns a result into
    an exception ([math_sin]). *)

From Stdlib Require Import QArith Reals Psatz Lia Ascii.
From stdpp Require Import strings gmap list sorting.

(** ** Python outcomes *)

Inductive exn :=
  | StopIteration | ZeroDivisionError | ValueError | KeyError
  | ImportError | TypeError | OSError
  | OtherError (class_name : string).

(** [OutOfFuel] belongs to the model only: it marks a loop that was
    given too few iterations. *)
Inductive outcome (A : Type) :=
  | Ok (a : A)
  | Raise (e : exn)
  | OutOfFuel.
Arguments Ok {A} a.
Arguments Raise {A} e.
Arguments OutOfFuel {A}.

(** The value a call returns, without the generator state it leaves. *)
Definition returned {A S : Type} (o : outcome (A * S)) : outcome A :=
  match o with
  | Ok (a, _) => Ok a
  | Raise e => Raise e
  | OutOfFuel => OutOfFuel
  end.

(** ** Python built-ins *)

Section sorted.
Context {A : Type} (key : A → Z) (reverse : bool).

(** The comparison [sorted] applies to two keys. *)
Definition key_le (a b : Z) : bool :=
  if reverse then (b <=? a)%Z else (a <=? b)%Z.

Definition le_key : relation A :=
  λ a b, key_le (key a) (key b) = true.

Fixpoint insert_sorted (x : A) (l : list A) : list A :=
  match l with
  | [] => [x]
  | y :: l' =>
      if key_le (key x) (key y) then x :: y :: l'
      else y :: insert_sorted x l'
  end.

(** [sorted(l, key=key, reverse=reverse)].  Python guarantees the sort
    to be stable, also under [reverse=True]; a stable sort has one
    possible result, computed here by insertion from the right. *)
Definition sorted (l : list A) : list A := foldr insert_sorted [] l.
End sorted.

(** [sub in s] on strings. *)
Fixpoint str_prefix (sub s : string) : bool :=
  match sub, s with
  | EmptyString, _ => true
  | String a sub', String b s' =>
      if decide (a = b) then str_prefix sub' s' else false
  | String _ _, EmptyString => false
  end.

Fixpoint str_in (sub s : string) : bool :=
  str_prefix sub s ||
  match s with
  | EmptyString => false
  | String _ s' => str_in sub s'
  end.

(** A [dict]: insertion-ordered, keys unique.  [d[k] = v] replaces the
    value in place when [k] is present and appends otherwise. *)
Section dict.
Context {V : Type}.

Fixpoint dict_set (k : string) (v : V) (d : list (string * V))
  : list (string * V) :=
  match d with
  | [] => [(k, v)]
  | (k', v') :: d' =>
      if decide (k' = k) then (k, v) :: d'
      else (k', v') :: dict_set k v d'
  end.

Fixpoint dict_get (k : string) (d : list (string * V)) : option V :=
  match d with
  | [] => None
  | (k', v') :: d' => if decide (k' = k) then Some v' else dict_get k d'
  end.

Definition dict_keys (d : list (string * V)) : list string := d.*1.
End dict.

(** ** layer_separator.py *)

Module LayerSeparator.

(** An RGBA pixel and a [height x width] array of them; a mask is a
    boolean array of the same shape.  Arrays are lists of rows. *)
Definition pixel : Type := Z * Z * Z * Z.
Definition image : Type := list (list pixel).
Definition mask : Type := list (list bool).

Definition height (img : image) : nat := length img.
Definition width (img : image) : nat := length (hd [] img).

(** [m.sum()]: the number of [True] entries. *)
Definition mask_sum (m : mask) : Z :=
  Z.of_nat (length (filter (λ b : bool, Is_true b) (concat m))).

(** Reading a mask; positions outside it read [False] (numpy requires
    mask and image to agree in shape, which both mask sources do). *)
Definition mask_at (m : mask) (y x : nat) : bool :=
  default false (m !! y ≫= λ row, row !! x).

(** [mask = np.zeros((height, width)); mask[top:bottom, left:right] = True] *)
Definition box_mask (h w top bottom left right : nat) : mask :=
  map (λ y, map (λ x,
         bool_decide (top ≤ y < bottom) && bool_decide (left ≤ x < right))
       (seq 0 w)) (seq 0 h).

(** [self.part_hierarchy] *)
Definition part_hierarchy : gmap string Z :=
  list_to_map
    [ ("background", 0); ("hair_back", 1); ("body", 2);
      ("arm_left", 3); ("arm_right", 3); ("leg_left", 3); ("leg_right", 3);
      ("face", 4); ("eye_white_left", 5); ("eye_white_right", 5);
      ("iris_left", 6); ("iris_right", 6);
      ("highlight_left", 7); ("highlight_right", 7);
      ("eyebrows_left", 8); ("eyebrows_right", 8);
      ("nose", 9); ("mouth", 10); ("upper_lip", 11); ("lower_lip", 11);
      ("hair_side", 12); ("hair_front", 13); ("accessories", 14) ]%Z.

(** [self.part_hierarchy.get(p, 999)] *)
Definition rankOf (p : string) : Z := default 999%Z (part_hierarchy !! p).

(** [self.layers_config] *)
Record layers_config := {
  segmentation_model : string;
  refine_edges : bool;
  parts : list string;
  fill_background : bool;
  background_color : pixel;
  export_psd : bool
}.

(** What [separate] does to the world outside, in the order it does
    it: loading the model, making the output directory, reading the
    input file, writing the PNG files, calling into [psd_tools]. *)
Inductive effect :=
  | LoadModel
  | MakeOutputDir
  | RemoveBackground (image_path : string)
  | SaveNoBackground (img : image)
  | SavePart (part_name : string) (img : image)
  | SaveBackground (img : image)
  | PsdNew (width height : nat)
  | PsdCreateLayer (name : string) (img : image)
  | PsdSave.

(** The layers handed to [psd.create_layer], in the order of the calls. *)
Definition psd_stack (effects : list effect) : list (string * image) :=
  omap (λ e, match e with
             | PsdCreateLayer name img => Some (name, img)
             | _ => None
             end) effects.

(** The part images written, in the order of the writes. *)
Definition saved_parts (effects : list effect) : list (string * image) :=
  omap (λ e, match e with
             | SavePart part_name img => Some (part_name, img)
             | _ => None
             end) effects.

(** The world outside [separate]: the state of the object and what each
    call out of the module returns or raises.
    [sam_predictor]: [self.sam_predictor is not None] at the call
    ([self.segmentation_model] is never assigned, so the test before
    [_load_model] comes down to this); [mkdir]: making the output
    directory; [save file_name img]: [img.save] to that file of the
    directory; [psd_tools]: whether the two imports succeed;
    [PSDImage_new width height], [create_layer name img], [psd_save]:
    the calls into the library; [output_subdir]: the time-stamped
    directory name. *)
Record externals := {
  sam_predictor : bool;
  _load_model : outcome unit;
  mkdir : outcome unit;
  _remove_background : string → outcome image;
  save : string → image → outcome unit;
  psd_tools : bool;
  PSDImage_new : nat → nat → outcome unit;
  create_layer : string → image → outcome unit;
  psd_save : outcome unit;
  output_subdir : string
}.

(** A computation with effects: the effects performed, in order, and
    how it ended. *)
Definition io (A : Type) : Type := list effect * outcome A.

Definition io_ret {A : Type} (a : A) : io A := ([], Ok a).

Definition io_bind {A B : Type} (m : io A) (k : A → io B) : io B :=
  match m with
  | (effects, Ok a) => let '(effects', r) := k a in (effects ++ effects', r)
  | (effects, Raise e) => (effects, Raise e)
  | (effects, OutOfFuel) => (effects, OutOfFuel)
  end.

(** A call out of the module: it is recorded, and returns or raises
    what the world says. *)
Definition perform {A : Type} (e : effect) (result : outcome A) : io A :=
  ([e], result).

(** [try: ... except ImportError: (log)] *)
Definition except_ImportError (m : io unit) : io unit :=
  match m with
  | (effects, Raise ImportError) => (effects, Ok tt)
  | _ => m
  end.

Declare Scope io_scope.
Delimit Scope io_scope with io.
Notation "x <- m ;; k" := (io_bind m (λ x, k))
  (at level 100, m at next level, k at level 200, right associativity)
  : io_scope.

Section separator.
(** The external collaborators: what [_segment_with_sam] returns for a
    part of the image, and OpenCV's [GaussianBlur(alpha, (5, 5), 0)]. *)
Context (_segment_with_sam : image → string → list mask).
Context (GaussianBlur : list (list Z) → list (list Z)).
Context (cfg : layers_config).
Context (ext : externals).

(** The fallback masks of [_segment_part]. *)
Definition fallback_masks (np_image : image) (part_name : string)
  : list mask :=
  let h := height np_image in
  let w := width np_image in
  if str_in "eye" part_name then
    [box_mask h w (h / 4) (h / 2) (w / 4) (3 * w / 4)]
  else if str_in "mouth" part_name then
    [box_mask h w (h / 2) (3 * h / 4) (w / 3) (2 * w / 3)]
  else if str_in "hair" part_name then
    [box_mask h w 0 (h / 2) 0 w]
  else [].

(** The candidate masks of a part: SAM's when that model is configured,
    the fallback when there are none. *)
Definition candidate_masks (np_image : image) (part_name : string)
  : list mask :=
  let masks :=
    if decide (segmentation_model cfg = "segment_anything")
    then _segment_with_sam np_image part_name else [] in
  match masks with
  | [] => fallback_masks np_image part_name
  | _ => masks
  end.

(** [result = zeros; result[m, :3] = np_image[m, :3]; result[m, 3] = 255] *)
Definition apply_mask (np_image : image) (m : mask) : image :=
  imap (λ y row,
    imap (λ x (p : pixel),
      if mask_at m y x
      then let '(r, g, b, _) := p in (r, g, b, 255%Z)
      else (0, 0, 0, 0)%Z) row) np_image.

Definition alpha_channel (img : image) : list (list Z) :=
  map (map (λ p : pixel, p.2)) img.

(** [img.putalpha(alpha)] *)
Definition putalpha (img : image) (alpha : list (list Z)) : image :=
  imap (λ y row,
    imap (λ x (p : pixel),
      let '(r, g, b, a) := p in
      (r, g, b, default a (alpha !! y ≫= λ arow, arow !! x))) row) img.

Definition selected_mask (masks : list mask) : option mask :=
  head (sorted mask_sum true masks).

Definition _segment_part (np_image : image) (part_name : string)
  : option image :=
  let masks := candidate_masks np_image part_name in
  match selected_mask masks with
  | Some m =>
      let segmented_image := apply_mask np_image m in
      Some (if refine_edges cfg
            then putalpha segmented_image
                   (GaussianBlur (alpha_channel segmented_image))
            else segmented_image)
  | None => None
  end.

(** The [layers] dict the loop of [separate] builds before the
    background is added (see [segment_loop] for the loop with its file
    writes): a PIL image is always truthy, so a part is skipped only
    when [_segment_part] returns [None]. *)
Definition segment_parts (no_bg_image : image) : list (string * image) :=
  foldl (λ layers part_name,
           match _segment_part no_bg_image part_name with
           | Some segmented_part => dict_set part_name segmented_part layers
           | None => layers
           end) [] (parts cfg).

(** [Image.new("RGBA", size, bg_color)] *)
Definition new_image (like : image) (c : pixel) : image :=
  map (map (λ _, c)) like.

(** [sorted(layers.keys(), key=lambda p: self.part_hierarchy.get(p, 999))] *)
Definition ordered_parts (layers : list (string * image)) : list string :=
  sorted rankOf false (dict_keys layers).

(** The loop of [_create_psd]: [psd.create_layer(name=part_name,
    image=layers[part_name])] for each part, in the order given. *)
Fixpoint create_layers (layers : list (string * image))
    (parts_in_order : list string) : io unit :=
  match parts_in_order with
  | [] => io_ret tt
  | part_name :: rest =>
      match dict_get part_name layers with
      | Some layer_img =>
          (_ <- perform (PsdCreateLayer part_name layer_img)
                  (create_layer ext part_name layer_img) ;;
           create_layers layers rest)%io
      | None => ([], Raise KeyError)
      end
  end.

(** [_create_psd].  The whole body is in one [try] whose only handler is
    [except ImportError]: a failed import, or an [ImportError] out of a
    later call, is logged and the function returns; every other
    exception leaves the function.  [next(iter(layers.values()))] raises
    [StopIteration] on an empty dict. *)
Definition _create_psd (layers : list (string * image)) : io unit :=
  except_ImportError
    (if psd_tools ext then
       match layers with
       | [] => ([], Raise StopIteration)
       | (_, first_image) :: _ =>
           (_ <- perform (PsdNew (width first_image) (height first_image))
                   (PSDImage_new ext (width first_image)
                      (height first_image)) ;;
            _ <- create_layers layers (ordered_parts layers) ;;
            perform PsdSave (psd_save ext))%io
       end
     else ([], Raise ImportError)).

(** The loop of [separate] over the requested parts, with the file it
    writes for each part that was segmented. *)
Fixpoint segment_loop (no_bg_image : image) (part_names : list string)
    (layers : list (string * image)) : io (list (string * image)) :=
  match part_names with
  | [] => io_ret layers
  | part_name :: rest =>
      match _segment_part no_bg_image part_name with
      | Some segmented_part =>
          (_ <- perform (SavePart part_name segmented_part)
                  (save ext (part_name +:+ ".png") segmented_part) ;;
           segment_loop no_bg_image rest
             (dict_set part_name segmented_part layers))%io
      | None => segment_loop no_bg_image rest layers
      end
  end.

(** [separate]: what it does to the outside, and the directory it
    returns. *)
Definition separate (image_path : string) : io string :=
  (_ <- (if sam_predictor ext then io_ret tt
         else perform LoadModel (_load_model ext)) ;;
   _ <- perform MakeOutputDir (mkdir ext) ;;
   no_bg_image <- perform (RemoveBackground image_path)
                    (_remove_background ext image_path) ;;
   _ <- perform (SaveNoBackground no_bg_image)
          (save ext "character_no_bg.png" no_bg_image) ;;
   layers <- segment_loop no_bg_image (parts cfg) [] ;;
   layers <-
     (if fill_background cfg then
        let bg_image := new_image no_bg_image (background_color cfg) in
        _ <- perform (SaveBackground bg_image)
               (save ext "background.png" bg_image) ;;
        io_ret (dict_set "background" bg_image layers)
      else io_ret layers) ;;
   _ <- (if export_psd cfg then _create_psd layers else io_ret tt) ;;
   io_ret (output_subdir ext))%io.
End separator.

(** [self.part_colors]: the colour hints given to SAM. *)
Definition color : Type := Z * Z * Z.

Definition part_colors : gmap string (list color) :=
  list_to_map
    [ ("hair_front", [(200, 150, 100); (240, 180, 120)]);
      ("hair_side", [(200, 150, 100); (240, 180, 120)]);
      ("hair_back", [(200, 150, 100); (240, 180, 120)]);
      ("face", [(255, 200, 200); (255, 220, 220)]);
      ("eyebrows", [(100, 80, 80); (80, 60, 60)]);
      ("eye_white", [(250, 250, 250); (240, 240, 240)]);
      ("iris", [(100, 150, 200); (50, 200, 50)]);
      ("highlight", [(255, 255, 255)]);
      ("nose", [(255, 200, 200); (255, 180, 180)]);
      ("mouth", [(240, 120, 120); (250, 150, 150)]);
      ("upper_lip", [(240, 120, 120); (250, 150, 150)]);
      ("lower_lip", [(240, 120, 120); (250, 150, 150)]);
      ("body", [(180, 180, 220); (220, 220, 250)]);
      ("arm", [(255, 200, 200); (255, 220, 220)]);
      ("leg", [(255, 200, 200); (255, 220, 220)]);
      ("accessories", [(220, 220, 100); (250, 250, 150)]) ]%Z.

(** [s.split('_')[0]]: the text before the first underscore. *)
Fixpoint before_underscore (s : string) : string :=
  match s with
  | EmptyString => EmptyString
  | String c s' =>
      if decide (c = "_"%char) then EmptyString
      else String c (before_underscore s')
  end.

(** [part_name.split('_')[0] if '_' in part_name else part_name] *)
Definition base_part (part_name : string) : string :=
  if str_in "_" part_name then before_underscore part_name else part_name.

(** A looked-up value that passes [if not colors]: present and not
    empty. *)
Definition nonempty_hint (o : option (list color)) : option (list color) :=
  match o with
  | Some (c :: cs) => Some (c :: cs)
  | _ => None
  end.

(** The colour hints [_segment_with_sam] finds for a part: those of its
    base name, else those of its full name. *)
Definition color_hints (part_name : string) : option (list color) :=
  match nonempty_hint (part_colors !! base_part part_name) with
  | Some colors => Some colors
  | None => nonempty_hint (part_colors !! part_name)
  end.

(** [_segment_with_sam].  What follows the colour lookup (matching the
    colours in the image, sampling prompt points, the SAM prediction) is
    the collaborator [predict_masks]. *)
Definition _segment_with_sam (sam_predictor_loaded : bool)
    (predict_masks : image → list color → list mask)
    (np_image : image) (part_name : string) : list mask :=
  if sam_predictor_loaded then
    match color_hints part_name with
    | Some colors => predict_masks np_image colors
    | None => []
    end
  else [].

End LayerSeparator.

(** ** cubism_automation.py: the registered parameter ranges *)

Module CubismAutomation.

(** The [_create_parameter(name, min_value, max_value)] calls of
    [_setup_parameters], in order. *)
Definition _setup_parameters : list (string * (Z * Z)) :=
  [ ("AngleX", (-30, 30)); ("AngleY", (-30, 30)); ("AngleZ", (-30, 30));
    ("EyeLOpen", (0, 1)); ("EyeROpen", (0, 1));
    ("EyeBallX", (-1, 1)); ("EyeBallY", (-1, 1));
    ("MouthOpen", (0, 1)); ("MouthForm", (-1, 1));
    ("BodyX", (-10, 10)); ("BodyY", (-10, 10)); ("BodyZ", (-10, 10));
    ("Breath", (0, 1)); ("HairMove", (0, 1)) ]%Z.

Definition registered_range (name : string) : option (Z * Z) :=
  dict_get name _setup_parameters.

End CubismAutomation.

(** ** parameters_gen.py *)

Module ParametersGenerator.

(** A keyframe [{"time": t, "value": v}]. *)
Record keyframe (N : Type) := Keyframe { time : N; value : N }.
Arguments Keyframe {N} time value.
Arguments time {N} k.
Arguments value {N} k.

Open Scope Q_scope.

(** The generator behind [random.random()]: its state is the stream of
    the numbers its coming calls return, each in [[0, 1)].  The module
    never seeds it. *)
Definition rng : Type := nat → Q.

Definition random (g : rng) : Q * rng := (g 0%nat, λ n, g (S n)).

(** [random.uniform(a, b)] is [a + (b - a) * random()]. *)
Definition uniform (a b : Q) (g : rng) : Q * rng :=
  let '(u, g') := random g in (a + (b - a) * u, g').

(** The draws of a well-formed generator. *)
Definition rng_ok (g : rng) : Prop := ∀ n, 0 <= g n ∧ g n < 1.

(** *** The blink curve *)

(** The two variables the loop body updates. *)
Record blink_state := BlinkState {
  current_time : Q;
  keyframes : list (keyframe Q)
}.

(** [keyframes.append({"time": current_time, "value": v})] *)
Definition emit (v : Q) (s : blink_state) : blink_state :=
  BlinkState (current_time s)
             (keyframes s ++ [Keyframe (current_time s) v]).

(** [current_time += d] *)
Definition advance (d : Q) (s : blink_state) : blink_state :=
  BlinkState (current_time s + d) (keyframes s).

Declare Scope stmt_scope.
Delimit Scope stmt_scope with stmt.
Notation "c1 ;; c2" := (λ s : blink_state, c2 (c1 s))
  (at level 100, c2 at level 200, right associativity) : stmt_scope.

(** One pass through the body of the [while] loop, up to the wait. *)
Definition blink_cycle : blink_state → blink_state :=
  (emit 1.0 ;;
   advance 0.02 ;; emit 0.9 ;;
   advance 0.02 ;; emit 0.7 ;;
   advance 0.02 ;; emit 0.5 ;;
   advance 0.02 ;; emit 0.2 ;;
   advance 0.02 ;; emit 0.0 ;;
   advance 0.06 ;; emit 0.0 ;;
   advance 0.02 ;; emit 0.2 ;;
   advance 0.02 ;; emit 0.5 ;;
   advance 0.02 ;; emit 0.7 ;;
   advance 0.02 ;; emit 0.9 ;;
   advance 0.02 ;; emit 1.0)%stmt.

(** The keyframes one pass appends when it starts at time [t]. *)
Definition cycle_at (t : Q) : list (keyframe Q) :=
  keyframes (blink_cycle (BlinkState t [])).

(** The time at which that pass ends. *)
Definition cycle_end (t : Q) : Q :=
  current_time (blink_cycle (BlinkState t [])).

Definition blink_total_time : Q := 10.0.

(** [current_time < total_time] *)
Definition Qltb (a b : Q) : bool := negb (Qle_bool b a).

(** [while current_time < total_time: ...].  [fuel] bounds the number
    of times the test is made; Python has no such bound. *)
Fixpoint blink_loop (fuel : nat) (random_blink : bool) (interval : Q)
    (s : blink_state) (g : rng) : outcome (list (keyframe Q) * rng) :=
  match fuel with
  | O => OutOfFuel
  | S fuel' =>
      if Qltb (current_time s) blink_total_time then
        let s := blink_cycle s in
        let '(wait_time, g) :=
          if random_blink
          then uniform (interval * 0.7) (interval * 1.3) g
          else (interval, g) in
        blink_loop fuel' random_blink interval (advance wait_time s) g
      else Ok (keyframes s, g)
  end.

Definition _create_eye_blink_curve (fuel : nat) (speed : Q)
    (random_blink : bool) (g : rng) : outcome (list (keyframe Q) * rng) :=
  if Qeq_bool speed 0 then Raise ZeroDivisionError
  else
    let blink_duration := 0.3 / speed in
    let '(interval, g) :=
      if random_blink then uniform 2.0 6.0 g else (4.0, g) in
    blink_loop fuel random_blink interval (BlinkState 0.0 []) g.

(** *** The lip-sync curve *)

Definition _create_sample_lip_sync (g : rng) : list (keyframe Q) * rng :=
  let total_time := 5.0 in
  let syllable_count := 10%nat in
  foldl (λ '(keyframes, g) i,
           let start_time :=
             inject_Z (Z.of_nat i)
             * (total_time / inject_Z (Z.of_nat syllable_count)) in
           let keyframes := keyframes ++ [Keyframe start_time 0.0] in
           let '(max_open, g) := uniform 0.3 0.7 g in
           let keyframes :=
             keyframes ++ [Keyframe (start_time + 0.1) max_open] in
           let keyframes := keyframes ++ [Keyframe (start_time + 0.2) 0.2] in
           let keyframes := keyframes ++ [Keyframe (start_time + 0.3) 0.0] in
           (keyframes, g))
        ([], g) (seq 0 syllable_count).

Close Scope Q_scope.

(** *** The periodic curves *)

Open Scope R_scope.

(** [range(int(total_time / step) + 1)] *)
Definition sample_indices (total_time step : R) : list nat :=
  seq 0 (Z.to_nat (Int_part (total_time / step)) + 1).

(** The frequency and phase chosen for an axis. *)
Definition axis_wave (axis : string) : R * R :=
  if decide (axis = "x") then (0.2, 0.0)
  else if decide (axis = "y") then (0.15, 1.57)
  else (0.1, 3.14).

(** The [for] loop appends one keyframe for each [t] of the range.
    [min_val, max_val = range_values] raises unless there are exactly
    two values. *)
Definition _create_head_rotation_curve (axis : string)
    (range_values : list R) : outcome (list (keyframe R)) :=
  let total_time := 10.0 in
  let '(frequency, phase) := axis_wave axis in
  match range_values with
  | [min_val; max_val] =>
      let mid_val := (min_val + max_val) / 2 in
      let amplitude := (max_val - min_val) / 2 in
      let step := 0.1 in
      Ok (map (λ t,
                 let time_point := INR t * step in
                 let value :=
                   mid_val
                   + amplitude
                     * sin (2 * PI * frequency * time_point + phase) in
                 Keyframe time_point value)
              (sample_indices total_time step))
  | _ => Raise ValueError
  end.

(** The largest finite double, [sys.float_info.max]. *)
Definition float_max : R := (2 - / 2 ^ 52) * 2 ^ 1023.

(** [math.sin(x)].  A float too large for a double is [inf], and
    [math.sin(inf)] raises [ValueError]: this is the one place where
    the size of a float decides between a result and an exception, and
    the one place where it is modelled.  (In the head rotation curve
    the argument is at most [2 * pi * 0.2 * 10 + 3.14].) *)
Definition math_sin (x : R) : outcome R :=
  if Rle_dec (Rabs x) float_max then Ok (sin x) else Raise ValueError.

(** A [for] loop that appends one item per pass and stops at the first
    exception. *)
Fixpoint collect {A B : Type} (f : A → outcome B) (l : list A)
  : outcome (list B) :=
  match l with
  | [] => Ok []
  | a :: l' =>
      match f a with
      | Ok b =>
          match collect f l' with
          | Ok bs => Ok (b :: bs)
          | Raise e => Raise e
          | OutOfFuel => OutOfFuel
          end
      | Raise e => Raise e
      | OutOfFuel => OutOfFuel
      end
  end.

Definition _create_breathing_curve (depth speed : R)
  : outcome (list (keyframe R)) :=
  let total_time := 10.0 in
  let frequency := 0.25 * speed in
  let step := 0.1 in
  collect (λ t,
             let time_point := INR t * step in
             match math_sin (2 * PI * frequency * time_point) with
             | Ok s =>
                 let value := 0.5 + depth * 0.5 * s in
                 Ok (Keyframe time_point value)
             | Raise e => Raise e
             | OutOfFuel => OutOfFuel
             end)
          (sample_indices total_time step).

Close Scope R_scope.

(** *** Spacing of the blink cycles *)

(** Each cycle of [starts] begins [gap] after the end of the one before,
    with [lo <= gap < hi]. *)
Fixpoint spaced (lo hi : Q) (starts : list Q) : Prop :=
  match starts with
  | t :: ((t' :: _) as rest) =>
      (cycle_end t + lo <= t')%Q ∧ (t' < cycle_end t + hi)%Q ∧
      spaced lo hi rest
  | _ => True
  end.


(** Earlier in time. *)
Definition time_lt : relation (keyframe Q) := λ a b, (time a < time b)%Q.

(** *** [generate] *)

(** [self.parameters_config], with the keys the generator reads. *)
Record eye_config := { blink_speed : Q; random_blink : bool }.
Record mouth_config := {
  auto_lip_sync : bool;
  preset_expressions : list string
}.
Record head_config := {
  rotation_range_x : list R;
  rotation_range_y : list R;
  rotation_range_z : list R
}.
Record body_config := {
  breathing_enabled : bool;
  breathing_depth : R;
  breathing_speed : R
}.
Record physics_config := {
  hair_stiffness : R;
  hair_damping : R;
  cloth_stiffness : R;
  cloth_damping : R
}.
Record parameters_config := {
  cfg_eye : eye_config;
  cfg_mouth : mouth_config;
  cfg_head : head_config;
  cfg_body : body_config;
  cfg_physics : physics_config
}.

(** What [project_path] is on disk: a directory, with the [*.cmo3] files
    the glob finds in it, or something else, taken as the model file. *)
Inductive project :=
  | ProjectDir (cmo3_files : list string)
  | ProjectFile (path : string).

(** The messages [generate] and its helpers log, in the order of the
    source. *)
Inductive log_entry :=
  | GeneratingFor
  | ModelFound (model_path : string)
  | NoModelFile
  | BlinkStart
  | BlinkCurve (keyframe_count : nat)
  | MouthStart
  | LipSync (keyframe_count : nat)
  | MouthExpression (expression : string)
  | HeadStart
  | HeadDone
  | BodyStart
  | BreathingCurve (keyframe_count : nat)
  | PhysicsStart
  | PhysicsConfig (hair_s hair_d cloth_s cloth_d : R)
  | CombinedStart
  | CombinedExpression (expression : string)
  | GenerationDone
  | GenerationError (e : exn).

(** A step of [generate]: it reads and advances the generator, appends
    to the log, and returns, raises, or runs out of fuel. *)
Inductive step_result (A : Type) :=
  | Done (a : A) (g : rng) (log : list log_entry)
  | Failed (e : exn) (g : rng) (log : list log_entry)
  | NoFuel.
Arguments Done {A} a g log.
Arguments Failed {A} e g log.
Arguments NoFuel {A}.

Definition gen_m (A : Type) : Type := rng → list log_entry → step_result A.

Definition gen_ret {A : Type} (a : A) : gen_m A := λ g log, Done a g log.

Definition gen_bind {A B : Type} (m : gen_m A) (k : A → gen_m B) : gen_m B :=
  λ g log,
    match m g log with
    | Done a g' log' => k a g' log'
    | Failed e g' log' => Failed e g' log'
    | NoFuel => NoFuel
    end.

Declare Scope gen_scope.
Delimit Scope gen_scope with gen.
Notation "x <- m ;; k" := (gen_bind m (λ x, k))
  (at level 100, m at next level, k at level 200, right associativity)
  : gen_scope.
Notation "m ;; k" := (gen_bind m (λ _, k))
  (at level 100, k at level 200, right associativity) : gen_scope.

(** [logger.info(...)] *)
Definition info (e : log_entry) : gen_m unit :=
  λ g log, Done tt g (log ++ [e]).

(** A call that draws from the generator. *)
Definition with_rng {A : Type} (f : rng → outcome (A * rng)) : gen_m A :=
  λ g log,
    match f g with
    | Ok (a, g') => Done a g' log
    | Raise e => Failed e g log
    | OutOfFuel => NoFuel
    end.

(** A call that does not. *)
Definition pure_call {A : Type} (o : outcome A) : gen_m A :=
  λ g log,
    match o with
    | Ok a => Done a g log
    | Raise e => Failed e g log
    | OutOfFuel => NoFuel
    end.

(** [for x in l: body(x)] *)
Fixpoint for_each {A : Type} (l : list A) (body : A → gen_m unit)
  : gen_m unit :=
  match l with
  | [] => gen_ret tt
  | x :: l' => (body x ;; for_each l' body)%gen
  end.

Definition _generate_eye_blink_params (fuel : nat) (cfg : parameters_config)
  : gen_m unit :=
  (info BlinkStart ;;
   eye_open_curve <-
     with_rng (_create_eye_blink_curve fuel (blink_speed (cfg_eye cfg))
                 (random_blink (cfg_eye cfg))) ;;
   info (BlinkCurve (length eye_open_curve)))%gen.

Definition _generate_mouth_params (cfg : parameters_config) : gen_m unit :=
  (info MouthStart ;;
   (if auto_lip_sync (cfg_mouth cfg) then
      lip_sync_data <- with_rng (λ g, Ok (_create_sample_lip_sync g)) ;;
      info (LipSync (length lip_sync_data))
    else gen_ret tt) ;;
   for_each (preset_expressions (cfg_mouth cfg))
     (λ expression, info (MouthExpression expression)))%gen.

Definition _generate_head_rotation_params (cfg : parameters_config)
  : gen_m unit :=
  (info HeadStart ;;
   x_curve <- pure_call (_create_head_rotation_curve "x"
                           (rotation_range_x (cfg_head cfg))) ;;
   y_curve <- pure_call (_create_head_rotation_curve "y"
                           (rotation_range_y (cfg_head cfg))) ;;
   z_curve <- pure_call (_create_head_rotation_curve "z"
                           (rotation_range_z (cfg_head cfg))) ;;
   info HeadDone)%gen.

Definition _generate_body_params (cfg : parameters_config) : gen_m unit :=
  (info BodyStart ;;
   if breathing_enabled (cfg_body cfg) then
     breathing_curve <-
       pure_call (_create_breathing_curve (breathing_depth (cfg_body cfg))
                    (breathing_speed (cfg_body cfg))) ;;
     info (BreathingCurve (length breathing_curve))
   else gen_ret tt)%gen.

Definition _generate_physics_params (cfg : parameters_config) : gen_m unit :=
  (info PhysicsStart ;;
   info (PhysicsConfig (hair_stiffness (cfg_physics cfg))
           (hair_damping (cfg_physics cfg)) (cloth_stiffness (cfg_physics cfg))
           (cloth_damping (cfg_physics cfg))))%gen.

Definition _generate_combined_params (cfg : parameters_config)
  : gen_m unit :=
  (info CombinedStart ;;
   for_each (preset_expressions (cfg_mouth cfg))
     (λ expression, info (CombinedExpression expression)))%gen.

(** The body of the [try] of [generate]. *)
Definition generate_body (fuel : nat) (cfg : parameters_config)
    (project_path : project) : gen_m bool :=
  let steps : gen_m bool :=
    (_generate_eye_blink_params fuel cfg ;;
     _generate_mouth_params cfg ;;
     _generate_head_rotation_params cfg ;;
     _generate_body_params cfg ;;
     _generate_physics_params cfg ;;
     _generate_combined_params cfg ;;
     info GenerationDone ;;
     gen_ret true)%gen in
  match project_path with
  | ProjectDir (model_path :: _) => (info (ModelFound model_path) ;; steps)%gen
  | ProjectDir [] => (info NoModelFile ;; gen_ret false)%gen
  | ProjectFile _ => steps
  end.

(** [generate]: every exception is caught, logged and turned into
    [False].  The result carries the generator state left behind and
    the log of the call. *)
Definition generate (fuel : nat) (cfg : parameters_config)
    (project_path : project) (g : rng)
  : outcome (bool * rng * list log_entry) :=
  match (info GeneratingFor ;; generate_body fuel cfg project_path)%gen g []
  with
  | Done b g' log => Ok (b, g', log)
  | Failed e g' log => Ok (false, g', log ++ [GenerationError e])
  | NoFuel => OutOfFuel
  end.

End ParametersGenerator.

(** ** main.py *)

Module Main.

(** The command line, as [argparse] returns it. *)
Record args := {
  skip_character : bool;
  skip_layer : bool;
  skip_cubism : bool;
  skip_parameters : bool;
  skip_export : bool;
  character_image : option string;
  layer_dir : option string
}.

(** Truth value of an optional string: [None] and [""] are false. *)
Definition truthy (o : option string) : bool :=
  match o with
  | Some s => negb (bool_decide (s = ""))
  | None => false
  end.

(** The calls [main] makes into the stages. *)
Inductive stage_call :=
  | CharacterGenerate
  | Separate (character_path : string)
  | Automate (layers_dir : string)
  | ParametersGenerate (cubism_project : string)
  | Export (cubism_project : string).

(** The number of the stage a call belongs to, as [main] numbers its
    stages (1 character, 2 layers, 3 Cubism, 4 parameters, 5 export). *)
Definition stage_index (c : stage_call) : nat :=
  match c with
  | CharacterGenerate => 1
  | Separate _ => 2
  | Automate _ => 3
  | ParametersGenerate _ => 4
  | Export _ => 5
  end.

(** A run of [main]: the calls made so far and how it went on. *)
Definition run (A : Type) : Type := list stage_call * outcome A.

Definition run_ret {A : Type} (a : A) : run A := ([], Ok a).

Definition run_bind {A B : Type} (m : run A) (k : A → run B) : run B :=
  match m with
  | (calls, Ok a) => let '(calls', r) := k a in (calls ++ calls', r)
  | (calls, Raise e) => (calls, Raise e)
  | (calls, OutOfFuel) => (calls, OutOfFuel)
  end.

(** Calling a stage records the call. *)
Definition call {A : Type} (c : stage_call) (result : outcome A) : run A :=
  ([c], result).

Declare Scope run_scope.
Delimit Scope run_scope with run.
Notation "x <- m ;; k" := (run_bind m (λ x, k))
  (at level 100, m at next level, k at level 200, right associativity)
  : run_scope.

Section main.
(** The stages: [CharacterGenerator.generate], [LayerSeparator.separate],
    [CubismAutomation.automate], [ParametersGenerator.generate] and
    [ModelExporter.export], each returning or raising. *)
Context (character_generate : outcome string).
Context (separate : string → outcome string).
Context (automate : string → outcome string).
Context (parameters_generate : string → outcome bool).
Context (export : string → outcome string).

Definition main (a : args) : run unit :=
  (character_path <-
     (if negb (skip_character a) then
        if truthy (character_image a) then run_ret (character_image a)
        else p <- call CharacterGenerate character_generate ;;
             run_ret (Some p)
      else
        if truthy (character_image a) then run_ret (character_image a)
        else run_ret None) ;;
   layers_dir <-
     (if negb (skip_layer a) && truthy character_path then
        if truthy (layer_dir a) then run_ret (layer_dir a)
        else d <- call (Separate (default "" character_path))
                    (separate (default "" character_path)) ;;
             run_ret (Some d)
      else
        if truthy (layer_dir a) then run_ret (layer_dir a)
        else run_ret None) ;;
   cubism_project <-
     (if negb (skip_cubism a) && truthy layers_dir then
        p <- call (Automate (default "" layers_dir))
               (automate (default "" layers_dir)) ;;
        run_ret (Some p)
      else run_ret None) ;;
   _ <-
     (if negb (skip_parameters a) && truthy cubism_project then
        _ <- call (ParametersGenerate (default "" cubism_project))
               (parameters_generate (default "" cubism_project)) ;;
        run_ret tt
      else run_ret tt) ;;
   if negb (skip_export a) && truthy cubism_project then
     _ <- call (Export (default "" cubism_project))
            (export (default "" cubism_project)) ;;
     run_ret tt
   else run_ret tt)%run.
End main.

End Main.

(** * Properties *)

(** ** The stable sort *)

Section sorted_facts.
Context {A : Type} (key : A → Z) (reverse : bool).

Lemma key_le_total a b :
  key_le reverse a b = false → key_le reverse b a = true.
Proof. unfold key_le. destruct reverse; lia. Qed.

Lemma key_le_trans a b c :
  key_le reverse a b = true → key_le reverse b c = true →
  key_le reverse a c = true.
Proof. unfold key_le. destruct reverse; lia. Qed.

Lemma key_le_false_ne a b : key_le reverse a b = false → a ≠ b.
Proof. unfold key_le. destruct reverse; lia. Qed.

Lemma insert_sorted_perm x l : insert_sorted key reverse x l ≡ₚ x :: l.
Proof.
  induction l as [|y l IH]; simpl; [done|].
  destruct (key_le _ _ _); [done|].
  rewrite IH. apply Permutation_swap.
Qed.

Lemma sorted_perm l : sorted key reverse l ≡ₚ l.
Proof.
  induction l as [|x l IH]; simpl; [done|].
  by rewrite insert_sorted_perm, IH.
Qed.

Lemma insert_sorted_sorted x l :
  StronglySorted (le_key key reverse) l →
  StronglySorted (le_key key reverse) (insert_sorted key reverse x l).
Proof.
  induction 1 as [|y l Hl IH Hy]; simpl.
  - repeat constructor.
  - destruct (key_le _ (key x) (key y)) eqn:Hxy.
    + constructor; [by constructor|].
      constructor; [done|].
      eapply Forall_impl; [exact Hy|].
      intros z Hz. by eapply key_le_trans.
    + constructor; [done|].
      rewrite insert_sorted_perm. constructor; [|done].
      by apply key_le_total.
Qed.

Lemma sorted_sorted l :
  StronglySorted (le_key key reverse) (sorted key reverse l).
Proof.
  induction l as [|x l IH]; simpl; [constructor|].
  by apply insert_sorted_sorted.
Qed.

(** Insertion only moves past elements with a different key. *)
Lemma insert_sorted_filter k x l :
  filter (λ y, key y = k) (insert_sorted key reverse x l)
  = filter (λ y, key y = k) (x :: l).
Proof.
  induction l as [|y l IH]; simpl; [done|].
  destruct (key_le _ (key x) (key y)) eqn:Hxy; [done|].
  apply key_le_false_ne in Hxy.
  rewrite !filter_cons in *.
  destruct (decide (key y = k)), (decide (key x = k)); congruence.
Qed.

(** Stability: the elements of one key keep their input order. *)
Lemma sorted_stable k l :
  filter (λ y, key y = k) (sorted key reverse l)
  = filter (λ y, key y = k) l.
Proof.
  induction l as [|x l IH]; simpl; [done|].
  rewrite insert_sorted_filter, !filter_cons. by rewrite IH.
Qed.
Lemma key_le_refl a : key_le reverse a a = true.
Proof. unfold key_le. destruct reverse; lia. Qed.

Lemma key_le_antisym a b :
  key_le reverse a b = true → key_le reverse b a = true → a = b.
Proof. unfold key_le. destruct reverse; lia. Qed.

(** Two sorted lists that list the elements of every key in the same
    order are equal: what a stable sort returns is determined. *)
Lemma stable_sorted_unique l1 l2 :
  StronglySorted (le_key key reverse) l1 →
  StronglySorted (le_key key reverse) l2 →
  (∀ k, filter (λ y, key y = k) l1 = filter (λ y, key y = k) l2) →
  l1 = l2.
Proof.
  intros Hs1. revert l2.
  induction Hs1 as [|x l1 Hs1 IH Hx]; intros l2 Hs2 Hf.
  - destruct l2 as [|y l2]; [done|].
    specialize (Hf (key y)). by rewrite filter_cons, decide_True in Hf.
  - destruct Hs2 as [|y l2 Hs2 Hy].
    { specialize (Hf (key x)). by rewrite filter_cons, decide_True in Hf. }
    assert (Hxy : le_key key reverse x y).
    { assert (y ∈ x :: l1) as [->|Hin]%elem_of_cons.
      { eapply (list_elem_of_filter (λ z, key z = key y)).
        rewrite Hf, filter_cons, decide_True by done. apply list_elem_of_here. }
      - apply key_le_refl.
      - rewrite Forall_forall in Hx. by apply Hx. }
    assert (Hyx : le_key key reverse y x).
    { assert (x ∈ y :: l2) as [->|Hin]%elem_of_cons.
      { eapply (list_elem_of_filter (λ z, key z = key x)).
        rewrite <- Hf, filter_cons, decide_True by done.
        apply list_elem_of_here. }
      - apply key_le_refl.
      - rewrite Forall_forall in Hy. by apply Hy. }
    pose proof (key_le_antisym _ _ Hxy Hyx) as Hkey.
    pose proof (Hf (key x)) as Hfx.
    rewrite !filter_cons, decide_True, decide_True in Hfx by done.
    injection Hfx as -> Hfx. f_equal. apply IH; [done|].
    intros k. specialize (Hf k). rewrite !filter_cons in Hf.
    destruct (decide (key y = k)); [by injection Hf|done].
Qed.

Lemma sorted_unique l l' :
  StronglySorted (le_key key reverse) l' →
  (∀ k, filter (λ y, key y = k) l' = filter (λ y, key y = k) l) →
  l' = sorted key reverse l.
Proof.
  intros Hs Hf. apply stable_sorted_unique; [done|apply sorted_sorted|].
  intros k. by rewrite sorted_stable.
Qed.
End sorted_facts.

(** ** Order in lists *)

Section order.
Context {A : Type}.

Lemma StronglySorted_lookup_lt (R : relation A) (l : list A) i j a b :
  StronglySorted R l → l !! i = Some a → l !! j = Some b →
  (i < j)%nat → R a b.
Proof.
  intros Hl. revert i j. induction Hl as [|x l Hl IH Hx]; intros i j.
  - by rewrite lookup_nil.
  - destruct i as [|i], j as [|j]; simpl; intros Hi Hj Hij; try lia.
    + injection Hi as ->. rewrite Forall_forall in Hx.
      apply Hx. by eapply list_elem_of_lookup_2.
    + eapply IH; eauto with lia.
Qed.

Lemma filter_sublist_mono (P : A → Prop) `{!∀ x, Decision (P x)}
    (l1 l2 : list A) :
  l1 `sublist_of` l2 → filter P l1 `sublist_of` filter P l2.
Proof.
  induction 1 as [|x l1 l2 _ IH|x l1 l2 _ IH]; [done| |].
  - rewrite !filter_cons. destruct (decide (P x)); [by constructor|done].
  - rewrite filter_cons. destruct (decide (P x)); [by constructor|done].
Qed.

Lemma sublist_pair_lookup (l : list A) a b :
  [a; b] `sublist_of` l ↔
  ∃ i j, l !! i = Some a ∧ l !! j = Some b ∧ (i < j)%nat.
Proof.
  split.
  - induction l as [|x l IH]; [by inversion 1|].
    inversion 1 as [|? ? ? Hs|? ? ? Hs]; subst.
    + apply sublist_cons_l in Hs as (k1 & k2 & -> & _).
      exists 0%nat, (S (length k1)). split_and!; [done| |lia].
      simpl. by rewrite list_lookup_middle.
    + destruct (IH Hs) as (i & j & ? & ? & ?).
      exists (S i), (S j). split_and!; [done..|lia].
  - intros (i & j & Hi & Hj & Hij).
    apply list_elem_of_split_length in Hi as (l1 & l2 & -> & ->).
    rewrite lookup_app_r in Hj by lia.
    destruct (j - length l1)%nat as [|n] eqn:E; [lia|]. simpl in Hj.
    apply sublist_inserts_l. constructor.
    apply list_elem_of_lookup_2 in Hj.
    apply list_elem_of_split in Hj as (k1 & k2 & ->).
    apply sublist_inserts_l. constructor. apply sublist_nil_l.
Qed.
End order.

(** ** Dicts *)

Section dict_facts.
Context {V : Type}.
Implicit Types d : list (string * V).

Lemma dict_get_Some_keys k d : is_Some (dict_get k d) ↔ k ∈ dict_keys d.
Proof.
  unfold dict_keys. induction d as [|[k' v'] d IH]; csimpl.
  - split; [by intros [? ?]|by intros ?%elem_of_nil].
  - rewrite elem_of_cons. destruct (decide (k' = k)) as [->|Hne].
    + split; eauto.
    + rewrite IH. split; [by right|by intros [?|?]].
Qed.

Lemma dict_keys_set k v d :
  dict_keys (dict_set k v d)
  = if decide (k ∈ dict_keys d) then dict_keys d else dict_keys d ++ [k].
Proof.
  unfold dict_keys. induction d as [|[k' v'] d IH]; csimpl; [done|].
  destruct (decide (k' = k)) as [->|Hne]; csimpl.
  - rewrite decide_True by apply list_elem_of_here. done.
  - rewrite IH. destruct (decide (k ∈ d.*1)).
    + rewrite decide_True by by apply list_elem_of_further. done.
    + rewrite decide_False; [done|]. rewrite elem_of_cons.
      by intros [->|?].
Qed.

Lemma dict_set_elem k v d k' :
  k' ∈ dict_keys (dict_set k v d) ↔ k' = k ∨ k' ∈ dict_keys d.
Proof.
  rewrite dict_keys_set. destruct (decide (k ∈ dict_keys d)).
  - split; [by right|]. by intros [->|?].
  - rewrite elem_of_app, list_elem_of_singleton. tauto.
Qed.

Lemma dict_set_NoDup k v d :
  NoDup (dict_keys d) → NoDup (dict_keys (dict_set k v d)).
Proof.
  intros Hd. rewrite dict_keys_set.
  destruct (decide (k ∈ dict_keys d)); [done|].
  apply NoDup_app. split_and!; [done| |apply NoDup_singleton].
  intros x ? ->%list_elem_of_singleton. done.
Qed.

(** Reading back every key of a list of present keys loses none. *)
Lemma omap_dict_get_keys d (ps : list string) :
  (∀ p, p ∈ ps → p ∈ dict_keys d) →
  (omap (λ p, (λ v, (p, v)) <$> dict_get p d) ps).*1 = ps.
Proof.
  induction ps as [|p ps IH]; intros Hps; csimpl; [done|].
  destruct (proj2 (dict_get_Some_keys p d)) as [v Hv].
  { apply Hps, list_elem_of_here. }
  rewrite Hv. simpl. f_equal. apply IH.
  intros q Hq. by apply Hps, list_elem_of_further.
Qed.

Lemma omap_dict_get_elem d (ps : list string) p v :
  (p, v) ∈ omap (λ p, (λ v, (p, v)) <$> dict_get p d) ps →
  dict_get p d = Some v.
Proof.
  rewrite list_elem_of_omap. intros (q & _ & Hq).
  destruct (dict_get q d) eqn:E; simpl in Hq; [|done].
  by injection Hq as -> ->.
Qed.
End dict_facts.

(** ** Layer order (C1) *)

Import LayerSeparator.

Lemma ranked_below_sentinel p :
  is_Some (part_hierarchy !! p) → (0 ≤ rankOf p ≤ 14)%Z.
Proof.
  intros [r Hr]. unfold rankOf. rewrite Hr. simpl.
  apply elem_of_list_to_map_2 in Hr.
  repeat (apply elem_of_cons in Hr as [Hr|Hr]; [injection Hr as -> ->; lia|]).
  by apply elem_of_nil in Hr.
Qed.

Lemma unranked_sentinel p : part_hierarchy !! p = None → rankOf p = 999%Z.
Proof. intros Hp. unfold rankOf. by rewrite Hp. Qed.

Section io_facts.
Context {A B : Type}.
Implicit Types (m : io A) (k : A → io B).

Lemma io_bind_effects m k :
  (io_bind m k).1
  = m.1 ++ match m.2 with Ok a => (k a).1 | _ => [] end.
Proof.
  destruct m as [effects [a|e|]]; simpl; [|by rewrite app_nil_r..].
  by destruct (k a).
Qed.

Lemma io_bind_result m k :
  (io_bind m k).2
  = match m.2 with
    | Ok a => (k a).2
    | Raise e => Raise e
    | OutOfFuel => OutOfFuel
    end.
Proof.
  destruct m as [effects [a|e|]]; simpl; [|done..]. by destruct (k a).
Qed.

Lemma io_bind_Ok m k effects a :
  m = (effects, Ok a) →
  io_bind m k = (effects ++ (k a).1, (k a).2).
Proof. intros ->. simpl. by destruct (k a). Qed.
End io_facts.

Lemma except_ImportError_effects (m : io unit) :
  (except_ImportError m).1 = m.1.
Proof. by destruct m as [effects [[]|[]|]]. Qed.

Lemma except_ImportError_result (m : io unit) :
  (except_ImportError m).2
  = match m.2 with
    | Raise ImportError => Ok tt
    | r => r
    end.
Proof. by destruct m as [effects [[]|[]|]]. Qed.

Lemma psd_stack_app (l k : list effect) :
  psd_stack (l ++ k) = psd_stack l ++ psd_stack k.
Proof. apply omap_app. Qed.

Lemma saved_parts_app (l k : list effect) :
  saved_parts (l ++ k) = saved_parts l ++ saved_parts k.
Proof. apply omap_app. Qed.

(** The loop of [_create_psd] makes its calls for a prefix of the parts
    it is given, each with the image the dict holds for the part; when
    the library returns on every call it gets through them all. *)
Lemma create_layers_run (ext : externals) (layers : list (string * image))
    (parts_in_order : list string) :
  (∀ p, p ∈ parts_in_order → p ∈ dict_keys layers) →
  ∃ stack,
    (create_layers ext layers parts_in_order).1
    = (λ l, PsdCreateLayer l.1 l.2) <$> stack ∧
    stack.*1 `prefix_of` parts_in_order ∧
    (∀ p img, (p, img) ∈ stack → dict_get p layers = Some img) ∧
    ((create_layers ext layers parts_in_order).2 = Ok tt →
     stack.*1 = parts_in_order) ∧
    ((∀ p img, create_layer ext p img = Ok tt) →
     (create_layers ext layers parts_in_order).2 = Ok tt).
Proof.
  induction parts_in_order as [|p ps IH]; intros Hkeys.
  { exists []. split_and!;
      [done|apply prefix_nil|by intros ?? ?%elem_of_nil|done|done]. }
  destruct (proj2 (dict_get_Some_keys p layers)) as [img Himg];
    [apply Hkeys, list_elem_of_here|].
  destruct IH as (stack & Heff & Hpre & Hget & Hall & Hret).
  { intros q Hq. apply Hkeys. by apply list_elem_of_further. }
  cbn [create_layers]. rewrite Himg.
  destruct (create_layer ext p img) as [[]|e|] eqn:Hcall.
  - exists ((p, img) :: stack).
    rewrite io_bind_effects, io_bind_result. cbn [perform fst snd].
    rewrite Heff. split_and!.
    + done.
    + csimpl. by apply prefix_cons.
    + intros q i [[= -> ->]|Hin]%elem_of_cons; [done|by apply Hget].
    + intros Hok. csimpl. f_equal. by apply Hall.
    + intros Hlib. by apply Hret.
  - exists [(p, img)].
    rewrite io_bind_effects, io_bind_result. cbn [perform fst snd].
    split_and!; try done.
    + csimpl. apply prefix_cons, prefix_nil.
    + by intros q i [= -> ->]%list_elem_of_singleton.
    + intros Hlib. by rewrite Hlib in Hcall.
  - exists [(p, img)].
    rewrite io_bind_effects, io_bind_result. cbn [perform fst snd].
    split_and!; try done.
    + csimpl. apply prefix_cons, prefix_nil.
    + by intros q i [= -> ->]%list_elem_of_singleton.
    + intros Hlib. by rewrite Hlib in Hcall.
Qed.

Lemma psd_stack_create (stack : list (string * image)) :
  psd_stack ((λ l, PsdCreateLayer l.1 l.2) <$> stack) = stack.
Proof.
  induction stack as [|[p img] stack IH]; [done|].
  unfold psd_stack in *. csimpl. by rewrite IH.
Qed.

(** The calls of [_create_psd]: nothing, or [PSDImage.new] followed by
    [create_layer] calls for a prefix of the sorted parts and, after the
    last of them, the save. *)
Lemma create_psd_run (ext : externals) (layers : list (string * image)) :
  ∃ stack,
    psd_stack (_create_psd ext layers).1 = stack ∧
    saved_parts (_create_psd ext layers).1 = [] ∧
    stack.*1 `prefix_of` ordered_parts layers ∧
    (∀ p img, (p, img) ∈ stack → dict_get p layers = Some img) ∧
    (psd_tools ext = true → layers ≠ [] →
     (∀ w h, PSDImage_new ext w h = Ok tt) →
     (∀ p img, create_layer ext p img = Ok tt) →
     stack.*1 = ordered_parts layers ∧
     (_create_psd ext layers).2
     = match psd_save ext with
       | Raise ImportError => Ok tt
       | r => r
       end).
Proof.
  unfold _create_psd.
  rewrite !except_ImportError_effects, except_ImportError_result.
  destruct (psd_tools ext).
  2:{ exists []. split_and!;
        [done|done|apply prefix_nil|by intros ?? ?%elem_of_nil|done]. }
  destruct layers as [|[p0 first_image] layers'].
  { exists []. split_and!;
      [done|done|apply prefix_nil|by intros ?? ?%elem_of_nil|done]. }
  set (layers := (p0, first_image) :: layers').
  destruct (create_layers_run ext layers (ordered_parts layers))
    as (stack & Heff & Hpre & Hget & Hall & Hret).
  { intros p Hp. unfold ordered_parts in Hp. by rewrite sorted_perm in Hp. }
  rewrite !io_bind_effects, !io_bind_result. cbn [perform fst snd].
  destruct (PSDImage_new ext (width first_image) (height first_image))
    as [[]|e|] eqn:Hnew.
  - rewrite Heff.
    destruct ((create_layers ext layers (ordered_parts layers)).2)
      as [[]|e|] eqn:Hloop.
    + exists stack. cbn [perform fst snd]. split_and!; try done.
      * rewrite (psd_stack_app [_]), psd_stack_app, psd_stack_create.
        by rewrite app_nil_r.
      * rewrite (saved_parts_app [_]), saved_parts_app.
        unfold saved_parts at 2 3. rewrite app_nil_r. simpl.
        clear. induction stack as [|[] ? IH]; [done|].
        unfold saved_parts in *. by csimpl.
      * intros _ _ _ _. split; [by apply Hall|].
        by destruct (psd_save ext) as [[]|[]|].
    + exists stack. split_and!; try done.
      * rewrite (psd_stack_app [_]), psd_stack_app, psd_stack_create.
        by rewrite app_nil_r.
      * rewrite (saved_parts_app [_]), saved_parts_app.
        unfold saved_parts at 2 3. rewrite app_nil_r. simpl.
        clear. induction stack as [|[] ? IH]; [done|].
        unfold saved_parts in *. by csimpl.
      * intros _ _ _ Hlib. specialize (Hret Hlib). by rewrite Hret in Hloop.
    + exists stack. split_and!; try done.
      * rewrite (psd_stack_app [_]), psd_stack_app, psd_stack_create.
        by rewrite app_nil_r.
      * rewrite (saved_parts_app [_]), saved_parts_app.
        unfold saved_parts at 2 3. rewrite app_nil_r. simpl.
        clear. induction stack as [|[] ? IH]; [done|].
        unfold saved_parts in *. by csimpl.
      * intros _ _ _ Hlib. specialize (Hret Hlib). by rewrite Hret in Hloop.
  - exists []. split_and!;
      [done|done|apply prefix_nil|by intros ?? ?%elem_of_nil|].
    intros _ _ Hlib. by rewrite Hlib in Hnew.
  - exists []. split_and!;
      [done|done|apply prefix_nil|by intros ?? ?%elem_of_nil|].
    intros _ _ Hlib. by rewrite Hlib in Hnew.
Qed.

(** C1.  The layers [_create_psd] hands to the PSD library are taken
    from the dict in the order of the sorted part names, whatever the
    library does: of two parts in the stack the one of strictly lower
    rank comes first; a part that is not in the hierarchy table has rank
    999 and comes after every part that is; the sort keeps parts of
    equal rank in the order in which the dict lists them.  When the
    library returns on every call, the stack holds every part of the
    dict. *)
Theorem C1_layer_stack_order (ext : externals)
    (layers : list (string * image)) :
  let stack := psd_stack (_create_psd ext layers).1 in
  (stack.*1 `prefix_of` ordered_parts layers ∧
   ordered_parts layers ≡ₚ dict_keys layers ∧
   (∀ p img, (p, img) ∈ stack → dict_get p layers = Some img)) ∧
  (∀ i j A B,
      stack.*1 !! i = Some A → stack.*1 !! j = Some B →
      (rankOf A < rankOf B)%Z → (i < j)%nat) ∧
  (∀ i j A B,
      stack.*1 !! i = Some A → stack.*1 !! j = Some B →
      part_hierarchy !! A = None → is_Some (part_hierarchy !! B) →
      rankOf A = 999%Z ∧ (rankOf B < rankOf A)%Z ∧ (j < i)%nat) ∧
  (∀ A B,
      rankOf A = rankOf B →
      [A; B] `sublist_of` dict_keys layers →
      [A; B] `sublist_of` ordered_parts layers) ∧
  (psd_tools ext = true → layers ≠ [] →
   (∀ w h, PSDImage_new ext w h = Ok tt) →
   (∀ p img, create_layer ext p img = Ok tt) →
   psd_save ext = Ok tt →
   (_create_psd ext layers).2 = Ok tt ∧
   stack.*1 = ordered_parts layers).
Proof.
  intros stack.
  destruct (create_psd_run ext layers)
    as (stack' & Hstack & _ & Hpre & Hget & Hall).
  fold stack in Hstack. subst stack'.
  assert (Hlookup : ∀ i A,
    stack.*1 !! i = Some A → ordered_parts layers !! i = Some A).
  { intros i A Hi. by eapply prefix_lookup_Some. }
  assert (Hord : ∀ i j A B,
    stack.*1 !! i = Some A → stack.*1 !! j = Some B →
    (rankOf A < rankOf B)%Z → (i < j)%nat).
  { intros i j A B Hi%Hlookup Hj%Hlookup Hlt.
    destruct (decide (i < j)%nat) as [|Hge]; [done|]. exfalso.
    destruct (decide (i = j)) as [->|Hij].
    - rewrite Hi in Hj. injection Hj as ->. lia.
    - pose proof (StronglySorted_lookup_lt _ _ j i B A
        (sorted_sorted rankOf false (dict_keys layers)) Hj Hi) as H.
      unfold le_key, key_le in H. lia. }
  split_and!.
  - exact Hpre.
  - apply sorted_perm.
  - exact Hget.
  - exact Hord.
  - intros i j A B Hi Hj HA HB.
    pose proof (unranked_sentinel A HA).
    pose proof (ranked_below_sentinel B HB).
    split_and!; [done|lia|]. eapply Hord; eauto. lia.
  - intros A B Hrank Hsub. unfold ordered_parts.
    apply (filter_sublist_mono (λ y, rankOf y = rankOf A)) in Hsub.
    rewrite !filter_cons, decide_True, decide_True in Hsub by done.
    rewrite filter_nil in Hsub.
    rewrite <- (sorted_stable rankOf false _ (dict_keys layers)) in Hsub.
    etrans; [exact Hsub|]. apply sublist_filter.
  - intros Hlib Hne Hnew Hcreate Hsave.
    destruct (Hall Hlib Hne Hnew Hcreate) as [Hfull Hres].
    split; [|exact Hfull]. by rewrite Hres, Hsave.
Qed.

(** The library returns on every call; three layers in the order
    hair_back, face, eyebrows. *)
Lemma C1_layer_stack_order_witness :
  let ext := {| sam_predictor := true; _load_model := Ok tt;
                mkdir := Ok tt; _remove_background := λ _, Ok [];
                save := λ _ _, Ok tt; psd_tools := true;
                PSDImage_new := λ _ _, Ok tt;
                create_layer := λ _ _, Ok tt; psd_save := Ok tt;
                output_subdir := "layers" |} in
  let layers : list (string * image) :=
    [("eyebrows", []); ("face", []); ("hair_back", [])] in
  (_create_psd ext layers).2 = Ok tt ∧
  (psd_stack (_create_psd ext layers).1).*1
  = ["hair_back"; "face"; "eyebrows"].
Proof.
  intros ext layers.
  destruct (C1_layer_stack_order ext layers) as (_ & _ & _ & _ & Hfull).
  destruct Hfull as [Hres Hstack]; [done..|].
  split; [exact Hres|]. rewrite Hstack. reflexivity.
Defined.

(** ** Mask selection (C10) *)

Lemma selected_mask_spec (masks : list mask) :
  masks ≠ [] →
  ∃ m, selected_mask masks = Some m ∧
       m ∈ masks ∧
       (∀ m', m' ∈ masks → (mask_sum m' ≤ mask_sum m)%Z) ∧
       head (filter (λ m', mask_sum m' = mask_sum m) masks) = Some m.
Proof.
  intros Hne. unfold selected_mask.
  pose proof (sorted_perm mask_sum true masks) as Hperm.
  pose proof (sorted_sorted mask_sum true masks) as Hsorted.
  pose proof (λ k, sorted_stable mask_sum true k masks) as Hstable.
  destruct (sorted mask_sum true masks) as [|m rest].
  { apply Permutation_nil_l in Hperm. done. }
  exists m. split_and!; [done| | |].
  - rewrite <- Hperm. apply list_elem_of_here.
  - intros m'. rewrite <- Hperm. intros [->|Hm']%elem_of_cons; [lia|].
    apply StronglySorted_inv in Hsorted as [_ Hall].
    rewrite Forall_forall in Hall. specialize (Hall m' Hm').
    unfold le_key, key_le in Hall. lia.
  - rewrite <- Hstable, filter_cons, decide_True by done. done.
Qed.

Lemma apply_mask_lookup (np_image : image) (m : mask) y x row px :
  np_image !! y = Some row → row !! x = Some px →
  length (apply_mask np_image m) = length np_image ∧
  ∃ row',
    apply_mask np_image m !! y = Some row' ∧
    length row' = length row ∧
    row' !! x = Some (if mask_at m y x
                      then let '(r, g, b, _) := px in (r, g, b, 255%Z)
                      else (0, 0, 0, 0)%Z).
Proof.
  unfold apply_mask, image, pixel in *. intros Hy Hx.
  split; [apply length_imap|].
  eexists. split; [by rewrite list_lookup_imap, Hy|].
  split; [apply length_imap|]. by rewrite list_lookup_imap, Hx.
Qed.

Lemma putalpha_lookup (img : image) (alpha : list (list Z)) y x row px :
  img !! y = Some row → row !! x = Some px →
  length (putalpha img alpha) = length img ∧
  ∃ row',
    putalpha img alpha !! y = Some row' ∧
    length row' = length row ∧
    row' !! x = Some (let '(r, g, b, a) := px in
                      (r, g, b, default a (alpha !! y ≫= λ arow, arow !! x))).
Proof.
  unfold putalpha, image, pixel in *. intros Hy Hx.
  split; [apply length_imap|].
  eexists. split; [by rewrite list_lookup_imap, Hy|].
  split; [apply length_imap|]. by rewrite list_lookup_imap, Hx.
Qed.

Lemma alpha_channel_lookup (img : image) y x row px :
  img !! y = Some row → row !! x = Some px →
  alpha_channel img !! y ≫= (λ arow, arow !! x) = Some px.2.
Proof.
  unfold alpha_channel, image, pixel in *. intros Hy Hx.
  change (map ?f ?l) with (f <$> l).
  rewrite list_lookup_fmap, Hy. simpl.
  change (map ?f ?l) with (f <$> l).
  by rewrite list_lookup_fmap, Hx.
Qed.

(** C10.  When a part has candidate masks, the emitted layer is built
    from one of them: the head of the candidates sorted by area, largest
    first.  Its area is maximal among the candidates and it is the first
    candidate of that area in generation order; it need not be the first
    candidate.  The layer has the shape of the image; a pixel under the
    selected mask is the source pixel made opaque, every other pixel is
    transparent black; with [refine_edges] the alpha of each pixel is
    then replaced by the blur of that alpha channel (255 under the mask,
    0 elsewhere). *)
Theorem C10_largest_candidate_selected
    (_segment_with_sam : image → string → list mask)
    (GaussianBlur : list (list Z) → list (list Z))
    (cfg : layers_config) (np_image : image) (part_name : string) :
  let masks := candidate_masks _segment_with_sam cfg np_image part_name in
  masks ≠ [] →
  (∃ m layer alpha,
      head (sorted mask_sum true masks) = Some m ∧
      m ∈ masks ∧
      (∀ m', m' ∈ masks → (mask_sum m' ≤ mask_sum m)%Z) ∧
      head (filter (λ m', mask_sum m' = mask_sum m) masks) = Some m ∧
      _segment_part _segment_with_sam GaussianBlur cfg np_image part_name
      = Some layer ∧
      length layer = height np_image ∧
      ∀ y x row px,
        np_image !! y = Some row → row !! x = Some px →
        let composite :=
          if mask_at m y x
          then let '(r, g, b, _) := px in (r, g, b, 255%Z)
          else (0, 0, 0, 0)%Z in
        alpha !! y ≫= (λ arow, arow !! x)
        = Some (if mask_at m y x then 255%Z else 0%Z) ∧
        ∃ row',
          layer !! y = Some row' ∧ length row' = length row ∧
          row' !! x
          = Some (if refine_edges cfg
                  then let '(r, g, b, a) := composite in
                       (r, g, b,
                        default a (GaussianBlur alpha !! y
                                     ≫= λ arow, arow !! x))
                  else composite)) ∧
  selected_mask [ [[false; true]]; [[true; true]]; [[true; false]] ]
  = Some [[true; true]].
Proof.
  intros masks Hne. split; [|reflexivity].
  destruct (selected_mask_spec masks Hne) as (m & Hsel & Hin & Hmax & Hfirst).
  pose (composite := apply_mask np_image m).
  exists m,
    (if refine_edges cfg
     then putalpha composite (GaussianBlur (alpha_channel composite))
     else composite),
    (alpha_channel composite).
  split_and!; [done..| | |].
  - unfold _segment_part. fold masks. by rewrite Hsel.
  - unfold height, composite, putalpha, apply_mask, image, pixel.
    destruct (refine_edges cfg); by rewrite !length_imap.
  - intros y x row px Hy Hx.
    destruct (apply_mask_lookup np_image m y x row px Hy Hx)
      as (_ & row1 & Hy1 & Hlen1 & Hx1).
    fold composite in Hy1. split.
    + rewrite (alpha_channel_lookup composite y x row1 _ Hy1 Hx1).
      by destruct (mask_at m y x), px as [[[? ?] ?] ?].
    + destruct (refine_edges cfg).
      * destruct (putalpha_lookup composite
                    (GaussianBlur (alpha_channel composite))
                    y x row1 _ Hy1 Hx1) as (_ & row2 & Hy2 & Hlen2 & Hx2).
        exists row2. split; [done|]. split; [congruence|]. exact Hx2.
      * exists row1. by split_and!.
Qed.

(** Three SAM candidates of areas 1, 2 and 1 on an image of one row:
    the second is taken, and the layer keeps the two pixels under it,
    made opaque, and blanks the third. *)
Lemma C10_largest_candidate_selected_witness :
  let sam : image → string → list mask :=
    λ _ _, [ [[false; true; false]]; [[true; true; false]];
             [[false; false; true]] ] in
  let cfg := {| segmentation_model := "segment_anything";
                refine_edges := false; parts := ["face"];
                fill_background := false;
                background_color := (0, 0, 0, 0)%Z;
                export_psd := true |} in
  let np_image : image := [[(1, 2, 3, 77); (4, 5, 6, 88); (7, 8, 9, 99)]]%Z in
  candidate_masks sam cfg np_image "face" ≠ [] ∧
  _segment_part sam (λ a, a) cfg np_image "face"
  = Some [[(1, 2, 3, 255); (4, 5, 6, 255); (0, 0, 0, 0)]]%Z.
Proof.
  intros sam cfg np_image.
  assert (Hne : candidate_masks sam cfg np_image "face" ≠ []) by done.
  split; [exact Hne|].
  destruct (C10_largest_candidate_selected sam (λ a, a) cfg np_image
              "face" Hne)
    as [(m & layer & alpha & _ & _ & _ & _ & Hpart & _) _].
  rewrite Hpart. vm_compute in Hpart. by injection Hpart as <-.
Defined.

(** ** Parts with an empty mask, parts without a mask (C9) *)

Lemma mask_sum_zero_at (m : mask) y x :
  mask_sum m = 0%Z → mask_at m y x = false.
Proof.
  unfold mask_sum, mask_at. intros Hsum.
  destruct (m !! y) as [row|] eqn:Hy; simpl; [|done].
  destruct (row !! x) as [b|] eqn:Hx; simpl; [|done].
  destruct b; [|done]. exfalso.
  assert (Hin : true ∈ filter (λ b : bool, Is_true b) (concat m)).
  { apply list_elem_of_filter. split; [done|].
    apply list_elem_of_In, in_concat. exists row.
    split; apply list_elem_of_In; eauto using list_elem_of_lookup_2. }
  destruct (filter _ (concat m)); [by apply elem_of_nil in Hin|].
  simpl in Hsum. lia.
Qed.

Lemma apply_mask_empty (np_image : image) (m : mask) :
  mask_sum m = 0%Z →
  apply_mask np_image m = map (map (λ _, (0, 0, 0, 0)%Z)) np_image.
Proof.
  intros Hsum. unfold apply_mask.
  rewrite <- (imap_const (map (λ _, (0, 0, 0, 0)%Z))).
  apply imap_ext. intros y row _. simpl.
  rewrite <- (imap_const (λ _ : pixel, (0, 0, 0, 0)%Z)).
  apply imap_ext. intros x p _. simpl.
  by rewrite mask_sum_zero_at.
Qed.

Section separate_facts.
Context (_segment_with_sam : image → string → list mask).
Context (GaussianBlur : list (list Z) → list (list Z)).
Context (cfg : layers_config).

Lemma segment_loop_keys (img : image) (ps : list string)
    (acc : list (string * image)) p :
  p ∈ dict_keys
        (foldl (λ layers part_name,
                  match _segment_part _segment_with_sam GaussianBlur cfg
                          img part_name with
                  | Some segmented_part =>
                      dict_set part_name segmented_part layers
                  | None => layers
                  end) acc ps)
  ↔ p ∈ dict_keys acc ∨
    (p ∈ ps ∧
     is_Some (_segment_part _segment_with_sam GaussianBlur cfg img p)).
Proof.
  revert acc. induction ps as [|q ps IH]; intros acc; simpl.
  - rewrite elem_of_nil. tauto.
  - rewrite IH, elem_of_cons.
    destruct (_segment_part _segment_with_sam GaussianBlur cfg img q)
      as [v|] eqn:Hq.
    + rewrite dict_set_elem. split.
      * intros [[->|?]|[? ?]]; [right|by left|by right; split; [right|]].
        split; [by left|]. by rewrite Hq.
      * intros [?|[[->|?] ?]];
          [by left; right|by left; left|by right; split].
    + split.
      * intros [?|[? ?]]; [by left|by right; split; [right|]].
      * intros [?|[[->|?] Hs]]; [by left| |by right; split].
        rewrite Hq in Hs. by destruct Hs.
Qed.

Lemma segment_parts_keys (img : image) p :
  p ∈ dict_keys (segment_parts _segment_with_sam GaussianBlur cfg img)
  ↔ p ∈ parts cfg ∧
    is_Some (_segment_part _segment_with_sam GaussianBlur cfg img p).
Proof.
  unfold segment_parts. rewrite segment_loop_keys.
  unfold dict_keys. simpl. rewrite elem_of_nil. tauto.
Qed.

Lemma segment_part_Some (img : image) p :
  is_Some (_segment_part _segment_with_sam GaussianBlur cfg img p)
  ↔ candidate_masks _segment_with_sam cfg img p ≠ [].
Proof.
  unfold _segment_part. split.
  - intros Hs Hnil. rewrite Hnil in Hs. by destruct Hs.
  - intros Hne.
    destruct (selected_mask_spec _ Hne) as (m & -> & _). eauto.
Qed.
End separate_facts.

Section dict_round_trip.
Context {V : Type}.
Implicit Types d : list (string * V).

Lemma dict_get_set_eq k v d : dict_get k (dict_set k v d) = Some v.
Proof.
  induction d as [|[k' v'] d IH]; simpl.
  - by rewrite decide_True.
  - destruct (decide (k' = k)) as [->|Hne]; simpl.
    + by rewrite decide_True.
    + by rewrite decide_False.
Qed.

Lemma dict_get_set_ne k k' v d :
  k ≠ k' → dict_get k' (dict_set k v d) = dict_get k' d.
Proof.
  intros Hne. induction d as [|[k1 v1] d IH]; simpl.
  - by rewrite decide_False.
  - destruct (decide (k1 = k)) as [->|Hne1]; simpl.
    + by rewrite !decide_False.
    + destruct (decide (k1 = k')); [done|exact IH].
Qed.
End dict_round_trip.

Section separate_run.
Context (_segment_with_sam : image → string → list mask).
Context (GaussianBlur : list (list Z) → list (list Z)).
Context (cfg : layers_config) (ext : externals).

(** The part images [separate] writes when every write succeeds: one
    for each requested part that was segmented, in request order. *)
Lemma segment_loop_run (img : image) (ps : list string)
    (acc : list (string * image)) :
  (∀ file_name i, save ext file_name i = Ok tt) →
  segment_loop _segment_with_sam GaussianBlur cfg ext img ps acc
  = ((λ l, SavePart l.1 l.2)
       <$> omap (λ p, (λ l, (p, l))
                        <$> _segment_part _segment_with_sam GaussianBlur
                              cfg img p) ps,
     Ok (foldl (λ layers part_name,
                  match _segment_part _segment_with_sam GaussianBlur cfg
                          img part_name with
                  | Some segmented_part =>
                      dict_set part_name segmented_part layers
                  | None => layers
                  end) acc ps)).
Proof.
  intros Hsave. revert acc. induction ps as [|p ps IH]; intros acc; [done|].
  cbn [segment_loop]. csimpl.
  destruct (_segment_part _segment_with_sam GaussianBlur cfg img p)
    as [l|]; csimpl; [|apply IH].
  rewrite Hsave. unfold perform. cbn [io_bind]. by rewrite IH.
Qed.

(** The run of [separate] when the model load (if any), the making of
    the directory, the background removal and every file write succeed:
    what happens then is up to [_create_psd]. *)
Lemma separate_run (image_path : string) (no_bg_image : image) :
  (sam_predictor ext = false → _load_model ext = Ok tt) →
  mkdir ext = Ok tt →
  _remove_background ext image_path = Ok no_bg_image →
  (∀ file_name i, save ext file_name i = Ok tt) →
  let layers :=
    segment_parts _segment_with_sam GaussianBlur cfg no_bg_image in
  let bg_image := new_image no_bg_image (background_color cfg) in
  let all_layers :=
    if fill_background cfg then dict_set "background" bg_image layers
    else layers in
  let written :=
    (if sam_predictor ext then [] else [LoadModel])
    ++ [MakeOutputDir; RemoveBackground image_path;
        SaveNoBackground no_bg_image]
    ++ ((λ l, SavePart l.1 l.2)
          <$> omap (λ p, (λ l, (p, l))
                           <$> _segment_part _segment_with_sam GaussianBlur
                                 cfg no_bg_image p) (parts cfg))
    ++ (if fill_background cfg then [SaveBackground bg_image] else []) in
  separate _segment_with_sam GaussianBlur cfg ext image_path
  = if export_psd cfg
    then (written ++ (_create_psd ext all_layers).1,
          match (_create_psd ext all_layers).2 with
          | Ok _ => Ok (output_subdir ext)
          | Raise e => Raise e
          | OutOfFuel => OutOfFuel
          end)
    else (written, Ok (output_subdir ext)).
Proof.
  intros Hload Hmkdir Hrm Hsave layers bg_image all_layers written.
  unfold separate.
  assert ((if sam_predictor ext then io_ret tt
           else perform LoadModel (_load_model ext))
          = (if sam_predictor ext then [] else [LoadModel], Ok tt)) as ->.
  { destruct (sam_predictor ext); [done|]. by rewrite Hload. }
  unfold perform, io_ret. rewrite Hmkdir, Hrm. cbn [io_bind].
  rewrite Hsave, segment_loop_run by done. cbn [io_bind].
  fold (segment_parts _segment_with_sam GaussianBlur cfg no_bg_image).
  fold layers bg_image. unfold written, all_layers.
  destruct (fill_background cfg), (export_psd cfg);
    rewrite ?Hsave; cbn [io_bind];
    try destruct (_create_psd ext _) as [effects [[]|e|]];
    cbn [io_bind fst snd]; rewrite ?app_nil_r, <- ?app_assoc;
    by destruct (sam_predictor ext).
Qed.

Lemma saved_parts_save (stack : list (string * image)) :
  saved_parts ((λ l, SavePart l.1 l.2) <$> stack) = stack.
Proof.
  induction stack as [|[p img] stack IH]; [done|].
  unfold saved_parts in *. csimpl. by rewrite IH.
Qed.

Lemma psd_stack_save (stack : list (string * image)) :
  psd_stack ((λ l, SavePart l.1 l.2) <$> stack) = [].
Proof.
  induction stack as [|[p img] stack IH]; [done|].
  unfold psd_stack in *. by csimpl.
Qed.

(** What the successful run writes and hands to the PSD library. *)
Lemma separate_run_layers (image_path : string) (no_bg_image : image) :
  (sam_predictor ext = false → _load_model ext = Ok tt) →
  mkdir ext = Ok tt →
  _remove_background ext image_path = Ok no_bg_image →
  (∀ file_name i, save ext file_name i = Ok tt) →
  let run := separate _segment_with_sam GaussianBlur cfg ext image_path in
  let all_layers :=
    if fill_background cfg
    then dict_set "background"
           (new_image no_bg_image (background_color cfg))
           (segment_parts _segment_with_sam GaussianBlur cfg no_bg_image)
    else segment_parts _segment_with_sam GaussianBlur cfg no_bg_image in
  saved_parts run.1
  = omap (λ p, (λ l, (p, l))
                 <$> _segment_part _segment_with_sam GaussianBlur cfg
                       no_bg_image p) (parts cfg) ∧
  psd_stack run.1
  = (if export_psd cfg then psd_stack (_create_psd ext all_layers).1
     else []) ∧
  (export_psd cfg = false → run.2 = Ok (output_subdir ext)).
Proof.
  intros Hload Hmkdir Hrm Hsave run all_layers. unfold run.
  rewrite (separate_run image_path no_bg_image) by done.
  fold all_layers.
  destruct (create_psd_run ext all_layers) as (stack & Hstack & Hnone & _).
  assert (∀ tail,
    saved_parts
      ((if sam_predictor ext then [] else [LoadModel])
       ++ [MakeOutputDir; RemoveBackground image_path;
           SaveNoBackground no_bg_image]
       ++ ((λ l, SavePart l.1 l.2)
             <$> omap (λ p, (λ l, (p, l))
                              <$> _segment_part _segment_with_sam
                                    GaussianBlur cfg no_bg_image p)
                   (parts cfg))
       ++ tail)
    = omap (λ p, (λ l, (p, l))
                   <$> _segment_part _segment_with_sam GaussianBlur cfg
                         no_bg_image p) (parts cfg)
      ++ saved_parts tail) as Hsaved.
  { intros tail. rewrite !saved_parts_app, saved_parts_save.
    by destruct (sam_predictor ext). }
  assert (∀ tail,
    psd_stack
      ((if sam_predictor ext then [] else [LoadModel])
       ++ [MakeOutputDir; RemoveBackground image_path;
           SaveNoBackground no_bg_image]
       ++ ((λ l, SavePart l.1 l.2)
             <$> omap (λ p, (λ l, (p, l))
                              <$> _segment_part _segment_with_sam
                                    GaussianBlur cfg no_bg_image p)
                   (parts cfg))
       ++ tail)
    = psd_stack tail) as Hpsd.
  { intros tail. rewrite !psd_stack_app, psd_stack_save.
    by destruct (sam_predictor ext). }
  destruct (export_psd cfg); cbn [fst snd].
  - rewrite <- !app_assoc, Hsaved, Hpsd, saved_parts_app, psd_stack_app.
    rewrite Hnone, app_nil_r.
    split_and!; [|by destruct (fill_background cfg)|done].
    destruct (fill_background cfg); by rewrite ?app_nil_r.
  - rewrite Hsaved, Hpsd.
    split_and!; [|by destruct (fill_background cfg)|done].
    destruct (fill_background cfg); by rewrite ?app_nil_r.
Qed.
End separate_run.

(** C9, as stated, fails: a requested part for which segmentation finds
    no mask is dropped.  With the u2net model there are no SAM
    candidates, and ["face"] has no fallback box: [_segment_part]
    returns [None] and [separate], on a run in which every call out of
    the module succeeds, writes no image for the part and hands none to
    the PSD library. *)
Lemma C9_counterexample :
  let sam : image → string → list mask := λ _ _, [] in
  let cfg := {| segmentation_model := "u2net";
                refine_edges := false;
                parts := ["face"; "eye_white_left"];
                fill_background := false;
                background_color := (255, 255, 255, 255)%Z;
                export_psd := true |} in
  let img : image :=
    [[(10, 20, 30, 255); (11, 21, 31, 255)];
     [(12, 22, 32, 255); (13, 23, 33, 255)]]%Z in
  let ext := {| sam_predictor := false; _load_model := Ok tt;
                mkdir := Ok tt; _remove_background := λ _, Ok img;
                save := λ _ _, Ok tt; psd_tools := true;
                PSDImage_new := λ _ _, Ok tt;
                create_layer := λ _ _, Ok tt; psd_save := Ok tt;
                output_subdir := "layers_0" |} in
  let run := separate sam (λ a, a) cfg ext "character.png" in
  "face" ∈ parts cfg ∧
  _segment_part sam (λ a, a) cfg img "face" = None ∧
  run.2 = Ok "layers_0" ∧
  (saved_parts run.1).*1 = ["eye_white_left"] ∧
  (psd_stack run.1).*1 = ["eye_white_left"] ∧
  ("face" ∉ (saved_parts run.1).*1) ∧ ("face" ∉ (psd_stack run.1).*1).
Proof.
  intros sam cfg img ext run.
  split; [apply list_elem_of_here|]. split; [reflexivity|].
  assert (Hrun : run
    = ([LoadModel; MakeOutputDir; RemoveBackground "character.png";
        SaveNoBackground img;
        SavePart "eye_white_left"
          [[(10, 20, 30, 255); (0, 0, 0, 0)]; [(0, 0, 0, 0); (0, 0, 0, 0)]]%Z;
        PsdNew 2 2;
        PsdCreateLayer "eye_white_left"
          [[(10, 20, 30, 255); (0, 0, 0, 0)]; [(0, 0, 0, 0); (0, 0, 0, 0)]]%Z;
        PsdSave], Ok "layers_0")) by (vm_compute; reflexivity).
  rewrite Hrun. split; [reflexivity|].
  split; [reflexivity|]. split; [reflexivity|].
  split; intros [=]%list_elem_of_singleton.
Qed.

(** C9, amended.  On a run in which the model load, the making of the
    directory, the background removal and the file writes succeed: a
    requested part with at least one candidate mask (from SAM, or the
    fallback box of an eye, mouth or hair part) gets a layer, whose
    image is written and which is handed to the PSD library when that
    returns on its calls, also when no candidate has a [True] pixel; its
    composite is then fully transparent, and with [refine_edges] carries
    the alpha that the blur returns for the all-zero channel.  A
    requested part without a candidate mask gets no layer: no image is
    written for it, and it is in the PSD stack only as the background
    fill, when it is called background and [fill_background] is set. *)
Theorem C9_layer_emitted_iff_candidate
    (_segment_with_sam : image → string → list mask)
    (GaussianBlur : list (list Z) → list (list Z))
    (cfg : layers_config) (ext : externals)
    (image_path : string) (no_bg_image : image) (part_name : string) :
  (sam_predictor ext = false → _load_model ext = Ok tt) →
  mkdir ext = Ok tt →
  _remove_background ext image_path = Ok no_bg_image →
  (∀ file_name i, save ext file_name i = Ok tt) →
  part_name ∈ parts cfg →
  let masks := candidate_masks _segment_with_sam cfg no_bg_image part_name in
  let run := separate _segment_with_sam GaussianBlur cfg ext image_path in
  let blank : image := map (map (λ _, (0, 0, 0, 0)%Z)) no_bg_image in
  (masks ≠ [] →
   ∃ layer_img,
     _segment_part _segment_with_sam GaussianBlur cfg no_bg_image part_name
     = Some layer_img ∧
     (part_name, layer_img) ∈ saved_parts run.1 ∧
     (export_psd cfg = true → psd_tools ext = true →
      (∀ w h, PSDImage_new ext w h = Ok tt) →
      (∀ p img, create_layer ext p img = Ok tt) →
      part_name ∈ (psd_stack run.1).*1) ∧
     ((∀ m, m ∈ masks → mask_sum m = 0%Z) →
      layer_img
      = if refine_edges cfg
        then putalpha blank (GaussianBlur (alpha_channel blank))
        else blank)) ∧
  (masks = [] →
   _segment_part _segment_with_sam GaussianBlur cfg no_bg_image part_name
   = None ∧
   (part_name ∉ (saved_parts run.1).*1) ∧
   (∀ l, (part_name, l) ∈ psd_stack run.1 →
         part_name = "background" ∧ fill_background cfg = true ∧
         l = new_image no_bg_image (background_color cfg))).
Proof.
  intros Hload Hmkdir Hrm Hsave Hpart masks run blank.
  destruct (separate_run_layers _segment_with_sam GaussianBlur cfg ext
              image_path no_bg_image Hload Hmkdir Hrm Hsave)
    as (Hsaved & Hpsd & _).
  fold run in Hsaved, Hpsd.
  set (layers :=
         segment_parts _segment_with_sam GaussianBlur cfg no_bg_image) in *.
  set (all_layers :=
         if fill_background cfg
         then dict_set "background"
                (new_image no_bg_image (background_color cfg)) layers
         else layers) in *.
  destruct (create_psd_run ext all_layers)
    as (stack & Hstack & _ & Hpre & Hget & Hall).
  split; [intros Hne|intros Hnil].
  - destruct (proj2 (segment_part_Some _segment_with_sam GaussianBlur cfg
                       no_bg_image part_name) Hne) as [layer_img Himg].
    exists layer_img. split_and!; [done| | |].
    + rewrite Hsaved. apply list_elem_of_omap.
      exists part_name. split; [done|]. by rewrite Himg.
    + intros Hexport Hlib Hnew Hcreate.
      assert (Hin : part_name ∈ dict_keys all_layers).
      { assert (part_name ∈ dict_keys layers).
        { apply segment_parts_keys. split; [done|]. by rewrite Himg. }
        unfold all_layers. destruct (fill_background cfg); [|done].
        apply dict_set_elem. by right. }
      assert (Hnonempty : all_layers ≠ []).
      { intros E. rewrite E in Hin. by apply elem_of_nil in Hin. }
      destruct (Hall Hlib Hnonempty Hnew Hcreate) as [Hfull _].
      rewrite Hpsd, Hexport, Hstack, Hfull.
      unfold ordered_parts. by rewrite sorted_perm.
    + intros Hzero.
      destruct (selected_mask_spec masks Hne) as (m & Hsel & Hm & _).
      pose proof (apply_mask_empty no_bg_image m (Hzero m Hm)) as Hempty.
      unfold _segment_part in Himg. fold masks in Himg.
      rewrite Hsel, Hempty in Himg. by injection Himg as <-.
  - assert (Hnone : _segment_part _segment_with_sam GaussianBlur cfg
                      no_bg_image part_name = None).
    { apply eq_None_not_Some. rewrite segment_part_Some. fold masks.
      by intros []. }
    split_and!; [done| |].
    + rewrite Hsaved. intros ([q l] & Heq & Hl)%list_elem_of_fmap.
      simpl in Heq. subst q.
      apply list_elem_of_omap in Hl as (p & _ & Hp).
      destruct (_segment_part _segment_with_sam GaussianBlur cfg
                  no_bg_image p) as [l'|] eqn:Hp'; [|done].
      injection Hp as -> ->. congruence.
    + intros l Hl. rewrite Hpsd in Hl.
      destruct (export_psd cfg); [|by apply elem_of_nil in Hl].
      rewrite Hstack in Hl. apply Hget in Hl.
      assert (Hnot : dict_get part_name layers = None).
      { apply eq_None_not_Some. rewrite dict_get_Some_keys.
        unfold layers. rewrite segment_parts_keys, Hnone.
        by intros [_ []]. }
      unfold all_layers in Hl. destruct (fill_background cfg).
      * destruct (decide ("background" = part_name)) as [<-|Hne].
        -- rewrite dict_get_set_eq in Hl. by injection Hl as <-.
        -- rewrite dict_get_set_ne in Hl by done. congruence.
      * congruence.
Qed.

(** A one-pixel image: the fallback box of an eye part is empty there,
    and the part still gets its (transparent) layer, on a run in which
    every call out of the module succeeds. *)
Lemma C9_layer_emitted_iff_candidate_witness :
  let sam : image → string → list mask := λ _ _, [] in
  let cfg := {| segmentation_model := "u2net";
                refine_edges := false; parts := ["eye_white_left"];
                fill_background := false;
                background_color := (255, 255, 255, 255)%Z;
                export_psd := true |} in
  let img : image := [[(10, 20, 30, 255)%Z]] in
  let ext := {| sam_predictor := true; _load_model := Ok tt;
                mkdir := Ok tt; _remove_background := λ _, Ok img;
                save := λ _ _, Ok tt; psd_tools := true;
                PSDImage_new := λ _ _, Ok tt;
                create_layer := λ _ _, Ok tt; psd_save := Ok tt;
                output_subdir := "layers_0" |} in
  let run := separate sam (λ a, a) cfg ext "character.png" in
  (candidate_masks sam cfg img "eye_white_left" ≠ [] ∧
   ∀ m, m ∈ candidate_masks sam cfg img "eye_white_left" →
        mask_sum m = 0%Z) ∧
  ("eye_white_left", [[(0, 0, 0, 0)%Z]]) ∈ saved_parts run.1 ∧
  "eye_white_left" ∈ (psd_stack run.1).*1.
Proof.
  intros sam cfg img ext run.
  assert (Hne : candidate_masks sam cfg img "eye_white_left" ≠ []) by done.
  assert (Hzero : ∀ m, m ∈ candidate_masks sam cfg img "eye_white_left" →
                       mask_sum m = 0%Z).
  { intros m Hm. vm_compute in Hm.
    apply list_elem_of_singleton in Hm as ->. reflexivity. }
  split; [by split|].
  destruct (proj1 (C9_layer_emitted_iff_candidate sam (λ a, a) cfg ext
                     "character.png" img "eye_white_left"
                     ltac:(done) eq_refl eq_refl ltac:(done)
                     ltac:(apply list_elem_of_here)) Hne)
    as (layer_img & Himg & Hsaved & Hstack & Hblank).
  rewrite (Hblank Hzero) in Hsaved.
  split; [exact Hsaved|]. by apply Hstack.
Defined.

(** ** The blink loop *)

Import ParametersGenerator.

Section blink_facts.
Open Scope Q_scope.

Lemma Qltb_lt a b : Qltb a b = true ↔ a < b.
Proof.
  unfold Qltb. rewrite negb_true_iff, <- not_true_iff_false, Qle_bool_iff.
  split; [apply Qnot_le_lt|apply Qlt_not_le].
Qed.

Lemma rng_ok_tail g : rng_ok g → rng_ok (λ n, g (S n)).
Proof. intros Hg n. apply Hg. Qed.

Lemma uniform_bounds a b g :
  rng_ok g → a <= b →
  a <= (uniform a b g).1 ∧ (uniform a b g).1 <= b
  ∧ (uniform a b g).2 = (λ n, g (S n)).
Proof.
  intros Hg Hab. unfold uniform, random. simpl.
  destruct (Hg 0%nat) as [H0 H1]. split_and!; [nra|nra|done].
Qed.

Lemma blink_cycle_spec s :
  blink_cycle s
  = BlinkState (cycle_end (current_time s))
               (keyframes s ++ cycle_at (current_time s)).
Proof.
  cbv beta iota delta
    [cycle_at cycle_end blink_cycle emit advance current_time keyframes].
  cbn [app]. repeat rewrite <- app_assoc. reflexivity.
Qed.

Lemma cycle_end_eq t : cycle_end t == t + 0.26.
Proof.
  cbv beta iota delta [cycle_end blink_cycle emit advance current_time].
  lra.
Qed.

Lemma cycle_at_times t :
  Forall2 Qeq (map time (cycle_at t))
    [t; t + 0.02; t + 0.04; t + 0.06; t + 0.08; t + 0.10; t + 0.16;
     t + 0.18; t + 0.20; t + 0.22; t + 0.24; t + 0.26].
Proof.
  cbv beta iota delta
    [cycle_at blink_cycle emit advance current_time keyframes].
  cbn [app map time].
  repeat (constructor; [lra|]). constructor.
Qed.

Lemma cycle_at_bounds t k :
  k ∈ cycle_at t → t <= time k ∧ time k <= t + 0.26 ∧
                   0 <= value k ∧ value k <= 1.
Proof.
  cbv beta iota delta
    [cycle_at blink_cycle emit advance current_time keyframes].
  cbn [app]. intros Hk.
  repeat (apply elem_of_cons in Hk as [->|Hk];
          [cbn [time value]; split_and!; lra|]).
  by apply elem_of_nil in Hk.
Qed.

(** The loop ends within the fuel it is given, whatever the generator
    draws, and its result is a sequence of whole passes, each started
    before the horizon. *)
Lemma blink_loop_total fuel random_blink interval s g :
  rng_ok g → 2 <= interval →
  (0 < fuel)%nat →
  blink_total_time - current_time s
    <= 1.66 * (inject_Z (Z.of_nat fuel) - 1) →
  ∃ starts g',
    blink_loop fuel random_blink interval s g
    = Ok (keyframes s ++ concat (map cycle_at starts), g') ∧
    Forall (λ t, current_time s <= t ∧ t < blink_total_time) starts.
Proof.
  revert s g.
  induction fuel as [|fuel IH]; intros s g Hg Hint Hpos Hfuel; [lia|].
  rewrite Nat2Z.inj_succ, <- Z.add_1_r, inject_Z_plus in Hfuel.
  change (inject_Z 1) with 1 in Hfuel.
  - simpl. destruct (Qltb (current_time s) blink_total_time) eqn:Hlt.
    + apply Qltb_lt in Hlt. rewrite blink_cycle_spec.
      set (w := if random_blink
                then uniform (interval * 0.7) (interval * 1.3) g
                else (interval, g)).
      assert (Hw : 1.4 <= w.1 ∧ rng_ok w.2).
      { unfold w.
        destruct random_blink; [|cbn [fst snd]; split; [lra|done]].
        destruct (uniform_bounds (interval * 0.7) (interval * 1.3) g Hg)
          as (Hlo & _ & Hg'); [lra|].
        rewrite Hg'. split; [lra|by apply rng_ok_tail]. }
      destruct w as [wait_time g1]. cbn [fst snd] in Hw.
      destruct Hw as [Hw Hg1].
      pose proof (cycle_end_eq (current_time s)) as Hend.
      destruct (IH (advance wait_time
                      (BlinkState (cycle_end (current_time s))
                         (keyframes s ++ cycle_at (current_time s)))) g1)
        as (starts & g' & Hrun & Hstarts); [done|done| | |].
      { destruct fuel; [|lia].
        change (inject_Z (Z.of_nat 0)) with 0 in Hfuel. lra. }
      { cbn [advance current_time]. lra. }
      exists (current_time s :: starts), g'. split.
      * rewrite Hrun. simpl. by rewrite <- app_assoc.
      * constructor; [split; [lra|done]|].
        eapply Forall_impl; [exact Hstarts|]. simpl.
        intros t [? ?]. split; [lra|done].
    + exists [], g. simpl. rewrite app_nil_r. done.
Qed.

Lemma blink_curve_total fuel speed random_blink g :
  rng_ok g → ¬ speed == 0 → (8 ≤ fuel)%nat →
  ∃ starts g',
    _create_eye_blink_curve fuel speed random_blink g
    = Ok (concat (map cycle_at starts), g') ∧
    Forall (λ t, 0 <= t ∧ t < blink_total_time) starts.
Proof.
  intros Hg Hspeed Hfuel. unfold _create_eye_blink_curve.
  destruct (Qeq_bool speed 0) eqn:Hz; [by apply Qeq_bool_iff in Hz|].
  set (i := if random_blink then uniform 2.0 6.0 g else (4.0, g)).
  assert (Hi : 2 <= i.1 ∧ rng_ok i.2).
  { unfold i.
    destruct random_blink; [|cbn [fst snd]; split; [lra|done]].
    destruct (uniform_bounds 2.0 6.0 g Hg) as (Hlo & _ & Hg'); [lra|].
    rewrite Hg'. split; [lra|by apply rng_ok_tail]. }
  destruct i as [interval g1]. cbn [fst snd] in Hi.
  destruct Hi as [Hi Hg1].
  destruct (blink_loop_total fuel random_blink interval
              (BlinkState 0.0 []) g1) as (starts & g' & Hrun & Hstarts);
    [done|done|lia| |].
  { cbn [current_time]. unfold blink_total_time.
    assert (8 <= inject_Z (Z.of_nat fuel)).
    { change 8 with (inject_Z 8). rewrite <- Zle_Qle. lia. }
    lra. }
  exists starts, g'. split; [exact Hrun|].
  eapply Forall_impl; [exact Hstarts|]. simpl. intros t [? ?].
  split; [lra|done].
Qed.

(** Without randomness there are three passes, the generator is not
    touched, and four iterations of fuel are enough. *)
Lemma blink_curve_fixed n speed g :
  ¬ speed == 0 →
  _create_eye_blink_curve (4 + n) speed false g
  = Ok (concat (map cycle_at
          [0.0; cycle_end 0.0 + 4.0;
           cycle_end (cycle_end 0.0 + 4.0) + 4.0]), g).
Proof.
  intros Hspeed. unfold _create_eye_blink_curve.
  destruct (Qeq_bool speed 0) eqn:Hz; [by apply Qeq_bool_iff in Hz|].
  vm_compute. reflexivity.
Qed.

Lemma blink_fixed_starts :
  Forall2 Qeq
    [0.0; cycle_end 0.0 + 4.0; cycle_end (cycle_end 0.0 + 4.0) + 4.0]
    [0; 4.26; 8.52].
Proof. repeat (constructor; [reflexivity|]). constructor. Qed.

(** The curve depends on the generator only through the draws the
    loop can reach. *)
Lemma blink_loop_ext fuel random_blink interval s g g' :
  (∀ n, (n < fuel)%nat → g n = g' n) →
  returned (blink_loop fuel random_blink interval s g)
  = returned (blink_loop fuel random_blink interval s g').
Proof.
  revert s g g'. induction fuel as [|fuel IH]; intros s g g' Hgg'; [done|].
  simpl. destruct (Qltb _ _); [|done].
  destruct random_blink.
  - unfold uniform, random. rewrite (Hgg' 0%nat) by lia.
    apply IH. intros n Hn. apply Hgg'. lia.
  - apply IH. intros n Hn. apply Hgg'. lia.
Qed.

Lemma blink_curve_ext fuel speed random_blink g g' :
  (∀ n, (n ≤ fuel)%nat → g n = g' n) →
  returned (_create_eye_blink_curve fuel speed random_blink g)
  = returned (_create_eye_blink_curve fuel speed random_blink g').
Proof.
  intros Hgg'. unfold _create_eye_blink_curve.
  destruct (Qeq_bool speed 0); [done|]. destruct random_blink.
  - unfold uniform, random. rewrite (Hgg' 0%nat) by lia.
    apply blink_loop_ext. intros n Hn. apply Hgg'. lia.
  - apply blink_loop_ext. intros n Hn. apply Hgg'. lia.
Qed.
Lemma uniform_lt a b g :
  rng_ok g → a < b → (uniform a b g).1 < b.
Proof.
  intros Hg Hab. unfold uniform, random. simpl.
  destruct (Hg 0%nat) as [H0 H1]. nra.
Qed.

Lemma Qltb_ge a b : Qltb a b = false ↔ b <= a.
Proof. unfold Qltb. rewrite negb_false_iff. apply Qle_bool_iff. Qed.

Lemma blink_loop_stop fuel random_blink interval s g :
  blink_total_time <= current_time s →
  blink_loop (S fuel) random_blink interval s g = Ok (keyframes s, g).
Proof.
  intros Hstop. cbn [blink_loop]. by rewrite (proj2 (Qltb_ge _ _) Hstop).
Qed.

Lemma blink_loop_step fuel random_blink interval s g :
  current_time s < blink_total_time →
  blink_loop (S fuel) random_blink interval s g
  = let w := if random_blink
             then uniform (interval * 0.7) (interval * 1.3) g
             else (interval, g) in
    blink_loop fuel random_blink interval
      (advance w.1
         (BlinkState (cycle_end (current_time s))
            (keyframes s ++ cycle_at (current_time s)))) w.2.
Proof.
  intros Hlt. cbn [blink_loop].
  rewrite (proj2 (Qltb_lt _ _) Hlt), blink_cycle_spec.
  by destruct (if random_blink then _ else _).
Qed.

End blink_facts.

(** ** Blink curves (C2, C3, C4, C8) *)

Section blink_claims.
Open Scope Q_scope.

(** The shape of one pass: twelve keyframes, from 1.0 down to 0.0 in
    five steps of 0.02 s, 0.06 s at 0.0, and back up in five steps. *)
Lemma cycle_at_shape t :
  map value (cycle_at t)
  = [1.0; 0.9; 0.7; 0.5; 0.2; 0.0; 0.0; 0.2; 0.5; 0.7; 0.9; 1.0] ∧
  ∃ first k5 k6 lst,
    head (cycle_at t) = Some first ∧ last (cycle_at t) = Some lst ∧
    cycle_at t !! 5%nat = Some k5 ∧ cycle_at t !! 6%nat = Some k6 ∧
    value first = 1.0 ∧ value lst = 1.0 ∧
    value k5 = 0.0 ∧ value k6 = 0.0 ∧
    time first = t ∧ time lst = cycle_end t ∧
    time k5 <= (time first + time lst) / 2 ∧
    (time first + time lst) / 2 <= time k6.
Proof.
  split; [reflexivity|].
  eexists _, _, _, _.
  split_and!; try reflexivity;
    cbv beta iota delta
      [cycle_at cycle_end blink_cycle emit advance current_time keyframes
       app time];
    unfold Qdiv; change (/ 2) with (1 # 2); lra.
Qed.

Lemma elem_of_cycles starts k :
  k ∈ concat (map cycle_at starts) → ∃ t, t ∈ starts ∧ k ∈ cycle_at t.
Proof.
  intros Hk%list_elem_of_In%in_concat. destruct Hk as (c & Hc & Hk).
  apply in_map_iff in Hc as (t & <- & Ht).
  exists t. by rewrite !list_elem_of_In.
Qed.
End blink_claims.

(** C2.  With [random_blink = False] and any speed other than zero,
    the curve is three whole cycles, each with the value sequence
    1.0, 0.9, 0.7, 0.5, 0.2, 0.0, 0.0, 0.2, 0.5, 0.7, 0.9, 1.0: it starts
    and ends at 1.0 and is at 0.0 at the two keyframes that enclose the
    middle of the cycle. *)
Theorem C2_blink_cycle_values (fuel : nat) (speed : Q) (g : rng) :
  ¬ (speed == 0)%Q → (4 ≤ fuel)%nat →
  ∃ cycles,
    _create_eye_blink_curve fuel speed false g = Ok (concat cycles, g) ∧
    length cycles = 3%nat ∧
    Forall (λ c,
      map value c
      = [1.0; 0.9; 0.7; 0.5; 0.2; 0.0; 0.0; 0.2; 0.5; 0.7; 0.9; 1.0]%Q ∧
      ∃ first k5 k6 lst,
        head c = Some first ∧ last c = Some lst ∧
        c !! 5%nat = Some k5 ∧ c !! 6%nat = Some k6 ∧
        value first = 1.0%Q ∧ value lst = 1.0%Q ∧
        value k5 = 0.0%Q ∧ value k6 = 0.0%Q ∧
        (time k5 <= (time first + time lst) / 2)%Q ∧
        ((time first + time lst) / 2 <= time k6)%Q) cycles.
Proof.
  intros Hspeed Hfuel.
  replace fuel with (4 + (fuel - 4))%nat by lia.
  rewrite blink_curve_fixed by done.
  eexists. split; [reflexivity|]. split; [reflexivity|].
  apply Forall_fmap, Forall_forall. intros t _. simpl.
  destruct (cycle_at_shape t)
    as (Hv & first & k5 & k6 & lst
        & ? & ? & ? & ? & ? & ? & ? & ? & _ & _ & ? & ?).
  split; [exact Hv|]. exists first, k5, k6, lst. by split_and!.
Qed.

Lemma C2_blink_cycle_values_witness :
  ¬ (1 == 0)%Q ∧ (4 ≤ 4)%nat ∧
  ∃ cycles,
    _create_eye_blink_curve 4 1 false (λ _, 0%Q)
    = Ok (concat cycles, λ _, 0%Q) ∧
    length cycles = 3%nat.
Proof.
  assert (H1 : ¬ (1 == 0)%Q) by (intros H; discriminate H).
  assert (H4 : (4 ≤ 4)%nat) by lia.
  split_and!; [exact H1|exact H4|].
  destruct (C2_blink_cycle_values 4 1 (λ _, 0%Q) H1 H4)
    as (cycles & Hrun & Hlen & _).
  exists cycles. split; [exact Hrun|exact Hlen].
Defined.

(** C3.  At [speed = 0.5] the cycle should last [0.3 / 0.5 = 0.6]
    seconds.  The code computes that duration and does not use it:
    every cycle is five steps of 0.02 s down, 0.06 s closed and five
    steps of 0.02 s up, 0.26 s in all, which is further from 0.6 than
    any step of the sampling. *)
Theorem C3_blink_cycle_ignores_speed (g : rng) :
  ∃ cycles,
    _create_eye_blink_curve 4 0.5 false g = Ok (concat cycles, g) ∧
    length cycles = 3%nat ∧
    Forall (λ c, ∃ t,
      Forall2 Qeq (map time c)
        [t; t + 0.02; t + 0.04; t + 0.06; t + 0.08; t + 0.10; t + 0.16;
         t + 0.18; t + 0.20; t + 0.22; t + 0.24; t + 0.26]%Q ∧
      ∃ first lst,
        head c = Some first ∧ last c = Some lst ∧
        (time lst - time first == 0.26)%Q) cycles ∧
    (0.3 / 0.5 == 0.6)%Q ∧ (0.1 < 0.6 - 0.26)%Q.
Proof.
  assert (Hrun := blink_curve_fixed 0 0.5 g).
  change (4 + 0)%nat with 4%nat in Hrun.
  eexists. split; [apply Hrun; intros H; discriminate H|].
  split; [reflexivity|]. split; [|split; reflexivity].
  apply Forall_fmap, Forall_forall. intros t _. simpl.
  exists t. split; [apply cycle_at_times|].
  destruct (cycle_at_shape t)
    as (_ & first & k5 & k6 & lst
        & ? & ? & _ & _ & _ & _ & _ & _ & Hf & Hl & _).
  exists first, lst. split_and!; [done..|].
  rewrite Hf, Hl, cycle_end_eq. ring.
Qed.





(** The synthesizer takes no seed argument: it draws from the generator
    of the process and leaves it advanced, so that a second call made
    without seeding again continues the stream.  With the draws 0, 1/2,
    1/2, ... the first call has gaps of 2.0 s and five cycles, the
    second, made from the state the first one left, gaps of 4.0 s and
    three. *)
Lemma blink_second_call_continues :
  let g : rng := λ n, match n with O => 0%Q | S _ => (1 # 2)%Q end in
  ∃ kfs1 g1 kfs2 g2,
    _create_eye_blink_curve 8 1 true g = Ok (kfs1, g1) ∧
    _create_eye_blink_curve 8 1 true g1 = Ok (kfs2, g2) ∧
    length kfs1 = 60%nat ∧ length kfs2 = 36%nat ∧ kfs1 ≠ kfs2.
Proof.
  intros g.
  destruct (_create_eye_blink_curve 8 1 true g) as [[kfs1 g1]| |] eqn:E1;
    [|vm_compute in E1; discriminate E1..].
  destruct (_create_eye_blink_curve 8 1 true g1) as [[kfs2 g2]| |] eqn:E2.
  - exists kfs1, g1, kfs2, g2.
    assert (length kfs1 = 60%nat ∧ length kfs2 = 36%nat) as [H1 H2].
    { vm_compute in E1. injection E1 as <- <-.
      vm_compute in E2. injection E2 as <- _. by split. }
    split_and!; [done..|]. intros ->. lia.
  - exfalso. vm_compute in E1. injection E1 as <- <-.
    vm_compute in E2. discriminate E2.
  - exfalso. vm_compute in E1. injection E1 as <- <-.
    vm_compute in E2. discriminate E2.
Qed.

(** C8.  Without randomness two calls with the same speed return the
    same keyframes, whatever the state of the random generator at either
    call, and leave the generator as it was.  With randomness the seed
    of a call is the state of the generator when the call is made: two
    calls with the same speed made from states that give the same draws
    return the same keyframes. *)
Theorem C8_blink_reproducible (fuel : nat) (speed : Q) (g g' : rng) :
  ¬ (speed == 0)%Q → (8 ≤ fuel)%nat →
  (∃ kfs,
     _create_eye_blink_curve fuel speed false g = Ok (kfs, g) ∧
     _create_eye_blink_curve fuel speed false g' = Ok (kfs, g')) ∧
  (rng_ok g → (∀ n, (n ≤ fuel)%nat → g n = g' n) →
   ∃ kfs,
     returned (_create_eye_blink_curve fuel speed true g) = Ok kfs ∧
     returned (_create_eye_blink_curve fuel speed true g') = Ok kfs).
Proof.
  intros Hspeed Hfuel. split.
  - replace fuel with (4 + (fuel - 4))%nat by lia.
    rewrite !blink_curve_fixed by done. eauto.
  - intros Hg Hgg'.
    pose proof (blink_curve_ext fuel speed true g g' Hgg') as Hext.
    destruct (blink_curve_total fuel speed true g Hg Hspeed Hfuel)
      as (starts & g1 & Hrun & _).
    exists (concat (map cycle_at starts)).
    rewrite <- Hext, Hrun. done.
Qed.

(** Two generator states that agree on the first nine draws, and
    differ after them. *)
Lemma C8_blink_reproducible_witness :
  let g : rng := λ n, match n with O => 0%Q | S _ => (1 # 2)%Q end in
  let g' : rng :=
    λ n, if (n <=? 8)%nat then g n else (1 # 4)%Q in
  ∃ kfs,
    returned (_create_eye_blink_curve 8 1 true g) = Ok kfs ∧
    returned (_create_eye_blink_curve 8 1 true g') = Ok kfs ∧
    length kfs = 60%nat.
Proof.
  intros g g'.
  assert (H1 : ¬ (1 == 0)%Q) by (intros H; discriminate H).
  assert (H8 : (8 ≤ 8)%nat) by lia.
  assert (Hg : rng_ok g).
  { intros n. unfold g, Qle, Qlt. destruct n; simpl; lia. }
  assert (Hgg' : ∀ n, (n ≤ 8)%nat → g n = g' n).
  { intros n Hn. unfold g'. by rewrite (proj2 (Nat.leb_le n 8) Hn). }
  destruct (proj2 (C8_blink_reproducible 8 1 g g' H1 H8) Hg Hgg')
    as (kfs & Hrun & Hrun').
  exists kfs. split; [exact Hrun|]. split; [exact Hrun'|].
  vm_compute in Hrun. by injection Hrun as <-.
Defined.

(** ** The lip-sync curve (C7) *)

(** C7.  The lip-sync curve has ten syllables of four keyframes each.
    Syllable [i] starts at [i * (5.0 / 10)], that is every 0.5 s, and
    emits 0.0 at the start, [uniform(0.3, 0.7)] on the [i]-th draw of the
    generator 0.1 s later (a value between 0.3 and 0.7), 0.2 at 0.2 s
    and 0.0 at 0.3 s; the call consumes ten draws. *)
Theorem C7_lip_sync_syllables (g : rng) (i : nat) :
  rng_ok g → (i < 10)%nat →
  let kfs := (_create_sample_lip_sync g).1 in
  let start := (inject_Z (Z.of_nat i) * (5.0 / 10))%Q in
  let max_open := (0.3 + (0.7 - 0.3) * g i)%Q in
  length kfs = (10 * 4)%nat ∧
  (_create_sample_lip_sync g).2 = (λ n, g (10 + n)%nat) ∧
  (start == inject_Z (Z.of_nat i) * 0.5)%Q ∧
  kfs !! (4 * i)%nat = Some (Keyframe start 0.0%Q) ∧
  kfs !! (4 * i + 1)%nat = Some (Keyframe (start + 0.1)%Q max_open) ∧
  kfs !! (4 * i + 2)%nat = Some (Keyframe (start + 0.2)%Q 0.2%Q) ∧
  kfs !! (4 * i + 3)%nat = Some (Keyframe (start + 0.3)%Q 0.0%Q) ∧
  (0.3 <= max_open)%Q ∧ (max_open < 0.7)%Q.
Proof.
  intros Hg Hi. cbv zeta.
  destruct (Hg i) as [H0 H1].
  split; [reflexivity|]. split; [reflexivity|].
  split; [unfold Qdiv; change (/ 10)%Q with (1 # 10)%Q; lra|].
  assert (0.3 <= 0.3 + (0.7 - 0.3) * g i)%Q as Hlo by lra.
  assert (0.3 + (0.7 - 0.3) * g i < 0.7)%Q as Hhi by lra.
  do 10 (destruct i as [|i];
         [split_and!; first [reflexivity|assumption]|]).
  lia.
Qed.

Lemma C7_lip_sync_syllables_witness :
  let g : rng := λ _, (1 # 2)%Q in
  (rng_ok g ∧ (3 < 10)%nat) ∧
  (_create_sample_lip_sync g).1 !! 13%nat
  = Some (Keyframe (inject_Z 3 * (5.0 / 10) + 0.1)%Q
                   (0.3 + (0.7 - 0.3) * (1 # 2))%Q).
Proof.
  intros g.
  assert (Hg : rng_ok g) by (intros n; unfold g, Qle, Qlt; simpl; lia).
  assert (H3 : (3 < 10)%nat) by lia.
  split; [by split|].
  exact (proj1 (proj2 (proj2 (proj2 (proj2
           (C7_lip_sync_syllables g 3 Hg H3)))))).
Defined.

(** ** The periodic curves (C5, C6) *)

Section periodic_facts.
Open Scope R_scope.

Lemma PI_lower : 3.14 < PI.
Proof.
  pose proof (PI_2_3_7_ineq 1) as [Hlo _].
  unfold sum_f_R0, tg_alt, PI_2_3_7_tg, Ratan_seq in Hlo.
  simpl in Hlo. lra.
Qed.

Lemma PI_upper : PI < 3.142.
Proof.
  pose proof (PI_2_3_7_ineq 2) as [_ Hhi].
  unfold sum_f_R0, tg_alt, PI_2_3_7_tg, Ratan_seq in Hhi.
  simpl in Hhi. lra.
Qed.

(** [int(10.0 / 0.1) + 1] is 101: the samples are [t = 0 .. 100]. *)
Lemma sample_indices_10 : sample_indices 10.0 0.1 = seq 0 101.
Proof.
  unfold sample_indices.
  replace (Int_part (10.0 / 0.1)) with 100%Z; [reflexivity|].
  apply Int_part_spec. lra.
Qed.

Lemma head_rotation_curve_eq axis min_val max_val :
  _create_head_rotation_curve axis [min_val; max_val]
  = Ok (map (λ t,
          Keyframe (INR t * 0.1)
            ((min_val + max_val) / 2
             + (max_val - min_val) / 2
               * sin (2 * PI * (axis_wave axis).1 * (INR t * 0.1)
                      + (axis_wave axis).2)))
          (seq 0 101)).
Proof.
  unfold _create_head_rotation_curve.
  destruct (axis_wave axis) as [frequency phase].
  by rewrite sample_indices_10.
Qed.

Lemma collect_Ok {A B : Type} (f : A → outcome B) (f' : A → B)
    (l : list A) :
  (∀ a, a ∈ l → f a = Ok (f' a)) → collect f l = Ok (map f' l).
Proof.
  induction l as [|a l IH]; intros Hf; [done|]. cbn [collect map].
  rewrite (Hf a) by apply list_elem_of_here.
  rewrite IH; [done|]. intros a' Ha'. by apply Hf, list_elem_of_further.
Qed.

Lemma collect_Raise {A B : Type} (f : A → outcome B) (l : list A) a e :
  a ∈ l → f a = Raise e →
  (∀ a', a' ∈ l → (∃ b, f a' = Ok b) ∨ f a' = Raise e) →
  collect f l = Raise e.
Proof.
  induction l as [|a0 l IH]; intros Ha Hfa Hall; [by apply elem_of_nil in Ha|].
  cbn [collect].
  destruct (Hall a0 (list_elem_of_here _ _)) as [[b Hb]|Hr];
    [rewrite Hb|by rewrite Hr].
  apply elem_of_cons in Ha as [->|Ha]; [congruence|].
  rewrite IH; [done..|]. intros a' Ha'. by apply Hall, list_elem_of_further.
Qed.

Lemma INR_100 : INR 100 = 100.
Proof. rewrite INR_IZR_INZ. reflexivity. Qed.

Lemma float_max_lower : 1000 <= float_max.
Proof.
  unfold float_max.
  assert (2 ^ 10 <= 2 ^ 1023) as Hpow by (apply Rle_pow; [lra|lia]).
  assert (1 <= 2 ^ 52) as H52 by (apply pow_R1_Rle; lra).
  assert (/ 2 ^ 52 <= / 1) as Hinv by (apply Rinv_le_contravar; lra).
  rewrite Rinv_1 in Hinv.
  replace (2 ^ 10) with 1024 in Hpow by (simpl; lra).
  set (P := 2 ^ 1023) in *. set (i := / 2 ^ 52) in *. nra.
Qed.

(** The breathing curve: 101 keyframes, unless the argument of the
    sine at the last sample (10 s) is too large for a double. *)
Lemma breathing_curve_outcome depth speed :
  (Rabs (2 * PI * (0.25 * speed) * 10) <= float_max →
   _create_breathing_curve depth speed
   = Ok (map (λ t,
           Keyframe (INR t * 0.1)
             (0.5
              + depth * 0.5 * sin (2 * PI * (0.25 * speed) * (INR t * 0.1))))
           (seq 0 101))) ∧
  (float_max < Rabs (2 * PI * (0.25 * speed) * 10) →
   _create_breathing_curve depth speed = Raise ValueError).
Proof.
  unfold _create_breathing_curve. rewrite sample_indices_10.
  assert (Hmono : ∀ t, (t ≤ 100)%nat →
    Rabs (2 * PI * (0.25 * speed) * (INR t * 0.1))
    <= Rabs (2 * PI * (0.25 * speed) * 10)).
  { intros t Ht. rewrite !Rabs_mult.
    apply Rmult_le_compat_l.
    - repeat apply Rmult_le_pos; apply Rabs_pos.
    - apply le_INR in Ht. rewrite INR_100 in Ht.
      pose proof (pos_INR t).
      rewrite (Rabs_pos_eq (INR t)), (Rabs_pos_eq 0.1), (Rabs_pos_eq 10)
        by lra.
      lra. }
  split.
  - intros Hfits. apply collect_Ok. intros t Ht%elem_of_seq.
    unfold math_sin. destruct (Rle_dec _ _) as [|Hbig]; [done|].
    exfalso. apply Hbig. etrans; [apply Hmono; lia|exact Hfits].
  - intros Hbig. apply (collect_Raise _ _ 100%nat).
    + apply elem_of_seq. lia.
    + unfold math_sin. rewrite INR_100.
      replace (100 * 0.1) with 10 by lra.
      destruct (Rle_dec _ _) as [Hfits|]; [lra|done].
    + intros t _. unfold math_sin.
      destruct (Rle_dec _ _); [left; by eexists|by right].
Qed.

Lemma sine_wave_bounds lo hi x :
  lo <= hi →
  lo <= (lo + hi) / 2 + (hi - lo) / 2 * sin x ∧
  (lo + hi) / 2 + (hi - lo) / 2 * sin x <= hi.
Proof. intros Hle. pose proof (SIN_bound x) as [? ?]. split; nra. Qed.

Lemma breathing_bounds depth x :
  0 <= depth → depth <= 1 →
  0 <= 0.5 + depth * 0.5 * sin x ∧ 0.5 + depth * 0.5 * sin x <= 1.
Proof. intros ? ?. pose proof (SIN_bound x) as [? ?]. split; nra. Qed.
End periodic_facts.

Section lip_sync_facts.
Open Scope Q_scope.

Lemma lip_sync_unfold g :
  (_create_sample_lip_sync g).1
  = concat (map (λ i,
      let start_time := inject_Z (Z.of_nat i) * (5.0 / 10) in
      [Keyframe start_time 0.0;
       Keyframe (start_time + 0.1) (0.3 + (0.7 - 0.3) * g i);
       Keyframe (start_time + 0.2) 0.2;
       Keyframe (start_time + 0.3) 0.0]) (seq 0 10)).
Proof. reflexivity. Qed.

Lemma lip_sync_values g k :
  rng_ok g → k ∈ (_create_sample_lip_sync g).1 →
  0 <= value k ∧ value k <= 1.
Proof.
  intros Hg. rewrite lip_sync_unfold.
  intros Hk%list_elem_of_In%in_concat. destruct Hk as (c & Hc & Hk).
  apply in_map_iff in Hc as (i & <- & _).
  destruct (Hg i) as [H0 H1]. apply list_elem_of_In in Hk. cbv zeta in Hk.
  repeat (apply elem_of_cons in Hk as [->|Hk];
          [cbn [value]; split; lra|]).
  by apply elem_of_nil in Hk.
Qed.
End lip_sync_facts.

(** C5, as stated, fails: no synthesizer clamps, and a value is in
    range only when the way it is computed puts it there.  For the
    configured range [30, -30] the head rotation curve of the x axis
    starts with the value 0, as computed, which is not between 30 and
    -30. *)
Lemma C5_counterexample :
  ∃ kfs k,
    _create_head_rotation_curve "x" [30; -30]%R = Ok kfs ∧
    kfs !! 0%nat = Some k ∧ time k = 0%R ∧ value k = 0%R ∧
    ¬ (30 <= value k ∧ value k <= -30)%R.
Proof.
  rewrite head_rotation_curve_eq. eexists _, _.
  split; [reflexivity|]. split; [reflexivity|]. cbn [time value].
  assert (INR 0 * 0.1 = 0)%R as -> by (simpl; lra).
  change (axis_wave "x") with (0.2, 0.0)%R. cbn [fst snd].
  replace (2 * PI * 0.2 * 0 + 0.0)%R with 0%R by lra.
  rewrite sin_0. split_and!; [done|lra|lra].
Qed.

(** C5, amended.  Every keyframe value lies in the range of its
    parameter as it is computed, without a clamping step: blink values
    in the 0 .. 1 of [EyeLOpen] and [EyeROpen], lip-sync values in the
    0 .. 1 of [MouthOpen], head rotation values in the configured range
    of the axis when its first value is not above its second, breathing
    values in the 0 .. 1 of [Breath] when the depth is in 0 .. 1.  The
    head rotation and breathing keyframes carry the value of their
    formula. *)
Theorem C5_curve_values_in_range (fuel : nat) (speed : Q)
    (random_blink : bool) (g : rng) (axis : string)
    (min_val max_val depth breathing_speed : R) :
  rng_ok g → ¬ (speed == 0)%Q → (8 ≤ fuel)%nat →
  (min_val <= max_val)%R → (0 <= depth)%R → (depth <= 1)%R →
  (CubismAutomation.registered_range "EyeLOpen" = Some (0, 1)%Z ∧
   CubismAutomation.registered_range "EyeROpen" = Some (0, 1)%Z ∧
   CubismAutomation.registered_range "MouthOpen" = Some (0, 1)%Z ∧
   CubismAutomation.registered_range "Breath" = Some (0, 1)%Z) ∧
  (∃ kfs g',
     _create_eye_blink_curve fuel speed random_blink g = Ok (kfs, g') ∧
     ∀ k, k ∈ kfs → (0 <= value k)%Q ∧ (value k <= 1)%Q) ∧
  (∀ k, k ∈ (_create_sample_lip_sync g).1 →
        (0 <= value k)%Q ∧ (value k <= 1)%Q) ∧
  (∃ kfs,
     _create_head_rotation_curve axis [min_val; max_val] = Ok kfs ∧
     ∀ k, k ∈ kfs →
          (min_val <= value k)%R ∧ (value k <= max_val)%R ∧
          value k
          = ((min_val + max_val) / 2
             + (max_val - min_val) / 2
               * sin (2 * PI * (axis_wave axis).1 * time k
                      + (axis_wave axis).2))%R) ∧
  ((Rabs (2 * PI * (0.25 * breathing_speed) * 10) <= float_max)%R →
   ∃ kfs, _create_breathing_curve depth breathing_speed = Ok kfs ∧
          length kfs = 101%nat) ∧
  (∀ kfs k,
     _create_breathing_curve depth breathing_speed = Ok kfs → k ∈ kfs →
     (0 <= value k)%R ∧ (value k <= 1)%R ∧
     value k
     = (0.5
        + depth * 0.5
          * sin (2 * PI * (0.25 * breathing_speed) * time k))%R).
Proof.
  intros Hg Hspeed Hfuel Hrange Hd0 Hd1.
  split; [by split_and!|]. split_and!.
  - destruct (blink_curve_total fuel speed random_blink g Hg Hspeed Hfuel)
      as (starts & g' & Hrun & _).
    eexists _, g'. split; [exact Hrun|].
    intros k (t & _ & Hk)%elem_of_cycles.
    by apply cycle_at_bounds in Hk as (_ & _ & ? & ?).
  - intros k. by apply lip_sync_values.
  - rewrite head_rotation_curve_eq. eexists. split; [reflexivity|].
    intros k Hk%list_elem_of_In. apply in_map_iff in Hk as (t & <- & _).
    cbn [value time].
    destruct (sine_wave_bounds min_val max_val
                (2 * PI * (axis_wave axis).1 * (INR t * 0.1)
                 + (axis_wave axis).2)%R Hrange) as [? ?].
    by split_and!.
  - intros Hfits.
    rewrite (proj1 (breathing_curve_outcome depth breathing_speed) Hfits).
    eexists. split; [reflexivity|]. by rewrite length_map, length_seq.
  - intros kfs k Hrun Hk.
    destruct (Rle_dec (Rabs (2 * PI * (0.25 * breathing_speed) * 10))
                float_max) as [Hfits|Hbig].
    + pose proof (proj1 (breathing_curve_outcome depth breathing_speed)
                    Hfits) as Heq.
      rewrite Hrun in Heq.
      assert (kfs
              = map (λ t,
                  Keyframe (INR t * 0.1)
                    (0.5
                     + depth * 0.5
                       * sin (2 * PI * (0.25 * breathing_speed)
                              * (INR t * 0.1))))%R
                  (seq 0 101)) as -> by congruence.
      apply list_elem_of_In, in_map_iff in Hk as (t & <- & _).
      cbn [value time].
      destruct (breathing_bounds depth
                  (2 * PI * (0.25 * breathing_speed) * (INR t * 0.1))%R
                  Hd0 Hd1) as [? ?].
      by split_and!.
    + rewrite (proj2 (breathing_curve_outcome depth breathing_speed))
        in Hrun by lra.
      discriminate Hrun.
Qed.

Lemma C5_curve_values_in_range_witness :
  let g : rng := λ _, (1 # 2)%Q in
  ∃ kfs,
    _create_head_rotation_curve "y" [-30; 30]%R = Ok kfs ∧
    ∀ k, k ∈ kfs → (-30 <= value k)%R ∧ (value k <= 30)%R.
Proof.
  intros g.
  assert (Hg : rng_ok g) by (intros n; unfold g, Qle, Qlt; simpl; lia).
  assert (H1 : ¬ (1 == 0)%Q) by (intros H; discriminate H).
  assert (H8 : (8 ≤ 8)%nat) by lia.
  assert (Hr : (-30 <= 30)%R) by lra.
  assert (Hd0 : (0 <= 1)%R) by lra.
  assert (Hd1 : (1 <= 1)%R) by lra.
  destruct (C5_curve_values_in_range 8 1 true g "y" (-30) 30 1 1
              Hg H1 H8 Hr Hd0 Hd1)
    as (_ & _ & _ & (kfs & Hrun & Hin) & _).
  exists kfs. split; [exact Hrun|].
  intros k Hk. destruct (Hin k Hk) as (? & ? & _). by split.
Defined.

(** C6.  The head rotation curve of an axis with range [min, max] has
    101 keyframes, one at every [t = k * 0.1] for [k = 0 .. 100], with
    the value [mid + amplitude * sin(2 * pi * frequency * t + phase)].
    The frequencies are 0.2, 0.15 and 0.1 Hz for x, y and z and the
    phases 0, 1.57 and 3.14 rad: within 0.001 rad of a quarter turn and
    0.002 rad of a half turn. *)
Theorem C6_head_rotation_samples (axis : string) (min_val max_val : R)
    (k : nat) :
  (k ≤ 100)%nat →
  let mid := ((min_val + max_val) / 2)%R in
  let amplitude := ((max_val - min_val) / 2)%R in
  let frequency := (axis_wave axis).1 in
  let phase := (axis_wave axis).2 in
  let t := (INR k * 0.1)%R in
  (∃ kfs,
     _create_head_rotation_curve axis [min_val; max_val] = Ok kfs ∧
     length kfs = (Z.to_nat (Int_part (10.0 / 0.1)) + 1)%nat ∧
     length kfs = 101%nat ∧
     kfs !! k
     = Some (Keyframe t
               (mid + amplitude * sin (2 * PI * frequency * t + phase))%R)) ∧
  (axis_wave "x" = (0.2, 0.0)%R ∧
   axis_wave "y" = (0.15, 1.57)%R ∧
   axis_wave "z" = (0.1, 3.14)%R) ∧
  ((axis_wave "z").1 < (axis_wave "y").1)%R ∧
  ((axis_wave "y").1 < (axis_wave "x").1)%R ∧
  (Rabs ((axis_wave "y").2 - (axis_wave "x").2 - PI / 2) < 0.001)%R ∧
  (Rabs ((axis_wave "z").2 - (axis_wave "x").2 - PI) < 0.002)%R.
Proof.
  intros Hk. cbv zeta. pose proof PI_lower. pose proof PI_upper.
  split; [|split; [split_and!; reflexivity|]].
  - rewrite head_rotation_curve_eq. eexists. split; [reflexivity|].
    split_and!.
    + pose proof sample_indices_10 as Hs. unfold sample_indices in Hs.
      apply (f_equal length) in Hs. rewrite !length_seq in Hs.
      by rewrite length_map, length_seq.
    + by rewrite length_map, length_seq.
    + change (map ?f ?l) with (f <$> l).
      rewrite list_lookup_fmap, lookup_seq_lt by lia. reflexivity.
  - split_and!; simpl; try apply Rabs_def1; lra.
Qed.

Lemma C6_head_rotation_samples_witness :
  (25 ≤ 100)%nat ∧
  ∃ kfs,
    _create_head_rotation_curve "y" [-30; 30]%R = Ok kfs ∧
    kfs !! 25%nat
    = Some (Keyframe (INR 25 * 0.1)%R
              ((-30 + 30) / 2
               + (30 - -30) / 2
                 * sin (2 * PI * 0.15 * (INR 25 * 0.1) + 1.57))%R).
Proof.
  assert (H25 : (25 ≤ 100)%nat) by lia.
  split; [exact H25|].
  destruct (C6_head_rotation_samples "y" (-30) 30 25 H25)
    as [(kfs & Hrun & _ & _ & Hk) _].
  exists kfs. split; [exact Hrun|exact Hk].
Defined.

(** * Further properties *)

(** ** Colour hints and the SAM path *)

Lemma hierarchy_names p :
  is_Some (part_hierarchy !! p) →
  p ∈ [ "background"; "hair_back"; "body"; "arm_left"; "arm_right";
        "leg_left"; "leg_right"; "face"; "eye_white_left";
        "eye_white_right"; "iris_left"; "iris_right"; "highlight_left";
        "highlight_right"; "eyebrows_left"; "eyebrows_right"; "nose";
        "mouth"; "upper_lip"; "lower_lip"; "hair_side"; "hair_front";
        "accessories" ].
Proof.
  intros [r Hr]. apply elem_of_list_to_map_2 in Hr.
  apply (list_elem_of_fmap_2 fst) in Hr. exact Hr.
Qed.

(** X1.  Of the parts of the hierarchy, the colour lookup finds no hints for
    background, eye_white_left and eye_white_right, and only for them:
    the table has an entry [eye_white], but the base name of these parts
    is [eye].  Without hints [_segment_with_sam] returns no mask,
    whatever the image and the predictor. *)
Theorem sam_hints_missing (p : string) :
  is_Some (part_hierarchy !! p) →
  (color_hints p = None
   ↔ p ∈ ["background"; "eye_white_left"; "eye_white_right"]) ∧
  (color_hints p = None →
   ∀ loaded predict_masks np_image,
     _segment_with_sam loaded predict_masks np_image p = []).
Proof.
  intros Hp. split.
  - apply hierarchy_names in Hp.
    repeat (apply elem_of_cons in Hp as [->|Hp];
            [vm_compute (color_hints _);
             rewrite !elem_of_cons, elem_of_nil;
             split; [try discriminate; tauto|];
             try reflexivity;
             intros [H|[H|[H|[]]]]; discriminate H|]).
    by apply elem_of_nil in Hp.
  - intros Hnone loaded predict_masks np_image.
    unfold _segment_with_sam. rewrite Hnone. by destruct loaded.
Qed.

Lemma sam_hints_missing_witness :
  is_Some (part_hierarchy !! "eye_white_left") ∧
  color_hints "eye_white_left" = None ∧
  color_hints "iris_left" = Some [(100, 150, 200); (50, 200, 50)]%Z.
Proof.
  assert (H : is_Some (part_hierarchy !! "eye_white_left")) by (by eexists).
  split; [exact H|]. split; [|reflexivity].
  apply (proj1 (sam_hints_missing "eye_white_left" H)).
  apply list_elem_of_further, list_elem_of_here.
Defined.

(** ** Which parts [separate] keeps *)

Section layers_facts.
Context (_segment_with_sam : image → string → list mask).
Context (GaussianBlur : list (list Z) → list (list Z)).
Context (cfg : layers_config).

Lemma segment_loop_NoDup (img : image) (ps : list string)
    (acc : list (string * image)) :
  NoDup (dict_keys acc) →
  NoDup (dict_keys
    (foldl (λ layers part_name,
              match _segment_part _segment_with_sam GaussianBlur cfg
                      img part_name with
              | Some segmented_part =>
                  dict_set part_name segmented_part layers
              | None => layers
              end) acc ps)).
Proof.
  revert acc. induction ps as [|q ps IH]; intros acc Hacc; simpl; [done|].
  apply IH. destruct (_segment_part _ _ _ _ q); [|done].
  by apply dict_set_NoDup.
Qed.

Lemma segment_loop_filter (img : image) (ps : list string)
    (acc : list (string * image)) :
  NoDup ps → (∀ p, p ∈ ps → p ∉ dict_keys acc) →
  dict_keys
    (foldl (λ layers part_name,
              match _segment_part _segment_with_sam GaussianBlur cfg
                      img part_name with
              | Some segmented_part =>
                  dict_set part_name segmented_part layers
              | None => layers
              end) acc ps)
  = dict_keys acc
    ++ filter (λ p, is_Some (_segment_part _segment_with_sam GaussianBlur
                               cfg img p)) ps.
Proof.
  revert acc. induction ps as [|q ps IH]; intros acc Hps Hacc; simpl.
  - by rewrite app_nil_r.
  - apply NoDup_cons in Hps as [Hq Hps]. rewrite filter_cons.
    destruct (_segment_part _ _ _ _ q) as [v|] eqn:Hv.
    + rewrite decide_True by by eexists.
      rewrite IH; [|done|].
      * rewrite dict_keys_set, decide_False
          by (apply Hacc, list_elem_of_here).
        by rewrite <- app_assoc.
      * intros p Hp. rewrite dict_set_elem. intros [->|Hin]; [done|].
        by apply (Hacc p); [apply list_elem_of_further|].
    + rewrite decide_False by by intros [? ?].
      apply IH; [done|]. intros p Hp. by apply Hacc, list_elem_of_further.
Qed.
End layers_facts.

(** X2.  The layers dict never lists a part twice, and every part in it was
    requested or is the filled background.  When the requested parts
    are distinct, the segmented layers are exactly the parts that have
    a candidate mask, in the order of the request. *)
Theorem separate_layers_keys
    (_segment_with_sam : image → string → list mask)
    (GaussianBlur : list (list Z) → list (list Z))
    (cfg : layers_config) (no_bg_image : image) :
  let layers := segment_parts _segment_with_sam GaussianBlur cfg no_bg_image in
  let all_layers :=
    if fill_background cfg
    then dict_set "background"
           (new_image no_bg_image (background_color cfg)) layers
    else layers in
  NoDup (dict_keys all_layers) ∧
  (∀ p, p ∈ dict_keys all_layers →
        p ∈ parts cfg ∨ (p = "background" ∧ fill_background cfg = true)) ∧
  (NoDup (parts cfg) →
   dict_keys layers
   = filter (λ p, candidate_masks _segment_with_sam cfg no_bg_image p ≠ [])
       (parts cfg)).
Proof.
  intros layers all_layers.
  assert (Hnd : NoDup (dict_keys layers)).
  { apply segment_loop_NoDup. constructor. }
  split_and!.
  - unfold all_layers. destruct (fill_background cfg); [|done].
    by apply dict_set_NoDup.
  - intros p. unfold all_layers. destruct (fill_background cfg).
    + rewrite dict_set_elem. intros [->|Hp]; [by right|].
      left. by apply segment_parts_keys in Hp as [? _].
    + intros Hp. left. by apply segment_parts_keys in Hp as [? _].
  - intros Hparts. unfold layers, segment_parts.
    rewrite segment_loop_filter; [|done|by intros p _ ?%elem_of_nil].
    simpl. apply list_filter_iff. intros p. apply segment_part_Some.
Qed.

(** X3.  Without SAM (any model other than segment_anything) a part gets a
    layer exactly when its name contains eye, mouth or hair, and what
    the SAM collaborator would return plays no part. *)
Theorem fallback_only_without_sam
    (_segment_with_sam : image → string → list mask)
    (GaussianBlur : list (list Z) → list (list Z))
    (cfg : layers_config) (np_image : image) (part_name : string) :
  segmentation_model cfg ≠ "segment_anything" →
  (is_Some (_segment_part _segment_with_sam GaussianBlur cfg np_image
              part_name)
   ↔ str_in "eye" part_name || str_in "mouth" part_name
     || str_in "hair" part_name = true) ∧
  _segment_part _segment_with_sam GaussianBlur cfg np_image part_name
  = _segment_part (λ _ _, []) GaussianBlur cfg np_image part_name.
Proof.
  intros Hmodel.
  assert (Hcand : ∀ sam, candidate_masks sam cfg np_image part_name
                         = fallback_masks np_image part_name).
  { intros sam. unfold candidate_masks. by rewrite decide_False. }
  split.
  - rewrite segment_part_Some, Hcand. unfold fallback_masks.
    destruct (str_in "eye" part_name); [done|].
    destruct (str_in "mouth" part_name); [done|].
    destruct (str_in "hair" part_name); done.
  - unfold _segment_part. by rewrite !Hcand.
Qed.

Lemma fallback_only_without_sam_witness :
  let cfg := {| segmentation_model := "u2net"; refine_edges := false;
                parts := ["eyebrows_left"]; fill_background := false;
                background_color := (0, 0, 0, 0)%Z; export_psd := false |} in
  segmentation_model cfg ≠ "segment_anything" ∧
  is_Some (_segment_part (λ _ _, [ [[true]] ]) (λ a, a) cfg
             [[(1, 2, 3, 255)%Z]] "eyebrows_left").
Proof.
  intros cfg.
  assert (H : segmentation_model cfg ≠ "segment_anything") by done.
  split; [exact H|].
  apply (proj1 (fallback_only_without_sam (λ _ _, [ [[true]] ]) (λ a, a) cfg
                  [[(1, 2, 3, 255)%Z]] "eyebrows_left" H)).
  reflexivity.
Defined.

(** ** The background layer *)

Lemma rank_positive p : p ≠ "background" → (0 < rankOf p)%Z.
Proof.
  intros Hp. unfold rankOf.
  destruct (part_hierarchy !! p) as [r|] eqn:Hr; simpl; [|lia].
  apply elem_of_list_to_map_2 in Hr.
  repeat (apply elem_of_cons in Hr as [Hr|Hr];
          [injection Hr as -> ->; first [done|lia]|]).
  by apply elem_of_nil in Hr.
Qed.

Lemma sorted_head_least `{EqDecision A} (key : A → Z) (l : list A) (x : A) :
  x ∈ l → (∀ y, y ∈ l → y ≠ x → (key x < key y)%Z) →
  head (sorted key false l) = Some x.
Proof.
  intros Hx Hleast.
  pose proof (sorted_perm key false l) as Hperm.
  pose proof (sorted_sorted key false l) as Hsorted.
  destruct (sorted key false l) as [|h t].
  { rewrite <- Hperm in Hx. by apply elem_of_nil in Hx. }
  simpl. f_equal. destruct (decide (h = x)) as [|Hne]; [done|exfalso].
  assert (Hh : h ∈ l) by (rewrite <- Hperm; apply list_elem_of_here).
  pose proof (Hleast h Hh Hne) as Hlt.
  rewrite <- Hperm in Hx. apply elem_of_cons in Hx as [->|Hx]; [done|].
  apply StronglySorted_inv in Hsorted as [_ Hall].
  rewrite Forall_forall in Hall. specialize (Hall x Hx).
  unfold le_key, key_le in Hall. lia.
Qed.

Lemma create_psd_new (ext : externals) (p0 : string) (first_image : image)
    (rest : list (string * image)) :
  psd_tools ext = true →
  let run := _create_psd ext ((p0, first_image) :: rest) in
  ∃ tail,
    run.1 = PsdNew (width first_image) (height first_image) :: tail ∧
    ∀ e, PSDImage_new ext (width first_image) (height first_image) = Raise e →
         tail = [] ∧
         run.2 = match e with ImportError => Ok tt | _ => Raise e end.
Proof.
  intros Hlib run. unfold run, _create_psd.
  rewrite except_ImportError_effects, except_ImportError_result, Hlib.
  rewrite io_bind_effects, io_bind_result. cbn [perform fst snd].
  eexists. split; [reflexivity|]. intros e ->. split; [done|].
  by destruct e.
Qed.

Section separate_export.
Context (_segment_with_sam : image → string → list mask).
Context (GaussianBlur : list (list Z) → list (list Z)).
Context (cfg : layers_config) (ext : externals).

Lemma segment_parts_nil (no_bg_image : image) :
  segment_parts _segment_with_sam GaussianBlur cfg no_bg_image = [] ↔
  ∀ p, p ∈ parts cfg →
       candidate_masks _segment_with_sam cfg no_bg_image p = [].
Proof.
  set (segmented := segment_parts _ _ _ _). split.
  - intros Hnil p Hp.
    destruct (candidate_masks _ cfg no_bg_image p) eqn:E; [done|exfalso].
    assert (p ∈ dict_keys segmented) as Hin.
    { apply segment_parts_keys. split; [done|].
      apply segment_part_Some. by rewrite E. }
    rewrite Hnil in Hin. by apply elem_of_nil in Hin.
  - intros Hall. destruct segmented as [|[p v] rest] eqn:E; [done|exfalso].
    assert (p ∈ dict_keys segmented) as Hin
      by (rewrite E; apply list_elem_of_here).
    apply segment_parts_keys in Hin as [Hp Hs].
    apply segment_part_Some in Hs. by apply Hs, Hall.
Qed.
End separate_export.

(** X4.  On a run in which the model load, the making of the directory,
    the background removal and the file writes succeed, [fill_background]
    makes [separate] write a background image of the shape of the image,
    filled with the configured colour; with the export on and
    [psd_tools] there the run gets to [PSDImage.new] (it cannot stop for
    want of layers); and whenever a layer is handed to the PSD library,
    the first one is that background, which is so the rearmost layer of
    the stack when the library returns. *)
Theorem background_layer_first
    (_segment_with_sam : image → string → list mask)
    (GaussianBlur : list (list Z) → list (list Z))
    (cfg : layers_config) (ext : externals)
    (image_path : string) (no_bg_image : image) :
  (sam_predictor ext = false → _load_model ext = Ok tt) →
  mkdir ext = Ok tt →
  _remove_background ext image_path = Ok no_bg_image →
  (∀ file_name i, save ext file_name i = Ok tt) →
  fill_background cfg = true →
  let run := separate _segment_with_sam GaussianBlur cfg ext image_path in
  let bg := map (map (λ _, background_color cfg)) no_bg_image in
  SaveBackground bg ∈ run.1 ∧
  (export_psd cfg = true → psd_tools ext = true →
   ∃ w h, PsdNew w h ∈ run.1) ∧
  (∀ l, head (psd_stack run.1) = Some l → l = ("background", bg)) ∧
  (export_psd cfg = true → psd_tools ext = true →
   (∀ w h, PSDImage_new ext w h = Ok tt) →
   (∀ p img, create_layer ext p img = Ok tt) →
   head (psd_stack run.1) = Some ("background", bg) ∧
   (psd_save ext = Ok tt → run.2 = Ok (output_subdir ext))).
Proof.
  intros Hload Hmkdir Hrm Hsave Hfill run bg.
  pose proof (separate_run _segment_with_sam GaussianBlur cfg ext
                image_path no_bg_image Hload Hmkdir Hrm Hsave) as Hrun.
  destruct (separate_run_layers _segment_with_sam GaussianBlur cfg ext
              image_path no_bg_image Hload Hmkdir Hrm Hsave)
    as (_ & Hpsd & _).
  cbv zeta in Hrun, Hpsd. fold run in Hrun, Hpsd.
  rewrite Hfill in Hrun, Hpsd.
  set (layers := dict_set "background" _ _) in *.
  change (new_image no_bg_image (background_color cfg)) with bg in *.
  assert (Hget : dict_get "background" layers = Some bg)
    by apply dict_get_set_eq.
  assert (Hin : "background" ∈ dict_keys layers).
  { apply dict_get_Some_keys. by rewrite Hget. }
  assert (Hne : layers ≠ []).
  { intros E. rewrite E in Hin. by apply elem_of_nil in Hin. }
  assert (Hhead : head (ordered_parts layers) = Some "background").
  { apply sorted_head_least; [done|].
    intros y _ Hy. change (rankOf "background") with 0%Z.
    by apply rank_positive. }
  destruct (create_psd_run ext layers)
    as (stack & Hstack & _ & Hpre & Hstk & Hall).
  assert (Hfirst : ∀ l, head stack = Some l → l = ("background", bg)).
  { intros [p img] Hl. destruct stack as [|l' stack']; [done|].
    injection Hl as ->. destruct Hpre as [k Hk]. csimpl in Hk.
    rewrite Hk in Hhead. injection Hhead as ->.
    specialize (Hstk "background" img (list_elem_of_here _ _)).
    rewrite Hget in Hstk. by injection Hstk as <-. }
  split_and!.
  - rewrite Hrun. destruct (export_psd cfg); cbn [fst];
      rewrite !elem_of_app, !elem_of_cons; tauto.
  - intros Hexport Hlib. rewrite Hrun, Hexport. cbn [fst].
    destruct layers as [|[p0 first_image] rest] eqn:E; [done|].
    destruct (create_psd_new ext p0 first_image rest Hlib) as (tail & -> & _).
    exists (width first_image), (height first_image).
    rewrite !elem_of_app, !elem_of_cons. tauto.
  - intros l. rewrite Hpsd.
    destruct (export_psd cfg); [|done]. rewrite Hstack. apply Hfirst.
  - intros Hexport Hlib Hnew Hcreate.
    destruct (Hall Hlib Hne Hnew Hcreate) as [Hfull Hres].
    rewrite Hpsd, Hexport, Hstack. split.
    + destruct stack as [|l stack'].
      { rewrite <- Hfull in Hhead. done. }
      simpl. f_equal. by apply Hfirst.
    + intros Hps. rewrite Hrun, Hexport. cbn [snd].
      by rewrite Hres, Hps.
Qed.

Lemma background_layer_first_witness :
  let cfg := {| segmentation_model := "u2net"; refine_edges := false;
                parts := ["hair_front"; "background"];
                fill_background := true;
                background_color := (255, 255, 255, 255)%Z;
                export_psd := true |} in
  let img : image := [[(1, 2, 3, 255)]; [(4, 5, 6, 255)]]%Z in
  let ext := {| sam_predictor := true; _load_model := Ok tt;
                mkdir := Ok tt; _remove_background := λ _, Ok img;
                save := λ _ _, Ok tt; psd_tools := true;
                PSDImage_new := λ _ _, Ok tt;
                create_layer := λ _ _, Ok tt; psd_save := Ok tt;
                output_subdir := "layers_0" |} in
  let run := separate (λ _ _, []) (λ a, a) cfg ext "character.png" in
  head (psd_stack run.1)
  = Some ("background",
          [[(255, 255, 255, 255)]; [(255, 255, 255, 255)]]%Z) ∧
  run.2 = Ok "layers_0".
Proof.
  intros cfg img ext run.
  destruct (background_layer_first (λ _ _, []) (λ a, a) cfg ext
              "character.png" img ltac:(done) eq_refl eq_refl
              ltac:(done) eq_refl)
    as (_ & _ & _ & Hfull).
  destruct Hfull as [Hhead Hres]; [done..|].
  split; [exact Hhead|by apply Hres].
Defined.

(** X5.  On a run in which the model load, the making of the directory,
    the background removal and the file writes succeed, the part images
    are written and what follows is decided by the PSD export.  Without
    the export, or without [psd_tools], [separate] returns its
    directory.  With both and no layer at all (no background fill, no
    requested part with a candidate mask) it raises [StopIteration]
    before any call into the library.  Otherwise it calls
    [PSDImage.new]; when that call raises, no layer is handed over, and
    the exception leaves [separate], unless it is an [ImportError],
    which is swallowed. *)
Theorem separate_outcome
    (_segment_with_sam : image → string → list mask)
    (GaussianBlur : list (list Z) → list (list Z))
    (cfg : layers_config) (ext : externals)
    (image_path : string) (no_bg_image : image) :
  (sam_predictor ext = false → _load_model ext = Ok tt) →
  mkdir ext = Ok tt →
  _remove_background ext image_path = Ok no_bg_image →
  (∀ file_name i, save ext file_name i = Ok tt) →
  let run := separate _segment_with_sam GaussianBlur cfg ext image_path in
  let no_layer :=
    fill_background cfg = false ∧
    ∀ p, p ∈ parts cfg →
         candidate_masks _segment_with_sam cfg no_bg_image p = [] in
  saved_parts run.1
  = omap (λ p, (λ l, (p, l))
                 <$> _segment_part _segment_with_sam GaussianBlur cfg
                       no_bg_image p) (parts cfg) ∧
  (export_psd cfg = false ∨ psd_tools ext = false →
   run.2 = Ok (output_subdir ext) ∧
   psd_stack run.1 = [] ∧ ∀ w h, PsdNew w h ∉ run.1) ∧
  (export_psd cfg = true → psd_tools ext = true → no_layer →
   run.2 = Raise StopIteration ∧
   psd_stack run.1 = [] ∧ ∀ w h, PsdNew w h ∉ run.1) ∧
  (export_psd cfg = true → psd_tools ext = true → ¬ no_layer →
   ∃ w h,
     PsdNew w h ∈ run.1 ∧
     ∀ e, PSDImage_new ext w h = Raise e →
          psd_stack run.1 = [] ∧
          run.2 = match e with
                  | ImportError => Ok (output_subdir ext)
                  | _ => Raise e
                  end).
Proof.
  intros Hload Hmkdir Hrm Hsave run no_layer.
  pose proof (separate_run _segment_with_sam GaussianBlur cfg ext
                image_path no_bg_image Hload Hmkdir Hrm Hsave) as Hrun.
  destruct (separate_run_layers _segment_with_sam GaussianBlur cfg ext
              image_path no_bg_image Hload Hmkdir Hrm Hsave)
    as (Hsaved & Hpsd & Hret).
  cbv zeta in Hrun, Hpsd. fold run in Hrun, Hpsd, Hsaved, Hret.
  set (segmented :=
         segment_parts _segment_with_sam GaussianBlur cfg no_bg_image) in *.
  set (layers :=
         if fill_background cfg
         then dict_set "background"
                (new_image no_bg_image (background_color cfg)) segmented
         else segmented) in *.
  assert (Hwritten : ∀ w h,
    PsdNew w h ∉
      (if sam_predictor ext then [] else [LoadModel])
      ++ [MakeOutputDir; RemoveBackground image_path;
          SaveNoBackground no_bg_image]
      ++ ((λ l, SavePart l.1 l.2)
            <$> omap (λ p, (λ l, (p, l))
                             <$> _segment_part _segment_with_sam
                                   GaussianBlur cfg no_bg_image p)
                  (parts cfg))
      ++ (if fill_background cfg
          then [SaveBackground
                  (new_image no_bg_image (background_color cfg))]
          else [])).
  { intros w h. rewrite !elem_of_app, !elem_of_cons, list_elem_of_fmap.
    intros [Hin|[Hin|[Hin|Hin]]].
    - destruct (sam_predictor ext); [by apply elem_of_nil in Hin|].
      by apply list_elem_of_singleton in Hin.
    - destruct Hin as [|[|[|Hin]]]; [done..|by apply elem_of_nil in Hin].
    - by destruct Hin as (? & ? & _).
    - destruct (fill_background cfg); [|by apply elem_of_nil in Hin].
      by apply list_elem_of_singleton in Hin. }
  assert (Hlayers : layers = [] ↔ no_layer).
  { unfold layers, no_layer. rewrite <- segment_parts_nil. fold segmented.
    destruct (fill_background cfg) eqn:Hfill;
      [|split; [done|by intros [_ ?]]].
    split; [|by intros [? _]]. intros E.
    assert ("background" ∈ dict_keys
              (dict_set "background"
                 (new_image no_bg_image (background_color cfg)) segmented))
      as Hin by (apply dict_set_elem; by left).
    rewrite E in Hin. by apply elem_of_nil in Hin. }
  split; [exact Hsaved|]. split_and!.
  - intros Hno. rewrite Hpsd, Hrun.
    destruct (export_psd cfg) eqn:Hexport; [|by split_and!].
    destruct Hno as [|Hlib]; [done|].
    unfold _create_psd. rewrite Hlib. cbn. rewrite app_nil_r.
    by split_and!.
  - intros Hexport Hlib Hno. apply Hlayers in Hno.
    rewrite Hpsd, Hrun, Hexport, Hno. unfold _create_psd. rewrite Hlib.
    cbn. rewrite app_nil_r. by split_and!.
  - intros Hexport Hlib Hsome. rewrite <- Hlayers in Hsome.
    destruct layers as [|[p0 first_image] rest] eqn:E; [done|].
    destruct (create_psd_new ext p0 first_image rest Hlib)
      as (tail & Htail & Hraise).
    exists (width first_image), (height first_image).
    rewrite Hpsd, Hrun, Hexport. cbn [fst snd]. rewrite Htail. split.
    + rewrite !elem_of_app, !elem_of_cons. tauto.
    + intros e He. destruct (Hraise e He) as [-> ->].
      split; [done|]. by destruct e.
Qed.

(** A library whose [PSDImage.new] does not take the keyword arguments
    it is called with: the part image is written, and the [TypeError]
    leaves [separate]. *)
Lemma separate_outcome_witness :
  let cfg := {| segmentation_model := "u2net"; refine_edges := false;
                parts := ["hair_front"];
                fill_background := false;
                background_color := (255, 255, 255, 255)%Z;
                export_psd := true |} in
  let img : image := [[(1, 2, 3, 255)]; [(4, 5, 6, 255)]]%Z in
  let ext := {| sam_predictor := true; _load_model := Ok tt;
                mkdir := Ok tt; _remove_background := λ _, Ok img;
                save := λ _ _, Ok tt; psd_tools := true;
                PSDImage_new := λ _ _, Raise TypeError;
                create_layer := λ _ _, Ok tt; psd_save := Ok tt;
                output_subdir := "layers_0" |} in
  let run := separate (λ _ _, []) (λ a, a) cfg ext "character.png" in
  (saved_parts run.1).*1 = ["hair_front"] ∧
  run.2 = Raise TypeError.
Proof.
  intros cfg img ext run.
  destruct (separate_outcome (λ _ _, []) (λ a, a) cfg ext
              "character.png" img ltac:(done) eq_refl eq_refl ltac:(done))
    as (Hsaved & _ & _ & Hnew).
  unfold run. split; [by rewrite Hsaved|].
  destruct Hnew as (w & h & _ & Hraise); [done..| |].
  { intros [_ Hnone]. specialize (Hnone "hair_front").
    by specialize (Hnone (list_elem_of_here _ _)). }
  by destruct (Hraise TypeError eq_refl) as [_ ->].
Defined.

(** X6.  The background part has no colour hint and no fallback box, and the
    eye whites have no colour hint: whatever the model, the predictor
    and the image, the background layer can only come from
    [fill_background], and the eye whites always get the fallback eye
    box. *)
Theorem unhinted_parts
    (loaded : bool) (predict_masks : image → list color → list mask)
    (GaussianBlur : list (list Z) → list (list Z))
    (cfg : layers_config) (np_image : image) :
  let sam := _segment_with_sam loaded predict_masks in
  let h := height np_image in
  let w := width np_image in
  _segment_part sam GaussianBlur cfg np_image "background" = None ∧
  ("background" ∉ dict_keys (segment_parts sam GaussianBlur cfg np_image)) ∧
  candidate_masks sam cfg np_image "eye_white_left"
  = [box_mask h w (h / 4) (h / 2) (w / 4) (3 * w / 4)] ∧
  candidate_masks sam cfg np_image "eye_white_right"
  = [box_mask h w (h / 4) (h / 2) (w / 4) (3 * w / 4)].
Proof.
  intros sam h w.
  assert (Hcand : ∀ p, color_hints p = None →
            candidate_masks sam cfg np_image p = fallback_masks np_image p).
  { intros p Hp. unfold candidate_masks, sam, _segment_with_sam.
    rewrite Hp. destruct (decide _); [|done]. by destruct loaded. }
  assert (Hbg : _segment_part sam GaussianBlur cfg np_image "background"
                = None).
  { unfold _segment_part. by rewrite Hcand. }
  split_and!; [done| |by rewrite Hcand|by rewrite Hcand].
  rewrite segment_parts_keys, Hbg. by intros [_ [? ?]].
Qed.

(** ** The pixels of a fallback layer *)

Lemma mask_at_box h w top bottom left right y x :
  mask_at (box_mask h w top bottom left right) y x
  = bool_decide (y < h)%nat && bool_decide (x < w)%nat
    && (bool_decide (top ≤ y < bottom)%nat
        && bool_decide (left ≤ x < right)%nat).
Proof.
  unfold mask_at, box_mask, mask.
  change (map ?f (seq 0 h)) with (f <$> seq 0 h).
  rewrite list_lookup_fmap.
  destruct (decide (y < h)%nat) as [Hy|Hy].
  - rewrite lookup_seq_lt, (bool_decide_eq_true_2 (y < h)%nat) by done.
    simpl. change (map ?f (seq 0 w)) with (f <$> seq 0 w).
    rewrite list_lookup_fmap.
    destruct (decide (x < w)%nat) as [Hx|Hx].
    + by rewrite lookup_seq_lt, (bool_decide_eq_true_2 (x < w)%nat) by done.
    + by rewrite lookup_seq_ge, (bool_decide_eq_false_2 (x < w)%nat) by lia.
  - by rewrite lookup_seq_ge, (bool_decide_eq_false_2 (y < h)%nat) by lia.
Qed.

Lemma selected_mask_single (m : mask) : selected_mask [m] = Some m.
Proof. reflexivity. Qed.

(** X7.  A part segmented by the fallback alone gets a layer of the shape of
    the image in which a pixel is the source pixel made opaque inside
    the box of its kind (eye: rows h/4 .. h/2, columns w/4 .. 3w/4;
    mouth: rows h/2 .. 3h/4, columns w/3 .. 2w/3; hair: the rows above
    h/2) and transparent black outside. *)
Theorem fallback_layer_pixels
    (_segment_with_sam : image → string → list mask)
    (GaussianBlur : list (list Z) → list (list Z))
    (cfg : layers_config) (np_image : image) (part_name : string)
    (y x : nat) (row : list pixel) (px : pixel) :
  (segmentation_model cfg ≠ "segment_anything"
   ∨ _segment_with_sam np_image part_name = []) →
  refine_edges cfg = false →
  str_in "eye" part_name || str_in "mouth" part_name
    || str_in "hair" part_name = true →
  np_image !! y = Some row → row !! x = Some px →
  (x < width np_image)%nat →
  let h := height np_image in
  let w := width np_image in
  let in_box :=
    if str_in "eye" part_name
    then bool_decide ((h / 4 ≤ y < h / 2)%nat
                      ∧ (w / 4 ≤ x < 3 * w / 4)%nat)
    else if str_in "mouth" part_name
    then bool_decide ((h / 2 ≤ y < 3 * h / 4)%nat
                      ∧ (w / 3 ≤ x < 2 * w / 3)%nat)
    else bool_decide (y < h / 2)%nat in
  ∃ layer row',
    _segment_part _segment_with_sam GaussianBlur cfg np_image part_name
    = Some layer ∧
    length layer = h ∧
    layer !! y = Some row' ∧ length row' = length row ∧
    row' !! x = Some (if in_box
                      then let '(r, g, b, _) := px in (r, g, b, 255%Z)
                      else (0, 0, 0, 0)%Z).
Proof.
  intros Hsam Hrefine Hkind Hy Hx Hxw h w in_box.
  assert (Hyh : (y < h)%nat) by (by eapply lookup_lt_Some).
  assert (Hcand : candidate_masks _segment_with_sam cfg np_image part_name
                  = fallback_masks np_image part_name).
  { unfold candidate_masks. destruct (decide _) as [Hm|Hm]; [|done].
    by destruct Hsam as [?| ->]. }
  assert (Hfb : ∃ m, fallback_masks np_image part_name = [m] ∧
                     mask_at m y x = in_box).
  { unfold fallback_masks, in_box. fold h w.
    destruct (str_in "eye" part_name);
      [|destruct (str_in "mouth" part_name);
        [|destruct (str_in "hair" part_name); [|done]]];
      eexists; (split; [reflexivity|]);
      rewrite mask_at_box, !(bool_decide_eq_true_2 (_ < _)%nat) by done;
      cbn [andb]; rewrite <- bool_decide_and.
    - done.
    - done.
    - apply bool_decide_ext. unfold w. lia. }
  destruct Hfb as (m & Hm & Hat).
  destruct (apply_mask_lookup np_image m y x row px Hy Hx)
    as (Hlen & row' & Hrow & Hlen' & Hpx).
  exists (apply_mask np_image m), row'.
  unfold _segment_part. rewrite Hcand, Hm, selected_mask_single, Hrefine.
  rewrite <- Hat. by split_and!.
Qed.

Lemma fallback_layer_pixels_witness :
  let cfg := {| segmentation_model := "u2net"; refine_edges := false;
                parts := ["hair_front"]; fill_background := false;
                background_color := (0, 0, 0, 0)%Z; export_psd := false |} in
  let img : image := [[(1, 2, 3, 255)]; [(4, 5, 6, 255)]]%Z in
  _segment_part (λ _ _, []) (λ a, a) cfg img "hair_front"
  = Some [[(1, 2, 3, 255)]; [(0, 0, 0, 0)]]%Z.
Proof.
  intros cfg img.
  destruct (fallback_layer_pixels (λ _ _, []) (λ a, a) cfg img "hair_front"
              0 0 [(1, 2, 3, 255)%Z] (1, 2, 3, 255)%Z)
    as (layer & row' & Hpart & _); [by left|done..|vm_compute; lia|].
  rewrite Hpart. vm_compute in Hpart. by injection Hpart as <-.
Defined.

(** ** Blink: spacing, number and order of the keyframes *)

Section blink_spacing.
Open Scope Q_scope.

Lemma rng_ok_shift g k : rng_ok g → rng_ok (λ n, g (k + n)%nat).
Proof. intros Hg n. apply Hg. Qed.

(** The loop, started before the horizon: the cycles it emits, the
    spacing of their starts, and the draws it takes. *)
Lemma blink_loop_spaced fuel random_blink interval s g :
  rng_ok g → 2 <= interval → interval <= 6 → (0 < fuel)%nat →
  blink_total_time - current_time s
    <= 1.66 * (inject_Z (Z.of_nat fuel) - 1) →
  current_time s < blink_total_time →
  ∃ starts,
    blink_loop fuel random_blink interval s g
    = Ok (keyframes s ++ concat (map cycle_at (current_time s :: starts)),
          λ n, g ((if random_blink then S (length starts) else 0) + n)%nat) ∧
    spaced 1.4 7.8 (current_time s :: starts) ∧
    Forall (λ t, t < blink_total_time) starts ∧
    ∀ t, last (current_time s :: starts) = Some t →
         blink_total_time < cycle_end t + 7.8.
Proof.
  revert s g.
  induction fuel as [|fuel IH]; intros s g Hg Hlo Hhi Hpos Hfuel Hlt; [lia|].
  rewrite Nat2Z.inj_succ, <- Z.add_1_r, inject_Z_plus in Hfuel.
  change (inject_Z 1) with 1 in Hfuel.
  rewrite blink_loop_step by done. cbv zeta.
  pose proof (cycle_end_eq (current_time s)) as Hend.
  set (w := if random_blink
            then uniform (interval * 0.7) (interval * 1.3) g
            else (interval, g)).
  assert (Hw : 1.4 <= w.1 ∧ w.1 < 7.8 ∧
               w.2 = (λ n, g ((if random_blink then 1 else 0) + n)%nat)).
  { unfold w. destruct random_blink; [|cbn [fst snd]; split_and!; [lra..|done]].
    destruct (uniform_bounds (interval * 0.7) (interval * 1.3) g Hg)
      as (Hl & _ & Hg'); [lra|].
    pose proof (uniform_lt (interval * 0.7) (interval * 1.3) g Hg).
    split_and!; [lra|lra|exact Hg']. }
  destruct w as [wait_time g1]. cbn [fst snd] in Hw |- *.
  destruct Hw as (Hw1 & Hw2 & ->).
  set (s' := advance wait_time _).
  assert (Hs' : current_time s' = cycle_end (current_time s) + wait_time)
    by done.
  assert (Hfuel0 : (0 < fuel)%nat).
  { destruct fuel; [|lia]. change (inject_Z (Z.of_nat 0)) with 0 in Hfuel.
    unfold blink_total_time in *. lra. }
  destruct (Qlt_le_dec (current_time s') blink_total_time) as [Hnext|Hstop].
  - destruct (IH s' (λ n, g ((if random_blink then 1 else 0) + n)%nat))
      as (starts & Hrun & Hsp & Hall & Hlast);
      [by apply rng_ok_shift|done|done|done| |done|].
    { rewrite Hs'. lra. }
    exists (current_time s' :: starts). split_and!.
    + rewrite Hrun. f_equal. f_equal.
      * unfold s'. cbn [advance keyframes concat map].
        by rewrite <- app_assoc.
      * destruct random_blink; reflexivity.
    + cbn [spaced]. rewrite Hs' at 1 2. split_and!; [lra|lra|exact Hsp].
    + by constructor.
    + intros t Ht. apply Hlast. exact Ht.
  - exists []. split_and!.
    + destruct fuel as [|fuel']; [lia|].
      rewrite blink_loop_stop by done.
      unfold s'. cbn [advance keyframes concat map]. rewrite app_nil_r.
      by destruct random_blink.
    + done.
    + constructor.
    + intros t [= <-]. rewrite Hs' in Hstop. lra.
Qed.
End blink_spacing.

Section blink_order.
Open Scope Q_scope.

Lemma spaced_lower lo hi t l :
  spaced lo hi (t :: l) → 0 <= lo → Forall (λ u, cycle_end t + lo <= u) l.
Proof.
  revert t. induction l as [|t' l IH]; intros t Hsp Hlo; [constructor|].
  destruct Hsp as (Hgap & _ & Hsp). constructor; [done|].
  eapply Forall_impl; [exact (IH t' Hsp Hlo)|]. simpl. intros u Hu.
  pose proof (cycle_end_eq t'). lra.
Qed.

Lemma cycle_at_sorted t : StronglySorted time_lt (cycle_at t).
Proof.
  cbv beta iota delta
    [cycle_at blink_cycle emit advance current_time keyframes].
  cbn [app].
  repeat match goal with
         | |- StronglySorted _ (_ :: _) => apply SSorted_cons
         | |- StronglySorted _ [] => apply SSorted_nil
         | |- Forall _ (_ :: _) => apply List.Forall_cons
         | |- Forall _ [] => apply List.Forall_nil
         end;
    unfold time_lt; cbn [time]; lra.
Qed.

Lemma cycles_sorted lo hi starts :
  spaced lo hi starts → 0 < lo →
  StronglySorted time_lt (concat (map cycle_at starts)).
Proof.
  intros Hsp Hlo0. assert (Hlo : 0 <= lo) by lra.
  induction starts as [|t starts IH]; [constructor|].
  cbn [map concat]. apply StronglySorted_app_2.
  - intros a b Ha Hb. apply elem_of_cycles in Hb as (u & Hu & Hb).
    apply cycle_at_bounds in Ha as (_ & Ha & _).
    apply cycle_at_bounds in Hb as (Hb & _).
    pose proof (spaced_lower lo hi t starts Hsp Hlo) as Hall.
    rewrite Forall_forall in Hall. specialize (Hall u Hu).
    pose proof (cycle_end_eq t). unfold time_lt. lra.
  - apply cycle_at_sorted.
  - apply IH. destruct starts as [|t' starts]; [done|]. apply Hsp.
Qed.

Lemma spaced_index lo hi l i t0 t :
  spaced lo hi (t0 :: l) → 0 <= lo → (t0 :: l) !! i = Some t →
  t0 + (lo + 0.26) * inject_Z (Z.of_nat i) <= t.
Proof.
  revert l t0. induction i as [|i IH]; intros l t0 Hsp Hlo Hi.
  - injection Hi as <-. change (inject_Z (Z.of_nat 0)) with 0. lra.
  - destruct l as [|t1 l]; [done|]. destruct Hsp as (Hgap & _ & Hsp).
    specialize (IH l t1 Hsp Hlo Hi).
    rewrite Nat2Z.inj_succ, <- Z.add_1_r, inject_Z_plus.
    change (inject_Z 1) with 1. pose proof (cycle_end_eq t0). lra.
Qed.

Lemma cycles_length starts :
  length (concat (map cycle_at starts)) = (12 * length starts)%nat.
Proof.
  induction starts as [|t starts IH]; [done|].
  cbn [map concat]. rewrite length_app, IH.
  change (length (cycle_at t)) with 12%nat. simpl. lia.
Qed.

(** The curve as a whole, for both settings of [random_blink]. *)
Lemma blink_curve_spaced fuel speed random_blink g :
  rng_ok g → ¬ speed == 0 → (8 ≤ fuel)%nat →
  ∃ starts,
    _create_eye_blink_curve fuel speed random_blink g
    = Ok (concat (map cycle_at (0.0 :: starts)),
          λ n, g ((if random_blink then 2 + length starts else 0) + n)%nat) ∧
    spaced 1.4 7.8 (0.0 :: starts) ∧
    Forall (λ t, t < blink_total_time) starts ∧
    ∀ t, last (0.0 :: starts) = Some t →
         blink_total_time < cycle_end t + 7.8.
Proof.
  intros Hg Hspeed Hfuel. unfold _create_eye_blink_curve.
  destruct (Qeq_bool speed 0) eqn:Hz; [by apply Qeq_bool_iff in Hz|].
  set (i := if random_blink then uniform 2.0 6.0 g else (4.0, g)).
  assert (Hi : 2 <= i.1 ∧ i.1 <= 6 ∧
               i.2 = (λ n, g ((if random_blink then 1 else 0) + n)%nat)).
  { unfold i.
    destruct random_blink; [|cbn [fst snd]; split_and!; [lra..|done]].
    destruct (uniform_bounds 2.0 6.0 g Hg) as (Hl & Hh & Hg'); [lra|].
    split_and!; [lra|lra|exact Hg']. }
  destruct i as [interval g1]. cbn [fst snd] in Hi.
  destruct Hi as (Hi1 & Hi2 & ->).
  destruct (blink_loop_spaced fuel random_blink interval (BlinkState 0.0 [])
              (λ n, g ((if random_blink then 1 else 0) + n)%nat))
    as (starts & Hrun & Hsp & Hall & Hlast);
    [by apply rng_ok_shift|done|done|lia| |reflexivity|].
  { cbn [current_time]. unfold blink_total_time.
    assert (8 <= inject_Z (Z.of_nat fuel)).
    { change 8 with (inject_Z 8). rewrite <- Zle_Qle. lia. }
    lra. }
  exists starts. split_and!; [|done..].
  rewrite Hrun. cbn [keyframes current_time app].
  by destruct random_blink.
Qed.
End blink_order.

Lemma blink_cycle_count_aux fuel speed random_blink g :
  rng_ok g → ¬ (speed == 0)%Q → (8 ≤ fuel)%nat →
  ∃ starts,
    _create_eye_blink_curve fuel speed random_blink g
    = Ok (concat (map cycle_at starts),
          λ n, g ((if random_blink then 1 + length starts else 0) + n)%nat) ∧
    (2 ≤ length starts ≤ 7)%nat.
Proof.
  intros Hg Hspeed Hfuel.
  destruct (blink_curve_spaced fuel speed random_blink g Hg Hspeed Hfuel)
    as (starts & Hrun & Hsp & Hall & Hlast).
  exists (0.0%Q :: starts). split; [exact Hrun|]. split.
  - destruct starts as [|t starts]; [|simpl; lia]. exfalso.
    specialize (Hlast 0.0%Q eq_refl).
    pose proof (cycle_end_eq 0.0%Q).
    unfold blink_total_time in *. lra.
  - destruct (decide (length (0.0%Q :: starts) ≤ 7)%nat) as [|Hlong]; [done|].
    exfalso.
    destruct (lookup_lt_is_Some_2 (0.0%Q :: starts) 7) as [t Ht]; [lia|].
    pose proof (spaced_index 1.4 7.8 starts 7 0.0%Q t Hsp) as Hidx.
    assert (t < blink_total_time)%Q as Hlt.
    { rewrite Forall_forall in Hall. apply Hall.
      by eapply (list_elem_of_lookup_2 _ 6). }
    change (inject_Z (Z.of_nat 7)) with 7%Q in Hidx.
    unfold blink_total_time in *.
    assert (0.0 + (1.4 + 0.26) * 7 <= t)%Q by (apply Hidx; [lra|done]).
    lra.
Qed.

(** X8.  Whatever the generator draws, a blink curve has between two and
    seven whole cycles of twelve keyframes.  The first starts at 0 s;
    each next one starts at least 1.4 s and less than 7.8 s after the
    end of the one before.  A random curve takes one draw for the
    interval and one per cycle; a fixed one takes none. *)
Theorem blink_cycle_count (fuel : nat) (speed : Q) (random_blink : bool)
    (g : rng) :
  rng_ok g → ¬ (speed == 0)%Q → (8 ≤ fuel)%nat →
  ∃ starts kfs,
    _create_eye_blink_curve fuel speed random_blink g
    = Ok (kfs, λ n, g ((if random_blink then 1 + length starts else 0) + n)%nat)
    ∧ kfs = concat (map cycle_at starts) ∧
    head starts = Some 0.0%Q ∧
    spaced 1.4 7.8 starts ∧
    (2 ≤ length starts ≤ 7)%nat ∧
    length kfs = (12 * length starts)%nat.
Proof.
  intros Hg Hspeed Hfuel.
  destruct (blink_curve_spaced fuel speed random_blink g Hg Hspeed Hfuel)
    as (starts & Hrun & Hsp & Hall & Hlast).
  exists (0.0%Q :: starts), (concat (map cycle_at (0.0%Q :: starts))).
  split_and!; [exact Hrun|done|done|exact Hsp| | |apply cycles_length].
  - destruct starts as [|t starts]; [|simpl; lia]. exfalso.
    specialize (Hlast 0.0%Q eq_refl).
    pose proof (cycle_end_eq 0.0%Q).
    unfold blink_total_time in *. lra.
  - destruct (decide (length (0.0%Q :: starts) ≤ 7)%nat) as [|Hlong]; [done|].
    exfalso.
    destruct (lookup_lt_is_Some_2 (0.0%Q :: starts) 7) as [t Ht]; [lia|].
    pose proof (spaced_index 1.4 7.8 starts 7 0.0%Q t Hsp) as Hidx.
    assert (t < blink_total_time)%Q as Hlt.
    { rewrite Forall_forall in Hall. apply Hall.
      by eapply (list_elem_of_lookup_2 _ 6). }
    change (inject_Z (Z.of_nat 7)) with 7%Q in Hidx.
    unfold blink_total_time in *.
    assert (0.0 + (1.4 + 0.26) * 7 <= t)%Q by (apply Hidx; [lra|done]).
    lra.
Qed.

Lemma blink_cycle_count_witness :
  let g : rng := λ _, (1 # 2)%Q in
  (rng_ok g ∧ ¬ (1 == 0)%Q ∧ (8 ≤ 8)%nat) ∧
  ∃ (starts : list Q) kfs g',
    _create_eye_blink_curve 8 1 true g = Ok (kfs, g') ∧
    (2 ≤ length starts ≤ 7)%nat ∧
    length kfs = (12 * length starts)%nat.
Proof.
  intros g.
  assert (Hg : rng_ok g) by (intros n; unfold g, Qle, Qlt; simpl; lia).
  assert (H1 : ¬ (1 == 0)%Q) by (intros H; discriminate H).
  assert (H8 : (8 ≤ 8)%nat) by lia.
  split; [by split_and!|].
  destruct (blink_cycle_count 8 1 true g Hg H1 H8)
    as (starts & kfs & Hrun & _ & _ & _ & Hn & Hlen).
  exists starts, kfs. eexists. split; [exact Hrun|]. split; [exact Hn|exact Hlen].
Defined.

(** X9.  The keyframes of a blink curve are in strictly increasing order of
    time, starting with value 1.0 at time 0. *)
Theorem blink_times_increasing (fuel : nat) (speed : Q)
    (random_blink : bool) (g : rng) :
  rng_ok g → ¬ (speed == 0)%Q → (8 ≤ fuel)%nat →
  ∃ kfs,
    returned (_create_eye_blink_curve fuel speed random_blink g) = Ok kfs ∧
    kfs !! 0%nat = Some (Keyframe 0.0 1.0)%Q ∧
    ∀ i j ki kj,
      kfs !! i = Some ki → kfs !! j = Some kj → (i < j)%nat →
      (time ki < time kj)%Q.
Proof.
  intros Hg Hspeed Hfuel.
  destruct (blink_curve_spaced fuel speed random_blink g Hg Hspeed Hfuel)
    as (starts & Hrun & Hsp & _).
  exists (concat (map cycle_at (0.0%Q :: starts))).
  rewrite Hrun. split_and!; [done|done|].
  intros i j ki kj Hi Hj Hij.
  eapply (StronglySorted_lookup_lt time_lt); [|exact Hi|exact Hj|exact Hij].
  apply (cycles_sorted 1.4 7.8); [exact Hsp|lra].
Qed.

Lemma blink_times_increasing_witness :
  let g : rng := λ _, (1 # 2)%Q in
  (rng_ok g ∧ ¬ (1 == 0)%Q ∧ (8 ≤ 8)%nat) ∧
  ∃ kfs,
    returned (_create_eye_blink_curve 8 1 true g) = Ok kfs ∧
    kfs !! 0%nat = Some (Keyframe 0.0 1.0)%Q.
Proof.
  intros g.
  assert (Hg : rng_ok g) by (intros n; unfold g, Qle, Qlt; simpl; lia).
  assert (H1 : ¬ (1 == 0)%Q) by (intros H; discriminate H).
  assert (H8 : (8 ≤ 8)%nat) by lia.
  split; [by split_and!|].
  destruct (blink_times_increasing 8 1 true g Hg H1 H8)
    as (kfs & Hrun & H0 & _).
  exists kfs. split; [exact Hrun|exact H0].
Defined.

(** ** Lip-sync: order of the keyframes *)

Section lip_sync_order.
Open Scope Q_scope.

Lemma time_lt_trans : Transitive time_lt.
Proof. intros a b c. unfold time_lt. apply Qlt_trans. Qed.

Lemma lip_sync_sorted g :
  StronglySorted time_lt (_create_sample_lip_sync g).1.
Proof.
  apply (@Sorted_StronglySorted _ _ time_lt_trans).
  rewrite lip_sync_unfold. cbn [seq map concat app].
  repeat match goal with
         | |- Sorted _ (_ :: _) => apply Sorted_cons
         | |- Sorted _ [] => apply Sorted_nil
         | |- HdRel _ _ (_ :: _) => apply HdRel_cons
         | |- HdRel _ _ [] => apply HdRel_nil
         end;
    unfold time_lt; cbn [time]; reflexivity.
Qed.
End lip_sync_order.

(** X10.  The lip-sync keyframes are in strictly increasing order of time,
    whatever the generator draws: a syllable ends 0.3 s after its start
    and the next starts 0.5 s after it.  The first keyframe is at 0 s
    and the last at 4.8 s, inside the 5.0 s of the sample. *)
Theorem lip_sync_times_increasing (g : rng) :
  let kfs := (_create_sample_lip_sync g).1 in
  (∀ i j ki kj,
     kfs !! i = Some ki → kfs !! j = Some kj → (i < j)%nat →
     (time ki < time kj)%Q) ∧
  (∃ k0, kfs !! 0%nat = Some k0 ∧ (time k0 == 0)%Q) ∧
  (∃ kl, last kfs = Some kl ∧ (time kl == 4.8)%Q ∧ (time kl < 5.0)%Q).
Proof.
  split_and!.
  - intros i j ki kj Hi Hj Hij.
    by eapply (StronglySorted_lookup_lt time_lt);
      [apply lip_sync_sorted|..].
  - eexists. split; reflexivity.
  - eexists. split; [reflexivity|]. split; reflexivity.
Qed.

(** ** The periodic curves: closing the loop *)

Section periodic_loop.
Open Scope R_scope.

Lemma sin_plus_2PI x : sin (x + 2 * PI) = sin x.
Proof.
  replace (x + 2 * PI) with (x + 2 * INR 1 * PI) by (simpl; lra).
  apply sin_period.
Qed.

Lemma sin_plus_3PI x : sin (x + 3 * PI) = - sin x.
Proof.
  replace (x + 3 * PI) with (x + PI + 2 * PI) by lra.
  rewrite sin_plus_2PI. apply neg_sin.
Qed.

(** 1.57 is within 0.001 of [PI / 2], where the sine is almost 1. *)
Lemma sin_157_lower : 0.999 < sin 1.57.
Proof.
  pose proof PI_lower. pose proof PI_upper.
  rewrite <- (cos_shift 1.57). set (d := PI / 2 - 1.57).
  assert (0 < d < 0.001) as [Hd0 Hd1] by (unfold d; lra).
  pose proof (sin_lt_x d Hd0) as Hsin.
  assert (0 < sin d) as Hsin0 by (apply sin_gt_0; lra).
  assert (0 <= cos d) as Hcos0 by (apply cos_ge_0; lra).
  pose proof (COS_bound d) as [_ Hcos1].
  pose proof (sin2_cos2 d) as Hsq. unfold Rsqr in Hsq. nra.
Qed.

Lemma head_curve_lookup axis min_val max_val k :
  (k ≤ 100)%nat →
  ∃ kfs,
    _create_head_rotation_curve axis [min_val; max_val] = Ok kfs ∧
    length kfs = 101%nat ∧
    kfs !! k
    = Some (Keyframe (INR k * 0.1)
              ((min_val + max_val) / 2
               + (max_val - min_val) / 2
                 * sin (2 * PI * (axis_wave axis).1 * (INR k * 0.1)
                        + (axis_wave axis).2))).
Proof.
  intros Hk. rewrite head_rotation_curve_eq. eexists.
  split; [reflexivity|]. split; [by rewrite length_map, length_seq|].
  change (map ?f ?l) with (f <$> l).
  by rewrite list_lookup_fmap, lookup_seq_lt by lia.
Qed.
End periodic_loop.

(** X11.  A head rotation curve has 101 keyframes, from 0 s to 10 s.  On
    the x axis it starts at the middle of the range.  On the y axis,
    one and a half periods long, it ends on the other side of the
    middle from where it starts: the last value is at least 0.99 times
    the width of the range away from the first, so that the curve
    played as a 10 s loop jumps across nearly the whole range. *)
Theorem head_rotation_loop (axis : string) (min_val max_val : R) :
  ∃ kfs first lst,
    _create_head_rotation_curve axis [min_val; max_val] = Ok kfs ∧
    length kfs = 101%nat ∧
    kfs !! 0%nat = Some first ∧ last kfs = Some lst ∧
    time first = 0%R ∧ time lst = 10%R ∧
    (axis = "x" → value first = ((min_val + max_val) / 2)%R) ∧
    (axis = "y" →
     (0.99 * Rabs (max_val - min_val)
      <= Rabs (value lst - value first))%R).
Proof.
  destruct (head_curve_lookup axis min_val max_val 0)
    as (kfs & Hrun & Hlen & H0); [lia|].
  destruct (head_curve_lookup axis min_val max_val 100)
    as (kfs' & Hrun' & _ & H100); [lia|].
  rewrite Hrun in Hrun'. injection Hrun' as <-.
  eexists kfs, _, _. split; [exact Hrun|]. split; [exact Hlen|].
  split; [exact H0|]. split.
  { rewrite last_lookup, Hlen. exact H100. }
  cbn [time value]. rewrite INR_100. change (INR 0) with 0%R.
  split; [lra|]. split; [lra|].
  pose proof sin_157_lower as Hsin.
  pose proof (SIN_bound 1.57) as [_ Hsin1].
  split.
  - intros ->. cbn [axis_wave fst snd]. simpl.
    replace (2 * PI * 0.2 * (0 * 0.1) + 0.0)%R with 0%R by lra.
    rewrite sin_0. lra.
  - intros ->. simpl.
    replace (2 * PI * 0.15 * (0 * 0.1) + 1.57)%R with 1.57%R by lra.
    replace (2 * PI * 0.15 * (100 * 0.1) + 1.57)%R
      with (1.57 + 3 * PI)%R by lra.
    rewrite sin_plus_3PI.
    replace ((min_val + max_val) / 2
             + (max_val - min_val) / 2 * - sin 1.57
             - ((min_val + max_val) / 2
                + (max_val - min_val) / 2 * sin 1.57))%R
      with (- ((max_val - min_val) * sin 1.57))%R by lra.
    rewrite Rabs_Ropp, Rabs_mult, (Rabs_pos_eq (sin 1.57)) by lra.
    pose proof (Rabs_pos (max_val - min_val)). nra.
Qed.

(** X12.  The breathing curve needs the argument of its sine to stay a
    finite double: when it does not at the last sample, at 10 s (a speed
    above 1.1e307 or so), the call raises [ValueError].  Otherwise it
    returns 101 keyframes; they start at 0.5 at 0 s and stay within
    [|depth| / 2] of 0.5, and all are 0.5 when the depth is 0. *)
Theorem breathing_envelope (depth speed : R) :
  ((Rabs (2 * PI * (0.25 * speed) * 10) <= float_max)%R →
   ∃ kfs,
     _create_breathing_curve depth speed = Ok kfs ∧
     length kfs = 101%nat ∧
     kfs !! 0%nat = Some (Keyframe 0 0.5)%R) ∧
  ((float_max < Rabs (2 * PI * (0.25 * speed) * 10))%R →
   _create_breathing_curve depth speed = Raise ValueError) ∧
  (∀ kfs k,
     _create_breathing_curve depth speed = Ok kfs → k ∈ kfs →
     (0.5 - Rabs depth * 0.5 <= value k)%R ∧
     (value k <= 0.5 + Rabs depth * 0.5)%R ∧
     (depth = 0%R → value k = 0.5%R)).
Proof.
  destruct (breathing_curve_outcome depth speed) as [Hfits Hbig].
  split_and!.
  - intros Hle. rewrite (Hfits Hle). eexists. split; [reflexivity|].
    split; [by rewrite length_map, length_seq|].
    cbn [seq map lookup list_lookup]. do 2 f_equal.
    + change (INR 0) with 0%R. lra.
    + change (INR 0) with 0%R.
      replace (2 * PI * (0.25 * speed) * (0 * 0.1))%R with 0%R by lra.
      rewrite sin_0. lra.
  - exact Hbig.
  - intros kfs k Hrun Hk.
    destruct (Rle_dec (Rabs (2 * PI * (0.25 * speed) * 10)) float_max)
      as [Hle|Hgt].
    2:{ rewrite Hbig in Hrun by lra. discriminate Hrun. }
    pose proof (Hfits Hle) as Heq. rewrite Hrun in Heq.
    assert (kfs
            = map (λ t,
                Keyframe (INR t * 0.1)
                  (0.5
                   + depth * 0.5
                     * sin (2 * PI * (0.25 * speed) * (INR t * 0.1))))%R
                (seq 0 101)) as -> by congruence.
    apply list_elem_of_In, in_map_iff in Hk as (t & <- & _).
    cbn [value].
    pose proof (SIN_bound (2 * PI * (0.25 * speed) * (INR t * 0.1)))
      as [? ?].
    split_and!.
    + unfold Rabs. destruct (Rcase_abs depth); nra.
    + unfold Rabs. destruct (Rcase_abs depth); nra.
    + intros ->. lra.
Qed.

(** ** [generate] *)

Section generate_facts.

Lemma gen_bind_Done {A B : Type} (m : gen_m A) (k : A → gen_m B)
    g log a g' log' :
  m g log = Done a g' log' → gen_bind m k g log = k a g' log'.
Proof. intros H. unfold gen_bind. by rewrite H. Qed.

Lemma gen_bind_Failed {A B : Type} (m : gen_m A) (k : A → gen_m B)
    g log e g' log' :
  m g log = Failed e g' log' → gen_bind m k g log = Failed e g' log'.
Proof. intros H. unfold gen_bind. by rewrite H. Qed.

Lemma gen_bind_info {B : Type} (e : log_entry) (k : unit → gen_m B) g log :
  gen_bind (info e) k g log = k tt g (log ++ [e]).
Proof. reflexivity. Qed.

Lemma for_each_info {A : Type} (f : A → log_entry) (l : list A) g log :
  for_each l (λ x, info (f x)) g log = Done tt g (log ++ map f l).
Proof.
  revert log. induction l as [|x l IH]; intros log; simpl.
  - by rewrite app_nil_r.
  - rewrite gen_bind_info, IH. by rewrite <- app_assoc.
Qed.

Lemma blink_params_zero fuel cfg g log :
  (blink_speed (cfg_eye cfg) == 0)%Q →
  _generate_eye_blink_params fuel cfg g log
  = Failed ZeroDivisionError g (log ++ [BlinkStart]).
Proof.
  intros Hz. unfold _generate_eye_blink_params.
  rewrite gen_bind_info. apply gen_bind_Failed.
  unfold with_rng, _create_eye_blink_curve.
  by rewrite (proj2 (Qeq_bool_iff _ _) Hz).
Qed.

Lemma blink_params_ok fuel cfg g log :
  rng_ok g → ¬ (blink_speed (cfg_eye cfg) == 0)%Q → (8 ≤ fuel)%nat →
  ∃ cycles : nat,
    _generate_eye_blink_params fuel cfg g log
    = Done tt
        (λ n, g ((if random_blink (cfg_eye cfg) then 1 + cycles else 0) + n)%nat)
        (log ++ [BlinkStart; BlinkCurve (12 * cycles)]) ∧
    (2 ≤ cycles ≤ 7)%nat.
Proof.
  intros Hg Hspeed Hfuel.
  destruct (blink_cycle_count_aux fuel (blink_speed (cfg_eye cfg))
              (random_blink (cfg_eye cfg)) g Hg Hspeed Hfuel)
    as (starts & Hrun & Hn).
  exists (length starts). split; [|exact Hn].
  unfold _generate_eye_blink_params. rewrite gen_bind_info.
  erewrite gen_bind_Done; [|unfold with_rng; by rewrite Hrun].
  unfold info. by rewrite cycles_length, <- app_assoc.
Qed.

Lemma blink_params_fixed n cfg g log :
  ¬ (blink_speed (cfg_eye cfg) == 0)%Q →
  random_blink (cfg_eye cfg) = false →
  _generate_eye_blink_params (4 + n) cfg g log
  = Done tt g (log ++ [BlinkStart; BlinkCurve 36]).
Proof.
  intros Hspeed Hrb. unfold _generate_eye_blink_params.
  rewrite gen_bind_info, Hrb.
  erewrite gen_bind_Done;
    [|unfold with_rng; by rewrite blink_curve_fixed by done].
  unfold info. by rewrite <- app_assoc.
Qed.

Lemma mouth_params cfg g log :
  _generate_mouth_params cfg g log
  = Done tt
      (λ n, g ((if auto_lip_sync (cfg_mouth cfg) then 10 else 0) + n)%nat)
      (log ++ [MouthStart]
           ++ (if auto_lip_sync (cfg_mouth cfg) then [LipSync 40] else [])
           ++ map MouthExpression (preset_expressions (cfg_mouth cfg))).
Proof.
  unfold _generate_mouth_params. rewrite gen_bind_info.
  destruct (auto_lip_sync (cfg_mouth cfg)).
  - erewrite gen_bind_Done; [|reflexivity].
    rewrite for_each_info. by rewrite <- !app_assoc.
  - erewrite gen_bind_Done; [|reflexivity].
    rewrite for_each_info. by rewrite <- !app_assoc.
Qed.

Lemma head_curve_outcome axis (range_values : list R) :
  (length range_values = 2%nat →
   ∃ kfs, _create_head_rotation_curve axis range_values = Ok kfs) ∧
  (length range_values ≠ 2%nat →
   _create_head_rotation_curve axis range_values = Raise ValueError).
Proof.
  unfold _create_head_rotation_curve.
  destruct (axis_wave axis) as [f ph].
  destruct range_values as [|a [|b [|c r]]]; simpl; split; try done.
  intros _. by eexists.
Qed.

Lemma head_params cfg g log :
  let ok := length (rotation_range_x (cfg_head cfg)) = 2%nat ∧
            length (rotation_range_y (cfg_head cfg)) = 2%nat ∧
            length (rotation_range_z (cfg_head cfg)) = 2%nat in
  (ok → _generate_head_rotation_params cfg g log
        = Done tt g (log ++ [HeadStart; HeadDone])) ∧
  (¬ ok → _generate_head_rotation_params cfg g log
          = Failed ValueError g (log ++ [HeadStart])).
Proof.
  intros ok. unfold _generate_head_rotation_params.
  rewrite gen_bind_info. unfold ok.
  destruct (decide (length (rotation_range_x (cfg_head cfg)) = 2%nat))
    as [Hx|Hx].
  2:{ split; [by intros [? _]|]. intros _. apply gen_bind_Failed.
      unfold pure_call.
      by rewrite (proj2 (head_curve_outcome "x" _) Hx). }
  destruct (proj1 (head_curve_outcome "x" _) Hx) as [kx Hkx].
  erewrite gen_bind_Done; [|unfold pure_call; by rewrite Hkx].
  destruct (decide (length (rotation_range_y (cfg_head cfg)) = 2%nat))
    as [Hy|Hy].
  2:{ split; [by intros (_ & ? & _)|]. intros _. apply gen_bind_Failed.
      unfold pure_call.
      by rewrite (proj2 (head_curve_outcome "y" _) Hy). }
  destruct (proj1 (head_curve_outcome "y" _) Hy) as [ky Hky].
  erewrite gen_bind_Done; [|unfold pure_call; by rewrite Hky].
  destruct (decide (length (rotation_range_z (cfg_head cfg)) = 2%nat))
    as [Hz|Hz].
  2:{ split; [by intros (_ & _ & ?)|]. intros _. apply gen_bind_Failed.
      unfold pure_call.
      by rewrite (proj2 (head_curve_outcome "z" _) Hz). }
  destruct (proj1 (head_curve_outcome "z" _) Hz) as [kz Hkz].
  erewrite gen_bind_Done; [|unfold pure_call; by rewrite Hkz].
  split; [|by intros []]. intros _. unfold info. by rewrite <- app_assoc.
Qed.

Lemma body_params cfg g log :
  let fits :=
    (Rabs (2 * PI * (0.25 * breathing_speed (cfg_body cfg)) * 10)
     <= float_max)%R in
  (breathing_enabled (cfg_body cfg) = false ∨ fits →
   _generate_body_params cfg g log
   = Done tt g
       (log ++ [BodyStart]
            ++ (if breathing_enabled (cfg_body cfg)
                then [BreathingCurve 101] else []))) ∧
  (breathing_enabled (cfg_body cfg) = true → ¬ fits →
   _generate_body_params cfg g log
   = Failed ValueError g (log ++ [BodyStart])).
Proof.
  intros fits. unfold _generate_body_params. rewrite gen_bind_info.
  destruct (breathing_curve_outcome (breathing_depth (cfg_body cfg))
              (breathing_speed (cfg_body cfg))) as [Hfits Hbig].
  destruct (breathing_enabled (cfg_body cfg)).
  - split.
    + intros [|Hle]; [done|].
      erewrite gen_bind_Done; [|unfold pure_call; by rewrite (Hfits Hle)].
      unfold info. rewrite length_map, length_seq.
      by rewrite <- app_assoc.
    + intros _ Hgt. apply gen_bind_Failed. unfold pure_call.
      rewrite Hbig; [done|]. unfold fits in Hgt. lra.
  - split; [|done]. intros _. unfold gen_ret. by rewrite app_nil_r.
Qed.

Lemma tail_params cfg g log :
  (_generate_physics_params cfg ;;
   _generate_combined_params cfg ;;
   info GenerationDone ;;
   gen_ret true)%gen g log
  = Done true g
      (log ++ [PhysicsStart;
               PhysicsConfig (hair_stiffness (cfg_physics cfg))
                 (hair_damping (cfg_physics cfg))
                 (cloth_stiffness (cfg_physics cfg))
                 (cloth_damping (cfg_physics cfg));
               CombinedStart]
           ++ map CombinedExpression (preset_expressions (cfg_mouth cfg))
           ++ [GenerationDone]).
Proof.
  erewrite gen_bind_Done; [|reflexivity].
  erewrite gen_bind_Done;
    [|unfold _generate_combined_params;
      rewrite gen_bind_info; apply for_each_info].
  rewrite gen_bind_info. unfold gen_ret.
  by rewrite <- !app_assoc.
Qed.
End generate_facts.

Section generate_run.

(** The six steps of [generate] after the model file is settled: either
    all of them run, or the run stops at the blink curve (zero speed),
    at a rotation range that does not hold two values, or at a
    breathing curve whose sine argument is not a finite double. *)
Lemma steps_run fuel cfg g log :
  rng_ok g → (8 ≤ fuel)%nat →
  let ok_head := length (rotation_range_x (cfg_head cfg)) = 2%nat ∧
                 length (rotation_range_y (cfg_head cfg)) = 2%nat ∧
                 length (rotation_range_z (cfg_head cfg)) = 2%nat in
  let ok_body :=
    breathing_enabled (cfg_body cfg) = false ∨
    (Rabs (2 * PI * (0.25 * breathing_speed (cfg_body cfg)) * 10)
     <= float_max)%R in
  let mouth_log := [MouthStart]
      ++ (if auto_lip_sync (cfg_mouth cfg) then [LipSync 40] else [])
      ++ map MouthExpression (preset_expressions (cfg_mouth cfg)) in
  let lip_draws := if auto_lip_sync (cfg_mouth cfg) then 10%nat else 0%nat in
  match (_generate_eye_blink_params fuel cfg ;;
         _generate_mouth_params cfg ;;
         _generate_head_rotation_params cfg ;;
         _generate_body_params cfg ;;
         _generate_physics_params cfg ;;
         _generate_combined_params cfg ;;
         info GenerationDone ;;
         gen_ret true)%gen g log
  with
  | Done b g' log' =>
      b = true ∧ ¬ (blink_speed (cfg_eye cfg) == 0)%Q ∧ ok_head ∧ ok_body ∧
      ∃ cycles : nat, (2 ≤ cycles ≤ 7)%nat ∧
        g' = (λ n, g ((if random_blink (cfg_eye cfg) then 1 + cycles else 0)
                      + (lip_draws + n))%nat) ∧
        log' = (((((log ++ [BlinkStart; BlinkCurve (12 * cycles)])
                 ++ mouth_log)
                 ++ [HeadStart; HeadDone])
                 ++ [BodyStart]
                 ++ (if breathing_enabled (cfg_body cfg)
                     then [BreathingCurve 101] else []))
                 ++ [PhysicsStart;
                     PhysicsConfig (hair_stiffness (cfg_physics cfg))
                       (hair_damping (cfg_physics cfg))
                       (cloth_stiffness (cfg_physics cfg))
                       (cloth_damping (cfg_physics cfg));
                     CombinedStart]
                 ++ map CombinedExpression
                      (preset_expressions (cfg_mouth cfg))
                 ++ [GenerationDone])
  | Failed e g' log' =>
      ((blink_speed (cfg_eye cfg) == 0)%Q ∧ e = ZeroDivisionError ∧
       g' = g ∧ log' = log ++ [BlinkStart]) ∨
      (¬ (blink_speed (cfg_eye cfg) == 0)%Q ∧ ¬ ok_head ∧ e = ValueError ∧
       ∃ cycles : nat, (2 ≤ cycles ≤ 7)%nat ∧
         g' = (λ n, g ((if random_blink (cfg_eye cfg) then 1 + cycles else 0)
                       + (lip_draws + n))%nat) ∧
         log' = ((log ++ [BlinkStart; BlinkCurve (12 * cycles)])
                 ++ mouth_log) ++ [HeadStart]) ∨
      (¬ (blink_speed (cfg_eye cfg) == 0)%Q ∧ ok_head ∧ ¬ ok_body ∧
       e = ValueError ∧
       ∃ cycles : nat, (2 ≤ cycles ≤ 7)%nat ∧
         g' = (λ n, g ((if random_blink (cfg_eye cfg) then 1 + cycles else 0)
                       + (lip_draws + n))%nat) ∧
         log' = (((log ++ [BlinkStart; BlinkCurve (12 * cycles)])
                  ++ mouth_log) ++ [HeadStart; HeadDone]) ++ [BodyStart])
  | NoFuel => False
  end.
Proof.
  intros Hg Hfuel ok_head ok_body mouth_log lip_draws.
  destruct (Qeq_dec (blink_speed (cfg_eye cfg)) 0) as [Hz|Hnz].
  { rewrite (gen_bind_Failed _ _ _ _ _ _ _ (blink_params_zero fuel cfg g log Hz)).
    by left. }
  destruct (blink_params_ok fuel cfg g log Hg Hnz Hfuel)
    as (cycles & Hblink & Hcycles).
  rewrite (gen_bind_Done _ _ _ _ _ _ _ Hblink).
  rewrite (gen_bind_Done _ _ _ _ _ _ _ (mouth_params cfg _ _)).
  destruct (decide ok_head) as [Hok|Hbad].
  2:{ rewrite (gen_bind_Failed _ _ _ _ _ _ _
                 (proj2 (head_params cfg _ _) Hbad)).
      right; left. split; [done|]. split; [done|]. split; [done|].
      exists cycles. by split. }
  rewrite (gen_bind_Done _ _ _ _ _ _ _
             (proj1 (head_params cfg _ _) Hok)).
  assert (ok_body ∨ ¬ ok_body) as [Hbody|Hnobody].
  { unfold ok_body. destruct (breathing_enabled (cfg_body cfg));
      [|by left; left].
    destruct (Rle_dec
                (Rabs (2 * PI * (0.25 * breathing_speed (cfg_body cfg)) * 10))
                float_max); [by left; right|].
    right. by intros [|]. }
  - rewrite (gen_bind_Done _ _ _ _ _ _ _
               (proj1 (body_params cfg _ _) Hbody)).
    rewrite tail_params.
    split; [done|]. split; [done|]. split; [done|]. split; [done|].
    exists cycles. by split.
  - assert (breathing_enabled (cfg_body cfg) = true) as Hen.
    { destruct (breathing_enabled (cfg_body cfg)) eqn:E; [done|].
      exfalso. apply Hnobody. by left. }
    rewrite (gen_bind_Failed _ _ _ _ _ _ _
               (proj2 (body_params cfg _ _) Hen
                  (λ H, Hnobody (or_intror H)))).
    right; right. split; [done|]. split; [done|]. split; [done|].
    split; [done|]. exists cycles. by split.
Qed.

End generate_run.

(** X13.  [generate] always returns (it never raises: every exception of
    a step is caught), and it returns [True] exactly when the project
    has a model file, the blink speed is not zero, each of the three
    rotation ranges holds exactly two values and the breathing curve,
    if enabled, keeps the argument of its sine a finite double.  The log
    starts with the "generating for" line; it ends with the "done" line
    on success and with the "no model file" or an error line
    otherwise. *)
Theorem generate_success_iff (fuel : nat) (cfg : parameters_config)
    (project_path : project) (g : rng) :
  rng_ok g → (8 ≤ fuel)%nat →
  ∃ (b : bool) (g' : rng) (log : list log_entry),
    generate fuel cfg project_path g = Ok (b, g', log) ∧
    (b = true ↔
       project_path ≠ ProjectDir [] ∧
       ¬ (blink_speed (cfg_eye cfg) == 0)%Q ∧
       (length (rotation_range_x (cfg_head cfg)) = 2%nat ∧
        length (rotation_range_y (cfg_head cfg)) = 2%nat ∧
        length (rotation_range_z (cfg_head cfg)) = 2%nat) ∧
       (breathing_enabled (cfg_body cfg) = false ∨
        (Rabs (2 * PI * (0.25 * breathing_speed (cfg_body cfg)) * 10)
         <= float_max)%R)) ∧
    head log = Some GeneratingFor ∧
    (b = true → last log = Some GenerationDone) ∧
    (b = false →
       last log = Some NoModelFile ∨
       last log = Some (GenerationError ZeroDivisionError) ∨
       last log = Some (GenerationError ValueError)).
Proof.
  intros Hg Hfuel. unfold generate. rewrite gen_bind_info.
  assert (Hsteps : ∀ log0,
    head log0 = Some GeneratingFor →
    ∃ (b : bool) (g' : rng) (log : list log_entry),
      match (_generate_eye_blink_params fuel cfg ;;
             _generate_mouth_params cfg ;;
             _generate_head_rotation_params cfg ;;
             _generate_body_params cfg ;;
             _generate_physics_params cfg ;;
             _generate_combined_params cfg ;;
             info GenerationDone ;;
             gen_ret true)%gen g log0
      with
      | Done b0 g0 l0 => Ok (b0, g0, l0)
      | Failed e g0 l0 => Ok (false, g0, l0 ++ [GenerationError e])
      | NoFuel => OutOfFuel
      end = Ok (b, g', log) ∧
      (b = true ↔
         ¬ (blink_speed (cfg_eye cfg) == 0)%Q ∧
         (length (rotation_range_x (cfg_head cfg)) = 2%nat ∧
          length (rotation_range_y (cfg_head cfg)) = 2%nat ∧
          length (rotation_range_z (cfg_head cfg)) = 2%nat) ∧
         (breathing_enabled (cfg_body cfg) = false ∨
          (Rabs (2 * PI * (0.25 * breathing_speed (cfg_body cfg)) * 10)
           <= float_max)%R)) ∧
      head log = Some GeneratingFor ∧
      (b = true → last log = Some GenerationDone) ∧
      (b = false →
         last log = Some (GenerationError ZeroDivisionError) ∨
         last log = Some (GenerationError ValueError))).
  { intros log0 Hhead0.
    assert (∀ l, head (log0 ++ l) = Some GeneratingFor) as Hhead.
    { intros l. destruct log0; [done|]. exact Hhead0. }
    pose proof (steps_run fuel cfg g log0 Hg Hfuel) as Hrun.
    cbv zeta in Hrun.
    match type of Hrun with match ?r with _ => _ end =>
      destruct r as [b g' log'|e g' log'|] end; [| |done].
    - destruct Hrun as (-> & Hnz & Hok & Hbody & cycles & _ & _ & ->).
      eexists _, _, _. split; [reflexivity|].
      split; [split; [done|intros _; by split]|].
      split; [by rewrite <- !app_assoc|]. split; [|done]. intros _.
      by rewrite !app_assoc, last_snoc.
    - eexists _, _, _. split; [reflexivity|].
      destruct Hrun as [(Hz & -> & _ & ->)
                       |[(Hnz & Hbad & -> & cycles & _ & _ & ->)
                        |(Hnz & Hok & Hbad & -> & cycles & _ & _ & ->)]].
      + split; [split; [done|by intros (? & _)]|].
        split; [by rewrite <- !app_assoc|]. split; [done|]. intros _. left.
        by rewrite last_snoc.
      + split; [split; [done|by intros (_ & ? & _)]|].
        split; [by rewrite <- !app_assoc|]. split; [done|]. intros _. right.
        by rewrite last_snoc.
      + split; [split; [done|by intros (_ & _ & ?)]|].
        split; [by rewrite <- !app_assoc|]. split; [done|]. intros _. right.
        by rewrite last_snoc. }
  destruct project_path as [[|model_path files]|path];
    unfold generate_body; cbv zeta.
  - rewrite gen_bind_info. unfold gen_ret.
    eexists _, _, _. split; [reflexivity|].
    split; [split; [done|by intros [? _]]|].
    split; [done|]. split; [done|]. intros _. by left.
  - rewrite gen_bind_info.
    destruct (Hsteps (([] ++ [GeneratingFor]) ++ [ModelFound model_path]))
      as (b & g' & log & Hrun & Hiff & Hhead & Hdone & Herr); [done|].
    exists b, g', log. split; [exact Hrun|].
    split; [rewrite Hiff; split; [by intros ?; split|by intros [_ ?]]|].
    split; [done|]. split; [done|]. intros Hb. right. by apply Herr.
  - destruct (Hsteps ([] ++ [GeneratingFor]))
      as (b & g' & log & Hrun & Hiff & Hhead & Hdone & Herr); [done|].
    exists b, g', log. split; [exact Hrun|].
    split; [rewrite Hiff; split; [by intros ?; split|by intros [_ ?]]|].
    split; [done|]. split; [done|]. intros Hb. right. by apply Herr.
Qed.

Lemma generate_success_iff_witness :
  ∃ (b : bool) (g' : rng) (log : list log_entry),
    generate 8
      {| cfg_eye := {| blink_speed := 0.3; random_blink := true |};
         cfg_mouth := {| auto_lip_sync := true;
                         preset_expressions := ["smile"] |};
         cfg_head := {| rotation_range_x := [(-30)%R; 30%R];
                        rotation_range_y := [(-30)%R; 30%R];
                        rotation_range_z := [(-15)%R] |};
         cfg_body := {| breathing_enabled := true; breathing_depth := 0.2;
                        breathing_speed := 0.8 |};
         cfg_physics := {| hair_stiffness := 0.5; hair_damping := 0.3;
                           cloth_stiffness := 0.7; cloth_damping := 0.4 |} |}
      (ProjectFile "model.cmo3") (λ _, 0.5%Q)
    = Ok (b, g', log) ∧ b = false.
Proof.
  destruct (generate_success_iff 8
      {| cfg_eye := {| blink_speed := 0.3; random_blink := true |};
         cfg_mouth := {| auto_lip_sync := true;
                         preset_expressions := ["smile"] |};
         cfg_head := {| rotation_range_x := [(-30)%R; 30%R];
                        rotation_range_y := [(-30)%R; 30%R];
                        rotation_range_z := [(-15)%R] |};
         cfg_body := {| breathing_enabled := true; breathing_depth := 0.2;
                        breathing_speed := 0.8 |};
         cfg_physics := {| hair_stiffness := 0.5; hair_damping := 0.3;
                           cloth_stiffness := 0.7; cloth_damping := 0.4 |} |}
      (ProjectFile "model.cmo3") (λ _, 0.5%Q))
    as (b & g' & log & Hrun & Hiff & _).
  - intros n. unfold Qle, Qlt. simpl. lia.
  - lia.
  - exists b, g', log. split; [exact Hrun|].
    destruct b; [|done]. exfalso.
    destruct (proj1 Hiff eq_refl) as (_ & _ & (_ & _ & Hz) & _).
    simpl in Hz. lia.
Defined.

(** X14.  With random blinking off, a non-zero blink speed, three
    two-valued rotation ranges and a breathing curve that is switched
    off or keeps the argument of its sine a finite double, [generate]
    succeeds on any project with a model file: it draws from the
    generator only for the lip sync (ten draws, none when lip sync is
    off), and logs the six steps in order with 36 blink keyframes, 40
    lip-sync keyframes and 101 breathing keyframes. *)
Theorem generate_fixed_run (n : nat) (cfg : parameters_config)
    (project_path : project) (g : rng) :
  project_path ≠ ProjectDir [] →
  random_blink (cfg_eye cfg) = false →
  ¬ (blink_speed (cfg_eye cfg) == 0)%Q →
  length (rotation_range_x (cfg_head cfg)) = 2%nat →
  length (rotation_range_y (cfg_head cfg)) = 2%nat →
  length (rotation_range_z (cfg_head cfg)) = 2%nat →
  (breathing_enabled (cfg_body cfg) = false ∨
   (Rabs (2 * PI * (0.25 * breathing_speed (cfg_body cfg)) * 10)
    <= float_max)%R) →
  generate (4 + n) cfg project_path g
  = Ok (true,
        (λ k, g ((if auto_lip_sync (cfg_mouth cfg) then 10 else 0) + k)%nat),
        [GeneratingFor]
        ++ match project_path with
           | ProjectDir (model_path :: _) => [ModelFound model_path]
           | _ => []
           end
        ++ [BlinkStart; BlinkCurve 36; MouthStart]
        ++ (if auto_lip_sync (cfg_mouth cfg) then [LipSync 40] else [])
        ++ map MouthExpression (preset_expressions (cfg_mouth cfg))
        ++ [HeadStart; HeadDone; BodyStart]
        ++ (if breathing_enabled (cfg_body cfg)
            then [BreathingCurve 101] else [])
        ++ [PhysicsStart;
            PhysicsConfig (hair_stiffness (cfg_physics cfg))
              (hair_damping (cfg_physics cfg))
              (cloth_stiffness (cfg_physics cfg))
              (cloth_damping (cfg_physics cfg));
            CombinedStart]
        ++ map CombinedExpression (preset_expressions (cfg_mouth cfg))
        ++ [GenerationDone]).
Proof.
  intros Hproject Hrb Hnz Hx Hy Hz Hbody.
  assert (∀ log,
    (_generate_eye_blink_params (4 + n) cfg ;;
     _generate_mouth_params cfg ;;
     _generate_head_rotation_params cfg ;;
     _generate_body_params cfg ;;
     _generate_physics_params cfg ;;
     _generate_combined_params cfg ;;
     info GenerationDone ;;
     gen_ret true)%gen g log
    = Done true
        (λ k, g ((if auto_lip_sync (cfg_mouth cfg) then 10 else 0) + k)%nat)
        (log
         ++ [BlinkStart; BlinkCurve 36; MouthStart]
         ++ (if auto_lip_sync (cfg_mouth cfg) then [LipSync 40] else [])
         ++ map MouthExpression (preset_expressions (cfg_mouth cfg))
         ++ [HeadStart; HeadDone; BodyStart]
         ++ (if breathing_enabled (cfg_body cfg)
             then [BreathingCurve 101] else [])
         ++ [PhysicsStart;
             PhysicsConfig (hair_stiffness (cfg_physics cfg))
               (hair_damping (cfg_physics cfg))
               (cloth_stiffness (cfg_physics cfg))
               (cloth_damping (cfg_physics cfg));
             CombinedStart]
         ++ map CombinedExpression (preset_expressions (cfg_mouth cfg))
         ++ [GenerationDone])) as Hsteps.
  { intros log.
    rewrite (gen_bind_Done _ _ _ _ _ _ _
               (blink_params_fixed n cfg g log Hnz Hrb)).
    rewrite (gen_bind_Done _ _ _ _ _ _ _ (mouth_params cfg _ _)).
    rewrite (gen_bind_Done _ _ _ _ _ _ _
               (proj1 (head_params cfg _ _) (conj Hx (conj Hy Hz)))).
    rewrite (gen_bind_Done _ _ _ _ _ _ _
               (proj1 (body_params cfg _ _) Hbody)).
    rewrite tail_params. f_equal.
    rewrite <- !app_assoc. simpl. destruct (auto_lip_sync (cfg_mouth cfg));
      simpl; repeat f_equal;
      destruct (breathing_enabled (cfg_body cfg)); reflexivity. }
  unfold generate. rewrite gen_bind_info.
  destruct project_path as [[|model_path files]|path]; [done| |];
    unfold generate_body; cbv zeta.
  - rewrite gen_bind_info, Hsteps. by rewrite <- !app_assoc.
  - by rewrite Hsteps.
Qed.

Lemma generate_fixed_run_witness :
  ∃ g' log,
    generate 4
      {| cfg_eye := {| blink_speed := 0.3; random_blink := false |};
         cfg_mouth := {| auto_lip_sync := true;
                         preset_expressions := ["smile"; "angry"] |};
         cfg_head := {| rotation_range_x := [(-30)%R; 30%R];
                        rotation_range_y := [(-30)%R; 30%R];
                        rotation_range_z := [(-15)%R; 15%R] |};
         cfg_body := {| breathing_enabled := true; breathing_depth := 0.2;
                        breathing_speed := 0.8 |};
         cfg_physics := {| hair_stiffness := 0.5; hair_damping := 0.3;
                           cloth_stiffness := 0.7; cloth_damping := 0.4 |} |}
      (ProjectDir ["out/model.cmo3"]) (λ i, (Z.of_nat i # 100)%Q)
    = Ok (true, g', log) ∧
    g' 0%nat = (10 # 100)%Q ∧ length log = 18%nat.
Proof.
  eexists _, _. split; [|split].
  - apply (generate_fixed_run 0
      {| cfg_eye := {| blink_speed := 0.3; random_blink := false |};
         cfg_mouth := {| auto_lip_sync := true;
                         preset_expressions := ["smile"; "angry"] |};
         cfg_head := {| rotation_range_x := [(-30)%R; 30%R];
                        rotation_range_y := [(-30)%R; 30%R];
                        rotation_range_z := [(-15)%R; 15%R] |};
         cfg_body := {| breathing_enabled := true; breathing_depth := 0.2;
                        breathing_speed := 0.8 |};
         cfg_physics := {| hair_stiffness := 0.5; hair_damping := 0.3;
                           cloth_stiffness := 0.7; cloth_damping := 0.4 |} |}
      (ProjectDir ["out/model.cmo3"]) (λ i, (Z.of_nat i # 100)%Q));
      [done|reflexivity|simpl; unfold Qeq; simpl; lia
      |reflexivity|reflexivity|reflexivity|].
    right. cbn [cfg_body breathing_speed].
    pose proof PI_lower. pose proof PI_upper. pose proof float_max_lower.
    rewrite Rabs_pos_eq by lra. lra.
  - reflexivity.
  - reflexivity.
Defined.

(** X15.  A blink speed of zero stops [generate] inside its first step: it
    returns [False] with the division error logged right after the blink
    step's start line, no later step is started and no number is drawn,
    whatever the generator and the loop bound.  A project directory
    without a model file stops it before any step. *)
Theorem generate_zero_speed (fuel : nat) (cfg : parameters_config)
    (project_path : project) (g : rng) :
  (blink_speed (cfg_eye cfg) == 0)%Q →
  generate fuel cfg project_path g
  = Ok (false, g,
        match project_path with
        | ProjectDir [] => [GeneratingFor; NoModelFile]
        | ProjectDir (model_path :: _) =>
            [GeneratingFor; ModelFound model_path; BlinkStart;
             GenerationError ZeroDivisionError]
        | ProjectFile _ =>
            [GeneratingFor; BlinkStart; GenerationError ZeroDivisionError]
        end).
Proof.
  intros Hz. unfold generate. rewrite gen_bind_info.
  destruct project_path as [[|model_path files]|path];
    unfold generate_body; cbv zeta.
  - reflexivity.
  - rewrite gen_bind_info.
    by rewrite (gen_bind_Failed _ _ _ _ _ _ _
                  (blink_params_zero fuel cfg g _ Hz)).
  - by rewrite (gen_bind_Failed _ _ _ _ _ _ _
                  (blink_params_zero fuel cfg g _ Hz)).
Qed.

Lemma generate_zero_speed_witness :
  generate 0
    {| cfg_eye := {| blink_speed := 0; random_blink := true |};
       cfg_mouth := {| auto_lip_sync := true; preset_expressions := [] |};
       cfg_head := {| rotation_range_x := []; rotation_range_y := [];
                      rotation_range_z := [] |};
       cfg_body := {| breathing_enabled := true; breathing_depth := 0.2;
                      breathing_speed := 0.8 |};
       cfg_physics := {| hair_stiffness := 0.5; hair_damping := 0.3;
                         cloth_stiffness := 0.7; cloth_damping := 0.4 |} |}
    (ProjectFile "model.cmo3") (λ _, 0.5%Q)
  = Ok (false, (λ _, 0.5%Q),
        [GeneratingFor; BlinkStart; GenerationError ZeroDivisionError]).
Proof.
  apply (generate_zero_speed 0
    {| cfg_eye := {| blink_speed := 0; random_blink := true |};
       cfg_mouth := {| auto_lip_sync := true; preset_expressions := [] |};
       cfg_head := {| rotation_range_x := []; rotation_range_y := [];
                      rotation_range_z := [] |};
       cfg_body := {| breathing_enabled := true; breathing_depth := 0.2;
                      breathing_speed := 0.8 |};
       cfg_physics := {| hair_stiffness := 0.5; hair_damping := 0.3;
                         cloth_stiffness := 0.7; cloth_damping := 0.4 |} |}
    (ProjectFile "model.cmo3") (λ _, 0.5%Q)).
  reflexivity.
Defined.

(** ** [main] *)

Import Main.

Section run_facts.
Context {A B : Type}.
Implicit Types (m : run A) (k : A → run B).

Lemma run_bind_calls m k :
  (run_bind m k).1
  = m.1 ++ match m.2 with Ok a => (k a).1 | _ => [] end.
Proof.
  destruct m as [calls [a|e|]]; simpl; [|by rewrite app_nil_r..].
  by destruct (k a).
Qed.

Lemma run_bind_result m k :
  (run_bind m k).2
  = match m.2 with
    | Ok a => (k a).2
    | Raise e => Raise e
    | OutOfFuel => OutOfFuel
    end.
Proof. destruct m as [calls [a|e|]]; simpl; [|done..]. by destruct (k a). Qed.

Lemma run_bind_Forall (Q : stage_call → Prop) m k :
  Forall Q m.1 →
  (∀ a, m.2 = Ok a → Forall Q (k a).1) →
  Forall Q (run_bind m k).1.
Proof.
  intros Hm Hk. rewrite run_bind_calls. apply Forall_app. split; [done|].
  destruct (m.2) as [a|e|]; [by apply Hk|constructor..].
Qed.

Lemma run_bind_sorted (mid : nat) m k :
  StronglySorted lt (stage_index <$> m.1) →
  Forall (λ c, stage_index c ≤ mid) m.1 →
  (∀ a, StronglySorted lt (stage_index <$> (k a).1) ∧
        Forall (λ c, mid < stage_index c) (k a).1) →
  StronglySorted lt (stage_index <$> (run_bind m k).1).
Proof.
  intros Hm Hle Hk. rewrite run_bind_calls, fmap_app.
  apply StronglySorted_app_2; [|done|].
  - intros i j Hi Hj.
    apply list_elem_of_fmap in Hi as (c & -> & Hc).
    apply list_elem_of_fmap in Hj as (c' & -> & Hc').
    rewrite Forall_forall in Hle. specialize (Hle c Hc).
    destruct (m.2) as [a|e|]; [|by apply elem_of_nil in Hc'..].
    destruct (Hk a) as [_ Hgt]. rewrite Forall_forall in Hgt.
    specialize (Hgt c' Hc'). lia.
  - destruct (m.2) as [a|e|]; [apply Hk|constructor..].
Qed.

Lemma run_bind_above (lo : nat) m k :
  Forall (λ c, lo < stage_index c) m.1 →
  (∀ a, Forall (λ c, lo < stage_index c) (k a).1) →
  Forall (λ c, lo < stage_index c) (run_bind m k).1.
Proof. intros Hm Hk. apply run_bind_Forall; [done|]. intros a _. apply Hk. Qed.
End run_facts.

Lemma run_bind_within {A B : Type} (lo mid : nat)
    (m : run A) (k : A → run B) :
  lo ≤ mid →
  StronglySorted lt (stage_index <$> m.1) ∧
  Forall (λ c, lo < stage_index c ≤ mid) m.1 →
  (∀ a, StronglySorted lt (stage_index <$> (k a).1) ∧
        Forall (λ c, mid < stage_index c) (k a).1) →
  StronglySorted lt (stage_index <$> (run_bind m k).1) ∧
  Forall (λ c, lo < stage_index c) (run_bind m k).1.
Proof.
  intros Hlo [Hsorted Hin] Hk. split.
  - apply (run_bind_sorted mid); [done| |done].
    eapply Forall_impl; [exact Hin|]. simpl. lia.
  - apply run_bind_above.
    + eapply Forall_impl; [exact Hin|]. simpl. lia.
    + intros a. destruct (Hk a) as [_ Hgt].
      eapply Forall_impl; [exact Hgt|]. simpl. lia.
Qed.

(** The calls of one stage of [main]: none, or the stage's one call. *)
Ltac stage_cases :=
  unfold run_bind, call, run_ret, truthy in *;
  repeat (case_match; simplify_eq/=);
  repeat match goal with
         | H : negb _ = true |- _ => apply negb_true_iff in H
         | H : negb _ = false |- _ => apply negb_false_iff in H
         | H : _ && _ = true |- _ => apply andb_true_iff in H as [? ?]
         | H : _ && _ = false |- _ => apply andb_false_iff in H as [H|H]
         | H : bool_decide _ = false |- _ => apply bool_decide_eq_false in H
         | H : bool_decide _ = true |- _ => apply bool_decide_eq_true in H
         end;
  simplify_eq/=.

Ltac stage_block :=
  stage_cases;
  (split; [repeat constructor|repeat constructor; simpl; lia]).

Ltac stage_calls :=
  stage_cases;
  repeat first [apply Forall_nil | apply Forall_cons; split];
  repeat split; eauto 6;
  try (intros; simplify_eq/=; first [done | congruence | eauto]).

(** X16.  [main] calls each stage at most once, and in the order of the
    pipeline: character, layers, Cubism, parameters, export. *)
Theorem main_stage_order (character_generate : outcome string)
    (separate automate : string → outcome string)
    (parameters_generate : string → outcome bool)
    (export : string → outcome string) (a : args) :
  StronglySorted lt
    (stage_index <$>
       (main character_generate separate automate parameters_generate
          export a).1).
Proof.
  unfold main.
  eapply proj1. apply (run_bind_within 0 1); [lia|stage_block|].
  intros character_path.
  apply (run_bind_within 1 2); [lia|stage_block|].
  intros layers_dir.
  apply (run_bind_within 2 3); [lia|stage_block|].
  intros cubism_project.
  apply (run_bind_within 3 4); [lia|stage_block|].
  intros _. stage_block.
Qed.

(** X17.  What each call of [main] presupposes.  The character generator runs
    only without [--skip-character] and without a given image; the layer
    separator only without [--skip-layer] and without a given layer
    directory, on a non-empty character path that was given or
    generated; the Cubism stage only without [--skip-cubism], on a
    non-empty layer directory that was given or separated; the parameter
    and export stages only without their skip flag, on the non-empty
    project path that [automate] returned, so that the empty string
    [automate] returns on failure ends the pipeline; and the export runs
    only after the parameter stage, when that ran, has returned. *)
Theorem main_stage_conditions (character_generate : outcome string)
    (separate automate : string → outcome string)
    (parameters_generate : string → outcome bool)
    (export : string → outcome string) (a : args) :
  Forall
    (λ c, match c with
          | CharacterGenerate =>
              skip_character a = false ∧ truthy (character_image a) = false
          | Separate character_path =>
              skip_layer a = false ∧ truthy (layer_dir a) = false ∧
              character_path ≠ "" ∧
              (character_image a = Some character_path ∨
               skip_character a = false ∧
               character_generate = Ok character_path)
          | Automate layers_dir =>
              skip_cubism a = false ∧ layers_dir ≠ "" ∧
              (layer_dir a = Some layers_dir ∨
               skip_layer a = false ∧
               ∃ character_path, separate character_path = Ok layers_dir)
          | ParametersGenerate cubism_project =>
              skip_parameters a = false ∧ cubism_project ≠ "" ∧
              ∃ layers_dir, automate layers_dir = Ok cubism_project
          | Export cubism_project =>
              skip_export a = false ∧ cubism_project ≠ "" ∧
              (∃ layers_dir, automate layers_dir = Ok cubism_project) ∧
              (skip_parameters a = false →
               ∃ b, parameters_generate cubism_project = Ok b)
          end)
    (main character_generate separate automate parameters_generate
       export a).1.
Proof.
  unfold main.
  apply run_bind_Forall; [stage_calls|]. intros character_path H1.
  assert (∀ c, character_path = Some c →
            character_image a = Some c ∨
            skip_character a = false ∧ character_generate = Ok c) as F1
    by (intros c ->; clear -H1; stage_calls).
  clear H1.
  apply run_bind_Forall; [stage_calls|]. intros layers_dir H2.
  assert (∀ d, layers_dir = Some d →
            layer_dir a = Some d ∨
            skip_layer a = false ∧ ∃ c, separate c = Ok d) as F2
    by (intros d ->; clear -H2; stage_calls).
  clear H2 F1.
  apply run_bind_Forall; [stage_calls|]. intros cubism_project H3.
  assert (∀ p, cubism_project = Some p → ∃ d, automate d = Ok p) as F3
    by (intros p ->; clear -H3; stage_calls).
  clear H3 F2.
  apply run_bind_Forall; [stage_calls|]. intros [] H4.
  assert (∀ p, cubism_project = Some p → p ≠ "" →
            skip_parameters a = false →
            ∃ b, parameters_generate p = Ok b) as F4
    by (intros p -> Hp Hs; clear -H4 Hs Hp; rewrite Hs in H4; stage_calls).
  clear H4.
  stage_calls.
Qed.

Section main_trace.
Context (character_generate : outcome string).
Context (separate automate : string → outcome string).
Context (parameters_generate : string → outcome bool).
Context (export : string → outcome string).

Local Abbreviation returned_call c :=
  (match c with
   | CharacterGenerate => ∃ p, character_generate = Ok p
   | Separate x => ∃ d, separate x = Ok d
   | Automate x => ∃ p, automate x = Ok p
   | ParametersGenerate x => ∃ b, parameters_generate x = Ok b
   | Export x => ∃ p, export x = Ok p
   end).

Local Abbreviation stopped_call c r1 r2 :=
  (match c with
   | CharacterGenerate => character_generate = r1
   | Separate x => separate x = r1
   | Automate x => automate x = r1
   | ParametersGenerate x => parameters_generate x = r2
   | Export x => export x = r1
   end).

Local Abbreviation trace_ok m :=
  (match m.2 with
   | Ok _ => Forall (λ c, returned_call c) m.1
   | Raise e =>
       ∃ calls c, m.1 = calls ++ [c] ∧
         Forall (λ c, returned_call c) calls ∧
         stopped_call c (Raise e) (Raise e)
   | OutOfFuel =>
       ∃ calls c, m.1 = calls ++ [c] ∧
         Forall (λ c, returned_call c) calls ∧
         stopped_call c OutOfFuel OutOfFuel
   end).

Lemma run_bind_trace {A B : Type} (m : run A) (k : A → run B) :
  trace_ok m → (∀ a, trace_ok (k a)) → trace_ok (run_bind m k).
Proof.
  intros Hm Hk. destruct m as [calls [a|e|]]; simpl in *; [|done..].
  specialize (Hk a). destruct (k a) as [calls' [b|e'|]]; simpl in *.
  - by apply Forall_app.
  - destruct Hk as (l & c & -> & Hl & Hc).
    exists (calls ++ l), c. rewrite app_assoc. split; [done|].
    split; [by apply Forall_app|done].
  - destruct Hk as (l & c & -> & Hl & Hc).
    exists (calls ++ l), c. rewrite app_assoc. split; [done|].
    split; [by apply Forall_app|done].
Qed.

Ltac stage_trace :=
  stage_cases;
  first [by repeat constructor; eauto
        |by eexists [], _; repeat split; eauto].

Lemma main_trace (a : args) :
  trace_ok (main character_generate separate automate parameters_generate
              export a).
Proof.
  unfold main.
  apply run_bind_trace; [stage_trace|intros character_path].
  apply run_bind_trace; [stage_trace|intros layers_dir].
  apply run_bind_trace; [stage_trace|intros cubism_project].
  apply run_bind_trace; [stage_trace|intros _].
  stage_trace.
Qed.

(** X18.  [main] catches nothing that a stage raises: a stage call that
    raises is the last call [main] makes, and its exception is how
    [main] ends; every call that is followed by another one has
    returned. *)
Theorem main_stops_at_first_exception (a : args) :
  let r := main character_generate separate automate parameters_generate
             export a in
  (∀ c, c ∈ r.1 → returned_call c ∨ last r.1 = Some c) ∧
  (∀ c e, c ∈ r.1 → stopped_call c (Raise e) (Raise e) →
          last r.1 = Some c ∧ r.2 = Raise e).
Proof.
  intros r. pose proof (main_trace a) as Htrace. fold r in Htrace.
  assert (Hnot : ∀ c e, returned_call c →
                        stopped_call c (Raise e) (Raise e) → False).
  { intros c e Hret Hc. destruct c; destruct Hret as [? Hret]; congruence. }
  destruct r as [calls [[]|e'|]]; simpl in *.
  - rewrite Forall_forall in Htrace. split; [by left; apply Htrace|].
    intros c e Hc Hraise. exfalso. eapply Hnot; [by apply Htrace|done].
  - destruct Htrace as (l & c' & -> & Hl & Hc').
    rewrite Forall_forall in Hl. rewrite last_snoc. split.
    + intros c [Hc|Hc%list_elem_of_singleton]%elem_of_app;
        [left; by apply Hl|right; by subst].
    + intros c e [Hc|Hc%list_elem_of_singleton]%elem_of_app Hraise.
      * exfalso. eapply Hnot; [by apply Hl|done].
      * subst c. split; [done|]. destruct c'; congruence.
  - destruct Htrace as (l & c' & -> & Hl & Hc').
    rewrite Forall_forall in Hl. rewrite last_snoc. split.
    + intros c [Hc|Hc%list_elem_of_singleton]%elem_of_app;
        [left; by apply Hl|right; by subst].
    + intros c e [Hc|Hc%list_elem_of_singleton]%elem_of_app Hraise.
      * exfalso. eapply Hnot; [by apply Hl|done].
      * subst c. exfalso. destruct c'; congruence.
Qed.
End main_trace.

(** X19.  With no stage skipped and no image or layer directory given, [main]
    runs the five stages in a row when each returns a non-empty path.
    The value [generate] returns is not looked at: the export stage runs
    also when the parameter stage reports failure. *)
Theorem main_full_pipeline (character_generate : outcome string)
    (separate automate : string → outcome string)
    (parameters_generate : string → outcome bool)
    (export : string → outcome string) (a : args)
    (character_path layers_dir cubism_project export_path : string)
    (generated : bool) :
  skip_character a = false → skip_layer a = false →
  skip_cubism a = false → skip_parameters a = false →
  skip_export a = false →
  truthy (character_image a) = false → truthy (layer_dir a) = false →
  character_generate = Ok character_path → character_path ≠ "" →
  separate character_path = Ok layers_dir → layers_dir ≠ "" →
  automate layers_dir = Ok cubism_project → cubism_project ≠ "" →
  parameters_generate cubism_project = Ok generated →
  export cubism_project = Ok export_path →
  main character_generate separate automate parameters_generate export a
  = ([CharacterGenerate; Separate character_path; Automate layers_dir;
      ParametersGenerate cubism_project; Export cubism_project],
     Ok tt).
Proof.
  intros Hsc Hsl Hcu Hsp Hse Himg Hdir Hcg Hc Hsep Hd Haut Hp Hpg Hex.
  unfold main. rewrite Hsc, Hsl, Hcu, Hsp, Hse, Himg, Hdir, Hcg. simpl.
  rewrite (bool_decide_eq_false_2 _ Hc). simpl. rewrite Hsep. simpl.
  rewrite (bool_decide_eq_false_2 _ Hd). simpl. rewrite Haut. simpl.
  rewrite (bool_decide_eq_false_2 _ Hp). simpl. rewrite Hpg. simpl.
  by rewrite Hex.
Qed.

Lemma main_full_pipeline_witness :
  main (Ok "character.png") (λ _, Ok "layers") (λ _, Ok "project")
    (λ _, Ok false) (λ _, Ok "export")
    {| skip_character := false; skip_layer := false; skip_cubism := false;
       skip_parameters := false; skip_export := false;
       character_image := None; layer_dir := None |}
  = ([CharacterGenerate; Separate "character.png"; Automate "layers";
      ParametersGenerate "project"; Export "project"], Ok tt).
Proof.
  apply (main_full_pipeline (Ok "character.png") (λ _, Ok "layers")
           (λ _, Ok "project") (λ _, Ok false) (λ _, Ok "export")
           {| skip_character := false; skip_layer := false;
              skip_cubism := false; skip_parameters := false;
              skip_export := false;
              character_image := None; layer_dir := None |}
           "character.png" "layers" "project" "export" false);
    done.
Defined.
